(** * location-monitor: a shallow embedding of the tracking service

    The TypeScript sources are embedded function by function:

    - [src/utils/distance-calculator.ts], [src/utils/geo.utils.ts] and
      [src/utils/time.utils.ts] as pure functions on binary64 floats
      (a JavaScript [number] is an IEEE 754 double, here Rocq's primitive
      [float], so [NaN], the infinities and the comparison rules are the
      real ones);
    - [src/storage/memory.adapter.ts], [src/core/*.ts] and
      [src/location-monitor.service.ts] as programs of a small monad that
      reads the clock, threads the mutable objects, may throw, and lists
      the events handed to [publishEvent].

    JavaScript [Map]s and [Set]s iterate in insertion order, so they are
    association lists and duplicate-free lists.  A subscriber is a
    function of the event that returns, throws, or returns a promise that
    rejects; a rejection makes [publishEvent] fail, and with it every
    caller that does not catch it.  [async]/[await] is sequentialised: a
    call of the service runs to completion before the next one starts.
    The one place where the source starts several asynchronous calls
    together, the sweep of the watchdog, is sequentialised as well (see
    [WatchdogEngine.performCheck]).  The logger is a sink that no
    operation reads back; it is left out. *)

From Stdlib Require Import Floats String List Bool Arith ZArith Lia.
Import ListNotations.

Set Warnings "-inexact-float".
Set Implicit Arguments.

Open Scope string_scope.
Open Scope float_scope.
Open Scope list_scope.

(* ================================================================= *)
(** ** JavaScript numbers *)

Module JS.

(** [a > b] and [a >= b] on numbers: false as soon as one side is NaN. *)
Definition gt (a b : float) : bool := PrimFloat.ltb b a.
Definition ge (a b : float) : bool := PrimFloat.leb b a.
Definition lt (a b : float) : bool := PrimFloat.ltb a b.
Definition le (a b : float) : bool := PrimFloat.leb a b.

Definition isNaN (x : float) : bool := PrimFloat.is_nan x.

(** ToBoolean on a number: [0], [-0] and [NaN] are falsy. *)
Definition truthy (x : float) : bool :=
  negb (PrimFloat.eqb x 0) && negb (isNaN x).

(** ToBoolean on an optional number ([undefined] is falsy). *)
Definition truthyOpt (x : option float) : bool :=
  match x with
  | Some v => truthy v
  | None => false
  end.

(** ToBoolean on a string: only the empty string is falsy. *)
Definition truthyStr (s : string) : bool :=
  negb (String.eqb s "").

Definition NaN : float := PrimFloat.nan.

(** What the engine needs from the host's [Math] object and from the
    [%] operator.  ECMAScript leaves the transcendental functions
    implementation-approximated, so they are an interface here;
    [Math.sqrt] and [Math.PI] are exact and are defined below. *)
Class Runtime : Type := {
  Math_sin : float -> float;
  Math_cos : float -> float;
  Math_atan2 : float -> float -> float;
  rem : float -> float -> float
}.

Definition Math_sqrt (x : float) : float := PrimFloat.sqrt x.
Definition Math_PI : float := 3.141592653589793.

End JS.

Notation "a >? b" := (JS.gt a b) (at level 70, no associativity) : float_scope.
Notation "a >=? b" := (JS.ge a b) (at level 70, no associativity) : float_scope.

(* ================================================================= *)
(** ** [Map<string, V>] and [Set<string>] in insertion order *)

Module JSMap.
Section Defs.
Variable V : Type.

Definition t := list (string * V).

Definition empty : t := [].

Fixpoint get (k : string) (m : t) : option V :=
  match m with
  | [] => None
  | (k', v) :: m' => if String.eqb k k' then Some v else get k m'
  end.

Definition has (k : string) (m : t) : bool :=
  match get k m with
  | Some _ => true
  | None => false
  end.

(** [set] keeps the position of a key that is already present. *)
Fixpoint set (k : string) (v : V) (m : t) : t :=
  match m with
  | [] => [(k, v)]
  | (k', v') :: m' =>
      if String.eqb k k' then (k', v) :: m' else (k', v') :: set k v m'
  end.

Fixpoint delete (k : string) (m : t) : t :=
  match m with
  | [] => []
  | (k', v') :: m' =>
      if String.eqb k k' then m' else (k', v') :: delete k m'
  end.

Definition keys (m : t) : list string := map fst m.
Definition values (m : t) : list V := map snd m.
End Defs.

Arguments empty {V}.
End JSMap.

Module JSSet.
Definition t := list string.

Definition empty : t := [].

Definition has (x : string) (s : t) : bool := existsb (String.eqb x) s.

Definition add (x : string) (s : t) : t :=
  if has x s then s else s ++ [x].

Definition delete (x : string) (s : t) : t :=
  filter (fun y => negb (String.eqb x y)) s.

(** [new Set(a)] followed by more [add]s: append without duplicates. *)
Definition addAll (xs : list string) (s : t) : t :=
  fold_left (fun acc x => add x acc) xs s.
End JSSet.

(* ================================================================= *)
(** ** [src/events/event-types.ts] and [src/types/config.types.ts] *)

Inductive AgentStatus : Type :=
  | ACTIVE | IDLE | MOVING | STOPPED | UNREACHABLE | OFFLINE.

Definition AgentStatus_eqb (a b : AgentStatus) : bool :=
  match a, b with
  | ACTIVE, ACTIVE | IDLE, IDLE | MOVING, MOVING
  | STOPPED, STOPPED | UNREACHABLE, UNREACHABLE | OFFLINE, OFFLINE => true
  | _, _ => false
  end.

Inductive EventType : Type :=
  | LOCATION_RECEIVED
  | STATUS_CHANGED
  | AGENT_UNREACHABLE
  | AGENT_BACK_ONLINE
  | AGENT_IDLE
  | AGENT_ACTIVE
  | AGENT_ENTERED_GEOFENCE
  | AGENT_EXITED_GEOFENCE.

(** [Record<string, any>]: the engine only stores and forwards it. *)
Definition Metadata : Type := list (string * string).

(** The fields [accuracy] and [altitude] are declared optional in the
    source and never written by the engine; they are always absent. *)
Record LocationData : Type := {
  loc_agentId : string;
  latitude : float;
  longitude : float;
  timestamp : float;
  speed : option float;
  heading : option float;
  metadata : option Metadata
}.

Record StatusChangePayload : Type := {
  sc_agentId : string;
  oldStatus : AgentStatus;
  newStatus : AgentStatus;
  sc_timestamp : float;
  reason : option string
}.

Record LocationReceivedPayload : Type := {
  lr_agentId : string;
  lr_location : LocationData;
  distanceTraveled : float;
  lr_speed : option float
}.

Inductive GeofenceDirection : Type := enter | exit.

Record GeofenceEvent : Type := {
  ge_agentId : string;
  geofenceId : string;
  geofenceName : string;
  ge_location : LocationData;
  ge_timestamp : float;
  eventType : GeofenceDirection
}.

Record AgentStateSnapshot : Type := {
  st_agentId : string;
  status : AgentStatus;
  lastLocation : option LocationData;
  lastUpdate : float;
  lastMovement : option float;
  totalDistanceTraveled : float;
  activeGeofences : list string
}.

Inductive EventPayload : Type :=
  | PLocationReceived (p : LocationReceivedPayload)
  | PStatusChange (p : StatusChangePayload)
  | PGeofence (p : GeofenceEvent)
  | PAgentState (p : AgentStateSnapshot).

Record MonitorEvent : Type := {
  type : EventType;
  payload : EventPayload;
  ev_timestamp : float
}.

Record ThresholdConfig : Type := {
  idleAfter : float;
  unreachableAfter : float;
  offlineAfter : float;
  minSpeed : float;
  maxJumpDistance : float
}.

Record WatchdogConfig : Type := {
  wd_enabled : bool;
  checkInterval : float
}.

Record GeofenceConfig : Type := {
  gf_enabled : bool
}.

(** The [logging] block and the [storageDriver] handle are not part of
    the record: logging is not modelled and the driver is the in-memory
    adapter below. *)
Record LocationMonitorConfig : Type := {
  thresholds : ThresholdConfig;
  watchdog : WatchdogConfig;
  geofence : GeofenceConfig
}.

Definition DEFAULT_CONFIG : LocationMonitorConfig := {|
  thresholds := {|
    idleAfter := 300000;
    unreachableAfter := 30000;
    offlineAfter := 600000;
    minSpeed := 1.5;
    maxJumpDistance := 300
  |};
  watchdog := {| wd_enabled := true; checkInterval := 5000 |};
  geofence := {| gf_enabled := true |}
|}.

Record Coordinate : Type := {
  c_latitude : float;
  c_longitude : float
}.

Record CircularGeofence : Type := {
  cg_id : string;
  cg_name : string;
  center : Coordinate;
  radius : float;
  cg_metadata : option Metadata
}.

Record PolygonGeofence : Type := {
  pg_id : string;
  pg_name : string;
  coordinates : list Coordinate;
  pg_metadata : option Metadata
}.

(** The union discriminated by [type: 'circular' | 'polygon']. *)
Inductive Geofence : Type :=
  | Circular (g : CircularGeofence)
  | Polygon (g : PolygonGeofence).

Definition gf_id (g : Geofence) : string :=
  match g with
  | Circular c => cg_id c
  | Polygon p => pg_id p
  end.

Definition gf_name (g : Geofence) : string :=
  match g with
  | Circular c => cg_name c
  | Polygon p => pg_name p
  end.

(* ================================================================= *)
(** ** [src/utils/distance-calculator.ts] *)

Module DistanceCalculator.
Section WithRuntime.
Context {RT : JS.Runtime}.

Definition EARTH_RADIUS_M : float := 6371000.

Definition toRadians (degrees : float) : float :=
  (degrees * JS.Math_PI) / 180.

Definition toDegrees (radians : float) : float :=
  (radians * 180) / JS.Math_PI.

(** Haversine distance in meters. *)
Definition calculateDistance (lat1 lon1 lat2 lon2 : float) : float :=
  let dLat := toRadians (lat2 - lat1) in
  let dLon := toRadians (lon2 - lon1) in
  let a :=
    JS.Math_sin (dLat / 2) * JS.Math_sin (dLat / 2) +
    JS.Math_cos (toRadians lat1) *
      JS.Math_cos (toRadians lat2) *
      JS.Math_sin (dLon / 2) *
      JS.Math_sin (dLon / 2) in
  let c := 2 * JS.Math_atan2 (JS.Math_sqrt a) (JS.Math_sqrt (1 - a)) in
  EARTH_RADIUS_M * c.

Definition calculateBearing (lat1 lon1 lat2 lon2 : float) : float :=
  let dLon := toRadians (lon2 - lon1) in
  let y := JS.Math_sin dLon * JS.Math_cos (toRadians lat2) in
  let x :=
    JS.Math_cos (toRadians lat1) * JS.Math_sin (toRadians lat2) -
    JS.Math_sin (toRadians lat1) * JS.Math_cos (toRadians lat2) *
      JS.Math_cos dLon in
  let bearing := toDegrees (JS.Math_atan2 y x) in
  JS.rem (bearing + 360) 360.
End WithRuntime.

(** Speed in km/h from meters and milliseconds. *)
Definition calculateSpeed (distanceMeters timeMs : float) : float :=
  if PrimFloat.eqb timeMs 0 then 0
  else
    let distanceKm := distanceMeters / 1000 in
    let timeHours := timeMs / (1000 * 60 * 60) in
    distanceKm / timeHours.

Definition isValidCoordinate (latitude longitude : float) : bool :=
  (latitude >=? -90) &&
  (latitude <=? 90) &&
  (longitude >=? -180) &&
  (longitude <=? 180) &&
  negb (JS.isNaN latitude) &&
  negb (JS.isNaN longitude).

Definition isAbnormalJump (distanceMeters timeMs maxJumpDistance : float)
  : bool :=
  if timeMs <? 1000 then false else distanceMeters >? maxJumpDistance.
End DistanceCalculator.

(* ================================================================= *)
(** ** [src/utils/time.utils.ts]

    [now()] is [Date.now()]; the functions that call it take the value it
    returned as their first argument. *)

Module TimeUtils.
Definition isOlderThan (now timestamp durationMs : float) : bool :=
  (now - timestamp) >? durationMs.


Definition isValidTimestamp (now timestamp : float) : bool :=
  negb (JS.isNaN timestamp) &&
  (timestamp >? 0) &&
  (timestamp <=? now + 60000).
End TimeUtils.

(* ================================================================= *)
(** ** [src/utils/geo.utils.ts] *)

Module GeoUtils.
Section WithRuntime.
Context {RT : JS.Runtime}.

Definition isPointInCircle (latitude longitude : float)
    (geofence : CircularGeofence) : bool :=
  let distance :=
    DistanceCalculator.calculateDistance latitude longitude
      (c_latitude (center geofence)) (c_longitude (center geofence)) in
  distance <=? radius geofence.

(** One turn of the ray-casting loop: [vi] is [vertices[i]], [vj] is
    [vertices[j]]. *)
Definition crossing (latitude longitude : float) (vi vj : Coordinate)
  : bool :=
  let xi := c_longitude vi in
  let yi := c_latitude vi in
  let xj := c_longitude vj in
  let yj := c_latitude vj in
  negb (Bool.eqb (yi >? latitude) (yj >? latitude)) &&
  (longitude <? ((xj - xi) * (latitude - yi)) / (yj - yi) + xi).

(** [for (i = 0, j = n - 1; i < n; j = i++)]: [vj] is the vertex
    visited just before, the last one on the first turn. *)
Fixpoint rayCast (latitude longitude : float) (vs : list Coordinate)
    (vj : Coordinate) (inside : bool) : bool :=
  match vs with
  | [] => inside
  | vi :: rest =>
      rayCast latitude longitude rest vi
        (if crossing latitude longitude vi vj then negb inside
         else inside)
  end.

Definition isPointInPolygon (latitude longitude : float)
    (geofence : PolygonGeofence) : bool :=
  let vertices := coordinates geofence in
  match vertices with
  | [] => false
  | v0 :: _ => rayCast latitude longitude vertices (last vertices v0) false
  end.

Definition isPointInGeofence (latitude longitude : float)
    (geofence : Geofence) : bool :=
  match geofence with
  | Circular c => isPointInCircle latitude longitude c
  | Polygon p => isPointInPolygon latitude longitude p
  end.

Definition getContainingGeofences (latitude longitude : float)
    (geofences : list Geofence) : list Geofence :=
  filter (fun geofence => isPointInGeofence latitude longitude geofence)
    geofences.
End WithRuntime.

Record Validation : Type := {
  valid : bool;
  errors : list string
}.

Definition outOfRange (c : Coordinate) : bool :=
  (c_latitude c <? -90) ||
  (c_latitude c >? 90) ||
  (c_longitude c <? -180) ||
  (c_longitude c >? 180).

Definition validateGeofence (geofence : Geofence) : Validation :=
  let errors1 :=
    if negb (JS.truthyStr (gf_id geofence)) ||
       negb (JS.truthyStr (gf_name geofence))
    then ["Geofence must have id and name"] else [] in
  let errors2 :=
    match geofence with
    | Circular g =>
        (if radius g <=? 0
         then ["Circular geofence radius must be positive"] else []) ++
        (if outOfRange (center g)
         then ["Invalid center coordinates"] else [])
    | Polygon g =>
        (if (length (coordinates g) <? 3)%nat
         then ["Polygon must have at least 3 vertices"] else []) ++
        (if existsb outOfRange (coordinates g)
         then ["Invalid vertex coordinates"] else [])
    end in
  let errors := errors1 ++ errors2 in
  {| valid := match errors with [] => true | _ => false end;
     errors := errors |}.
End GeoUtils.

(* ================================================================= *)
(** ** Effects

    A method is a function of the clock ([Date.now()], constant while one
    call runs) and of the mutable objects it can reach.  It returns a
    value or throws, leaves the objects in a new state (a throw keeps the
    writes done before it), and lists the events it handed to
    [publishEvent], oldest first, each with the subscribers it was
    delivered to. *)

(** [SubscriberRejected] stands for the reason a subscriber's promise
    was rejected with, which [publishEvent] passes on as it is. *)
Inductive Error : Type :=
  | InvalidAgentId
  | InvalidCoordinates (latitude longitude : float)
  | InvalidGeofence (errors : list string)
  | NotInitialized
  | SubscriberRejected.

(** The spec's error kind [InvalidInput]. *)
Definition isInvalidInput (e : Error) : bool :=
  match e with
  | InvalidAgentId | InvalidCoordinates _ _ | InvalidGeofence _ => true
  | NotInitialized | SubscriberRejected => false
  end.

Inductive Result (A : Type) : Type :=
  | Ok (a : A)
  | Throw (e : Error).

Arguments Ok {A} a.
Arguments Throw {A} e.

(** A subscriber is a callback [(event) => void | Promise<void>].  A
    call of it returns (nothing, or a promise that resolves), throws, or
    returns a promise that rejects.  The callback is a function of the
    event it is given and does not call the service; the number tells
    callbacks apart. *)
Inductive Settlement : Type := Returns | Throws | Rejects.

Record Handler : Type := {
  handlerId : nat;
  settles : MonitorEvent -> Settlement
}.

Record Delivery : Type := {
  event : MonitorEvent;
  receivers : list Handler
}.

Definition M (S A : Type) : Type :=
  float -> S -> Result A * S * list Delivery.

Definition ret {S A} (a : A) : M S A :=
  fun _ s => (Ok a, s, []).

Definition bind {S A B} (m : M S A) (f : A -> M S B) : M S B :=
  fun now s =>
    match m now s with
    | (Ok a, s1, out1) =>
        match f a now s1 with
        | (r, s2, out2) => (r, s2, out1 ++ out2)
        end
    | (Throw e, s1, out1) => (Throw e, s1, out1)
    end.

Notation "x <- m ;; k" := (bind m (fun x => k))
  (at level 61, m at next level, right associativity).
Notation "m ;;; k" := (bind m (fun _ => k))
  (at level 61, right associativity).

Definition throw {S A} (e : Error) : M S A :=
  fun _ s => (Throw e, s, []).

Definition getNow {S} : M S float :=
  fun now s => (Ok now, s, []).

Definition read {S A} (f : S -> A) : M S A :=
  fun _ s => (Ok (f s), s, []).

Definition modify {S} (f : S -> S) : M S unit :=
  fun _ s => (Ok tt, f s, []).

Definition emit {S} (d : Delivery) : M S unit :=
  fun _ s => (Ok tt, s, [d]).

(** [try { m } catch (error) { log }] *)
Definition tryCatch {S} (m : M S unit) : M S unit :=
  fun now s =>
    match m now s with
    | (Ok _, s1, out1) => (Ok tt, s1, out1)
    | (Throw _, s1, out1) => (Ok tt, s1, out1)
    end.

Fixpoint forEach {S X} (xs : list X) (f : X -> M S unit) : M S unit :=
  match xs with
  | [] => ret tt
  | x :: rest => f x ;;; forEach rest f
  end.

(** A method of an object of state [S] run inside a larger state [W]. *)
Definition zoom {W S A} (proj : W -> S) (inj : S -> W -> W) (m : M S A)
  : M W A :=
  fun now w =>
    match m now (proj w) with
    | (r, s1, out1) => (r, inj s1 w, out1)
    end.

Definition result {S A} (o : Result A * S * list Delivery) : Result A :=
  fst (fst o).
Definition final {S A} (o : Result A * S * list Delivery) : S :=
  snd (fst o).
Definition published {S A} (o : Result A * S * list Delivery)
  : list MonitorEvent :=
  map event (snd o).

(* ================================================================= *)
(** ** [src/storage/memory.adapter.ts] *)

(** [totalLocations] only ever counts up by one from zero; it is a
    natural number. *)
Record Stats : Type := {
  totalLocations : nat;
  totalDistance : float;
  stats_lastUpdate : float
}.

Record StatusEntry : Type := {
  se_status : AgentStatus;
  se_timestamp : float
}.

Module MemoryAdapter.

Record t : Type := {
  locations : JSMap.t LocationData;
  statuses : JSMap.t StatusEntry;
  states : JSMap.t AgentStateSnapshot;
  stats : JSMap.t Stats;
  eventHandlers : list Handler
}.

Definition new : t := {|
  locations := JSMap.empty;
  statuses := JSMap.empty;
  states := JSMap.empty;
  stats := JSMap.empty;
  eventHandlers := []
|}.

Definition with_locations (f : JSMap.t LocationData -> JSMap.t LocationData)
    (s : t) : t :=
  {| locations := f (locations s); statuses := statuses s;
     states := states s; stats := stats s;
     eventHandlers := eventHandlers s |}.

Definition with_statuses (f : JSMap.t StatusEntry -> JSMap.t StatusEntry)
    (s : t) : t :=
  {| locations := locations s; statuses := f (statuses s);
     states := states s; stats := stats s;
     eventHandlers := eventHandlers s |}.

Definition with_states
    (f : JSMap.t AgentStateSnapshot -> JSMap.t AgentStateSnapshot)
    (s : t) : t :=
  {| locations := locations s; statuses := statuses s;
     states := f (states s); stats := stats s;
     eventHandlers := eventHandlers s |}.

Definition with_stats (f : JSMap.t Stats -> JSMap.t Stats) (s : t) : t :=
  {| locations := locations s; statuses := statuses s;
     states := states s; stats := f (stats s);
     eventHandlers := eventHandlers s |}.

Definition with_eventHandlers (f : list Handler -> list Handler)
    (s : t) : t :=
  {| locations := locations s; statuses := statuses s;
     states := states s; stats := stats s;
     eventHandlers := f (eventHandlers s) |}.

Definition initialize : M t unit := ret tt.

Definition disconnect : M t unit :=
  modify (with_locations (fun _ => JSMap.empty)) ;;;
  modify (with_statuses (fun _ => JSMap.empty)) ;;;
  modify (with_states (fun _ => JSMap.empty)) ;;;
  modify (with_stats (fun _ => JSMap.empty)) ;;;
  modify (with_eventHandlers (fun _ => [])).

Definition saveLocation (agentId : string) (location : LocationData)
  : M t unit :=
  modify (with_locations (JSMap.set agentId location)) ;;;
  found <- read (fun s => JSMap.get agentId (stats s)) ;;
  let stats0 :=
    match found with
    | Some st => st
    | None => {| totalLocations := 0;
                 totalDistance := 0;
                 stats_lastUpdate := timestamp location |}
    end in
  let stats1 := {| totalLocations := S (totalLocations stats0);
                   totalDistance := totalDistance stats0;
                   stats_lastUpdate := timestamp location |} in
  modify (with_stats (JSMap.set agentId stats1)).

Definition getLastLocation (agentId : string) : M t (option LocationData) :=
  read (fun s => JSMap.get agentId (locations s)).

Definition saveStatus (agentId : string) (status : AgentStatus)
    (timestamp : float) : M t unit :=
  modify (with_statuses
            (JSMap.set agentId
               {| se_status := status; se_timestamp := timestamp |})).

Definition getStatus (agentId : string) : M t (option AgentStatus) :=
  read (fun s => option_map se_status (JSMap.get agentId (statuses s))).

Definition saveAgentState (agentId : string) (state : AgentStateSnapshot)
  : M t unit :=
  modify (with_states (JSMap.set agentId state)).

Definition getAgentState (agentId : string)
  : M t (option AgentStateSnapshot) :=
  read (fun s => JSMap.get agentId (states s)).

Definition getAllAgents : M t (list string) :=
  read (fun s =>
          JSSet.addAll (JSMap.keys (states s))
            (JSSet.addAll (JSMap.keys (statuses s))
               (JSSet.addAll (JSMap.keys (locations s)) JSSet.empty))).

(** [handler(event)] returned a promise that rejects. *)
Definition rejects (e : MonitorEvent) (handler : Handler) : bool :=
  match settles handler e with
  | Rejects => true
  | Returns | Throws => false
  end.

(** Every handler is called with the event, in the order of
    subscription.  A handler that throws is caught and logged and does
    not stop the others; a promise that rejects is not caught: once all
    handlers have been called, [await Promise.all(promises)] rejects and
    with it [publishEvent]. *)
Definition publishEvent (e : MonitorEvent) : M t unit :=
  handlers <- read eventHandlers ;;
  emit {| event := e; receivers := handlers |} ;;;
  if existsb (rejects e) handlers then throw SubscriberRejected
  else ret tt.

Definition subscribeEvents (handler : Handler) : M t unit :=
  modify (with_eventHandlers (fun hs => hs ++ [handler])).

Definition unsubscribeEvents : M t unit :=
  modify (with_eventHandlers (fun _ => [])).

Definition getAgentStats (agentId : string) : M t (option Stats) :=
  read (fun s => JSMap.get agentId (stats s)).

Definition clearAgentData (agentId : string) : M t unit :=
  modify (with_locations (JSMap.delete agentId)) ;;;
  modify (with_statuses (JSMap.delete agentId)) ;;;
  modify (with_states (JSMap.delete agentId)) ;;;
  modify (with_stats (JSMap.delete agentId)).

End MemoryAdapter.

(* ================================================================= *)
(** ** [src/core/location-engine.ts] *)

Module LocationEngine.
Section WithRuntime.
Context {RT : JS.Runtime}.

Definition validateInput (agentId : string) (latitude longitude : float)
  : M MemoryAdapter.t unit :=
  if negb (JS.truthyStr agentId) then throw InvalidAgentId
  else if negb (DistanceCalculator.isValidCoordinate latitude longitude)
  then throw (InvalidCoordinates latitude longitude)
  else ret tt.

(** The [isAbnormalJump] test of the source only writes a warning to
    the log; the sample is processed the same way in both cases. *)
Definition trackLocation (agentId : string) (latitude longitude : float)
    (timestamp : option float) (metadata : option Metadata)
  : M MemoryAdapter.t LocationData :=
  validateInput agentId latitude longitude ;;;
  now <- getNow ;;
  let locationTimestamp :=
    match timestamp with
    | Some ts =>
        if JS.truthy ts && TimeUtils.isValidTimestamp now ts
        then ts else now
    | None => now
    end in
  lastLocation <- MemoryAdapter.getLastLocation agentId ;;
  let metrics :=
    match lastLocation with
    | Some {| latitude := lastLatitude; longitude := lastLongitude;
              timestamp := lastTimestamp |} =>
        let distanceTraveled :=
          DistanceCalculator.calculateDistance
            lastLatitude lastLongitude latitude longitude in
        let timeDiff := locationTimestamp - lastTimestamp in
        (if timeDiff >? 0
         then Some (DistanceCalculator.calculateSpeed
                      distanceTraveled timeDiff)
         else None,
         if distanceTraveled >? 1
         then Some (DistanceCalculator.calculateBearing
                      lastLatitude lastLongitude latitude longitude)
         else None,
         distanceTraveled)
    | None => (None, None, 0)
    end in
  let speed := fst (fst metrics) in
  let heading := snd (fst metrics) in
  let distanceTraveled := snd metrics in
  let locationData := {|
    loc_agentId := agentId;
    latitude := latitude;
    longitude := longitude;
    timestamp := locationTimestamp;
    speed := speed;
    heading := heading;
    metadata := metadata
  |} in
  MemoryAdapter.saveLocation agentId locationData ;;;
  MemoryAdapter.publishEvent {|
    type := LOCATION_RECEIVED;
    payload := PLocationReceived {|
      lr_agentId := agentId;
      lr_location := locationData;
      distanceTraveled := distanceTraveled;
      lr_speed := speed
    |};
    ev_timestamp := now
  |} ;;;
  ret locationData.

Definition getCurrentLocation (agentId : string)
  : M MemoryAdapter.t (option LocationData) :=
  MemoryAdapter.getLastLocation agentId.

Definition getDistanceBetweenAgents (agentId1 agentId2 : string)
  : M MemoryAdapter.t (option float) :=
  location1 <- MemoryAdapter.getLastLocation agentId1 ;;
  location2 <- MemoryAdapter.getLastLocation agentId2 ;;
  match location1, location2 with
  | Some l1, Some l2 =>
      ret (Some (DistanceCalculator.calculateDistance
                   (latitude l1) (longitude l1)
                   (latitude l2) (longitude l2)))
  | _, _ => ret None
  end.
End WithRuntime.
End LocationEngine.

(* ================================================================= *)
(** ** [src/core/status-engine.ts] *)

Module StatusEngine.
Section WithThresholds.
Variable thresholds : ThresholdConfig.

(** [currentStatus !== newStatus], where [currentStatus] may be
    [null]. *)
Definition differs (currentStatus : option AgentStatus)
    (newStatus : AgentStatus) : bool :=
  match currentStatus with
  | Some s => negb (AgentStatus_eqb s newStatus)
  | None => true
  end.

(** [currentStatus || fallback] *)
Definition orElse (currentStatus : option AgentStatus)
    (fallback : AgentStatus) : AgentStatus :=
  match currentStatus with
  | Some s => s
  | None => fallback
  end.

Definition determineStatus (currentLocation : LocationData)
    (lastLocation : option LocationData) : AgentStatus :=
  match lastLocation with
  | None => ACTIVE
  | Some last =>
      let timeDiff := timestamp currentLocation - timestamp last in
      if timeDiff >? unreachableAfter thresholds then ACTIVE
      else
        let speed :=
          match speed currentLocation with
          | Some v => if JS.truthy v then v else 0
          | None => 0
          end in
        if speed >=? minSpeed thresholds then MOVING else STOPPED
  end.

Definition minimalSnapshot (agentId : string) (newStatus : AgentStatus)
    (timestamp : float) : AgentStateSnapshot :=
  {| st_agentId := agentId;
     status := newStatus;
     lastLocation := None;
     lastUpdate := timestamp;
     lastMovement := None;
     totalDistanceTraveled := 0;
     activeGeofences := [] |}.

Definition emitSpecificStatusEvents (agentId : string)
    (oldStatus newStatus : AgentStatus) (timestamp : float)
  : M MemoryAdapter.t unit :=
  state <- MemoryAdapter.getAgentState agentId ;;
  now <- getNow ;;
  let snapshot :=
    match state with
    | Some st => st
    | None => minimalSnapshot agentId newStatus timestamp
    end in
  let publish (ty : EventType) : M MemoryAdapter.t unit :=
    MemoryAdapter.publishEvent
      {| type := ty; payload := PAgentState snapshot;
         ev_timestamp := now |} in
  (if AgentStatus_eqb newStatus UNREACHABLE &&
      negb (AgentStatus_eqb oldStatus UNREACHABLE)
   then publish AGENT_UNREACHABLE else ret tt) ;;;
  (if (AgentStatus_eqb oldStatus UNREACHABLE ||
       AgentStatus_eqb oldStatus OFFLINE) &&
      (AgentStatus_eqb newStatus ACTIVE ||
       AgentStatus_eqb newStatus MOVING)
   then publish AGENT_BACK_ONLINE else ret tt) ;;;
  (if AgentStatus_eqb newStatus IDLE &&
      negb (AgentStatus_eqb oldStatus IDLE)
   then publish AGENT_IDLE else ret tt) ;;;
  (if AgentStatus_eqb newStatus ACTIVE &&
      (AgentStatus_eqb oldStatus IDLE ||
       AgentStatus_eqb oldStatus STOPPED)
   then publish AGENT_ACTIVE else ret tt).

Definition updateStatus (agentId : string)
    (oldStatus newStatus : AgentStatus) (timestamp : float)
    (reason : option string) : M MemoryAdapter.t unit :=
  MemoryAdapter.saveStatus agentId newStatus timestamp ;;;
  now <- getNow ;;
  MemoryAdapter.publishEvent {|
    type := STATUS_CHANGED;
    payload := PStatusChange {|
      sc_agentId := agentId;
      oldStatus := oldStatus;
      newStatus := newStatus;
      sc_timestamp := timestamp;
      reason := reason
    |};
    ev_timestamp := now
  |} ;;;
  emitSpecificStatusEvents agentId oldStatus newStatus timestamp.

Definition detectStatus (agentId : string) (location : LocationData)
  : M MemoryAdapter.t AgentStatus :=
  currentStatus <- MemoryAdapter.getStatus agentId ;;
  lastLocation <- MemoryAdapter.getLastLocation agentId ;;
  let newStatus := determineStatus location lastLocation in
  (if differs currentStatus newStatus
   then updateStatus agentId (orElse currentStatus ACTIVE) newStatus
          (timestamp location) None
   else ret tt) ;;;
  ret newStatus.

(** The three checks of [checkStatusByTime] on a snapshot, in the
    order of the source; each one overwrites [newStatus]. *)
Definition statusByTime (now : float) (state : AgentStateSnapshot)
  : AgentStatus :=
  let currentStatus := status state in
  let newStatus := currentStatus in
  let newStatus :=
    if TimeUtils.isOlderThan now (lastUpdate state)
         (unreachableAfter thresholds) &&
       (negb (AgentStatus_eqb currentStatus UNREACHABLE) &&
        negb (AgentStatus_eqb currentStatus OFFLINE))
    then UNREACHABLE else newStatus in
  let newStatus :=
    if TimeUtils.isOlderThan now (lastUpdate state)
         (offlineAfter thresholds) &&
       negb (AgentStatus_eqb currentStatus OFFLINE)
    then OFFLINE else newStatus in
  let newStatus :=
    if match lastMovement state with
       | Some lm =>
           JS.truthy lm &&
           TimeUtils.isOlderThan now lm (idleAfter thresholds)
       | None => false
       end &&
       (AgentStatus_eqb currentStatus ACTIVE ||
        AgentStatus_eqb currentStatus MOVING)
    then IDLE else newStatus in
  newStatus.

Definition checkStatusByTime (agentId : string)
  : M MemoryAdapter.t AgentStatus :=
  state <- MemoryAdapter.getAgentState agentId ;;
  match state with
  | None => ret OFFLINE
  | Some st =>
      if negb (JS.truthy (lastUpdate st)) then ret OFFLINE
      else
        now <- getNow ;;
        let currentStatus := status st in
        let newStatus := statusByTime now st in
        (if negb (AgentStatus_eqb currentStatus newStatus)
         then updateStatus agentId currentStatus newStatus now None
         else ret tt) ;;;
        ret newStatus
  end.

Definition setStatus (agentId : string) (status : AgentStatus)
    (reason : option string) : M MemoryAdapter.t unit :=
  currentStatus <- MemoryAdapter.getStatus agentId ;;
  now <- getNow ;;
  if differs currentStatus status
  then updateStatus agentId (orElse currentStatus OFFLINE) status now
         reason
  else ret tt.

Definition getStatus (agentId : string)
  : M MemoryAdapter.t (option AgentStatus) :=
  MemoryAdapter.getStatus agentId.
End WithThresholds.
End StatusEngine.

(* ================================================================= *)
(** ** [src/core/watchdog-engine.ts]

    The engine's own state is the [isRunning] flag; the interval timer is
    armed exactly while the flag is set.  The checks themselves act on
    the storage driver. *)

Module WatchdogEngine.

Record t : Type := {
  isRunning : bool
}.

Definition new : t := {| isRunning := false |}.

Definition start (config : WatchdogConfig) : M t unit :=
  running <- read isRunning ;;
  if running then ret tt
  else if negb (wd_enabled config) then ret tt
  else modify (fun _ => {| isRunning := true |}).

Definition stop : M t unit :=
  running <- read isRunning ;;
  if negb running then ret tt
  else modify (fun _ => {| isRunning := false |}).

Definition isActive : M t bool := read isRunning.

Section WithThresholds.
Variable thresholds : ThresholdConfig.

Definition checkAgent (agentId : string) : M MemoryAdapter.t unit :=
  tryCatch (StatusEngine.checkStatusByTime thresholds agentId ;;; ret tt).

(** The source starts [checkAgent] for every agent and then awaits
    [Promise.allSettled]: the checks interleave at their [await]s.  Each
    check reads and writes only the snapshot and the status of its own
    agent, never changes the subscribers, and catches its own errors, so
    the store after the sweep and the events published about any one
    agent, in their order, are those of running the checks one after the
    other, which is what [forEach] does here.  The order between events
    of different agents is not the source's; nothing below is stated
    about it. *)
Definition performCheck : M MemoryAdapter.t unit :=
  tryCatch (agents <- MemoryAdapter.getAllAgents ;;
            forEach agents checkAgent).

Definition forceCheck (agentId : string) : M MemoryAdapter.t unit :=
  checkAgent agentId.

Definition forceCheckAll : M MemoryAdapter.t unit :=
  performCheck.
End WithThresholds.
End WatchdogEngine.

(* ================================================================= *)
(** ** [src/core/geo-engine.ts] *)

Module GeoEngine.

Record t : Type := {
  geofences : JSMap.t Geofence;
  agentGeofences : JSMap.t JSSet.t
}.

Definition new : t := {|
  geofences := JSMap.empty;
  agentGeofences := JSMap.empty
|}.

Definition registerGeofence (geofence : Geofence) : M t unit :=
  let validation := GeoUtils.validateGeofence geofence in
  if negb (GeoUtils.valid validation)
  then throw (InvalidGeofence (GeoUtils.errors validation))
  else
    modify (fun s =>
              {| geofences := JSMap.set (gf_id geofence) geofence
                                (geofences s);
                 agentGeofences := agentGeofences s |}).

Definition removeGeofence (geofenceId : string) : M t unit :=
  modify (fun s =>
            {| geofences := JSMap.delete geofenceId (geofences s);
               agentGeofences :=
                 map (fun entry =>
                        (fst entry, JSSet.delete geofenceId (snd entry)))
                     (agentGeofences s) |}).

Definition getGeofences : M t (list Geofence) :=
  read (fun s => JSMap.values (geofences s)).

Definition getGeofence (geofenceId : string) : M t (option Geofence) :=
  read (fun s => JSMap.get geofenceId (geofences s)).

(** [this.agentGeofences.get(agentId) || new Set()] *)
Definition membership (agentId : string) (s : t) : JSSet.t :=
  match JSMap.get agentId (agentGeofences s) with
  | Some ids => ids
  | None => JSSet.empty
  end.

Definition getAgentGeofences (agentId : string) : M t (list Geofence) :=
  read (fun s =>
          flat_map (fun id =>
                      match JSMap.get id (geofences s) with
                      | Some g => [g]
                      | None => []
                      end)
                   (membership agentId s)).

Definition isAgentInGeofence (agentId geofenceId : string) : M t bool :=
  read (fun s =>
          match JSMap.get agentId (agentGeofences s) with
          | Some ids => JSSet.has geofenceId ids
          | None => false
          end).

Definition getAgentsInGeofence (geofenceId : string)
  : M t (list string) :=
  read (fun s =>
          map fst
            (filter (fun entry => JSSet.has geofenceId (snd entry))
                    (agentGeofences s))).

Definition clearAgentGeofences (agentId : string) : M t unit :=
  modify (fun s =>
            {| geofences := geofences s;
               agentGeofences := JSMap.delete agentId (agentGeofences s) |}).

(** [checkGeofences] also publishes through the storage driver, so it
    runs on the engine together with the driver. *)
Definition onSelf {A} (m : M t A) : M (t * MemoryAdapter.t) A :=
  zoom fst (fun s w => (s, snd w)) m.

Definition onStorage {A} (m : M MemoryAdapter.t A)
  : M (t * MemoryAdapter.t) A :=
  zoom snd (fun s w => (fst w, s)) m.

Definition emitGeofenceEvent (ty : EventType) (dir : GeofenceDirection)
    (agentId : string) (geofence : Geofence) (location : LocationData)
  : M (t * MemoryAdapter.t) unit :=
  now <- getNow ;;
  onStorage (MemoryAdapter.publishEvent {|
    type := ty;
    payload := PGeofence {|
      ge_agentId := agentId;
      geofenceId := gf_id geofence;
      geofenceName := gf_name geofence;
      ge_location := location;
      ge_timestamp := now;
      eventType := dir
    |};
    ev_timestamp := now
  |}).

Definition emitGeofenceEnterEvent :=
  emitGeofenceEvent AGENT_ENTERED_GEOFENCE enter.

Definition emitGeofenceExitEvent :=
  emitGeofenceEvent AGENT_EXITED_GEOFENCE exit.

Section WithRuntime.
Context {RT : JS.Runtime}.

(** The body of [for (const [geofenceId, geofence] of this.geofences)]
    over the entries still to visit; [newGeofences] is the set built
    so far. *)
Fixpoint checkEach (agentId : string) (location : LocationData)
    (currentGeofences : JSSet.t) (entries : list (string * Geofence))
    (newGeofences : JSSet.t) : M (t * MemoryAdapter.t) JSSet.t :=
  match entries with
  | [] => ret newGeofences
  | (geofenceId, geofence) :: rest =>
      if GeoUtils.isPointInGeofence
           (latitude location) (longitude location) geofence
      then
        (if negb (JSSet.has geofenceId currentGeofences)
         then emitGeofenceEnterEvent agentId geofence location
         else ret tt) ;;;
        checkEach agentId location currentGeofences rest
          (JSSet.add geofenceId newGeofences)
      else
        (if JSSet.has geofenceId currentGeofences
         then emitGeofenceExitEvent agentId geofence location
         else ret tt) ;;;
        checkEach agentId location currentGeofences rest newGeofences
  end.

Definition checkGeofences (agentId : string) (location : LocationData)
  : M (t * MemoryAdapter.t) unit :=
  currentGeofences <- read (fun w => membership agentId (fst w)) ;;
  entries <- read (fun w => geofences (fst w)) ;;
  newGeofences <-
    checkEach agentId location currentGeofences entries JSSet.empty ;;
  onSelf
    (modify (fun s =>
               {| geofences := geofences s;
                  agentGeofences :=
                    JSMap.set agentId newGeofences (agentGeofences s) |})).
End WithRuntime.
End GeoEngine.

(* ================================================================= *)
(** ** [src/location-monitor.service.ts] *)

Module LocationMonitorService.

Record t : Type := {
  storage : MemoryAdapter.t;
  geoEngine : GeoEngine.t;
  watchdogEngine : WatchdogEngine.t;
  initialized : bool
}.

(** The constructor, given a fresh in-memory driver. *)
Definition new : t := {|
  storage := MemoryAdapter.new;
  geoEngine := GeoEngine.new;
  watchdogEngine := WatchdogEngine.new;
  initialized := false
|}.

Definition onStorage {A} (m : M MemoryAdapter.t A) : M t A :=
  zoom storage
    (fun s w => {| storage := s; geoEngine := geoEngine w;
                   watchdogEngine := watchdogEngine w;
                   initialized := initialized w |}) m.

Definition onGeoEngine {A} (m : M GeoEngine.t A) : M t A :=
  zoom geoEngine
    (fun g w => {| storage := storage w; geoEngine := g;
                   watchdogEngine := watchdogEngine w;
                   initialized := initialized w |}) m.

Definition onGeoEngineAndStorage {A} (m : M (GeoEngine.t * MemoryAdapter.t) A)
  : M t A :=
  zoom (fun w => (geoEngine w, storage w))
    (fun gs w => {| storage := snd gs; geoEngine := fst gs;
                    watchdogEngine := watchdogEngine w;
                    initialized := initialized w |}) m.

Definition onWatchdogEngine {A} (m : M WatchdogEngine.t A) : M t A :=
  zoom watchdogEngine
    (fun d w => {| storage := storage w; geoEngine := geoEngine w;
                   watchdogEngine := d;
                   initialized := initialized w |}) m.

Definition setInitialized (b : bool) : M t unit :=
  modify (fun w => {| storage := storage w; geoEngine := geoEngine w;
                      watchdogEngine := watchdogEngine w;
                      initialized := b |}).

Definition ensureInitialized : M t unit :=
  init <- read initialized ;;
  if negb init then throw NotInitialized else ret tt.

Section WithConfig.
Context {RT : JS.Runtime}.
Variable config : LocationMonitorConfig.

Definition initialize : M t unit :=
  init <- read initialized ;;
  if init then ret tt
  else
    onStorage MemoryAdapter.initialize ;;;
    (if wd_enabled (watchdog config)
     then onWatchdogEngine (WatchdogEngine.start (watchdog config))
     else ret tt) ;;;
    setInitialized true.

Definition shutdown : M t unit :=
  onWatchdogEngine WatchdogEngine.stop ;;;
  onStorage MemoryAdapter.disconnect ;;;
  setInitialized false.

Definition updateAgentState (agentId : string) (location : LocationData)
    (status : AgentStatus) : M t unit :=
  currentState <- onStorage (MemoryAdapter.getAgentState agentId) ;;
  zones <- onGeoEngine (GeoEngine.getAgentGeofences agentId) ;;
  now <- getNow ;;
  let newState := {|
    st_agentId := agentId;
    status := status;
    lastLocation := Some location;
    lastUpdate := now;
    lastMovement :=
      if match speed location with
         | Some v => JS.truthy v && (v >? 0)
         | None => false
         end
      then Some now
      else match currentState with
           | Some c => lastMovement c
           | None => None
           end;
    totalDistanceTraveled :=
      match currentState with
      | Some c =>
          if JS.truthy (totalDistanceTraveled c)
          then totalDistanceTraveled c else 0
      | None => 0
      end;
    activeGeofences := map gf_id zones
  |} in
  onStorage (MemoryAdapter.saveAgentState agentId newState).

Definition trackLocation (agentId : string) (latitude longitude : float)
    (timestamp : option float) (metadata : option Metadata)
  : M t LocationData :=
  ensureInitialized ;;;
  location <- onStorage (LocationEngine.trackLocation agentId
                           latitude longitude timestamp metadata) ;;
  status <- onStorage (StatusEngine.detectStatus (thresholds config)
                         agentId location) ;;
  (if gf_enabled (geofence config)
   then onGeoEngineAndStorage (GeoEngine.checkGeofences agentId location)
   else ret tt) ;;;
  updateAgentState agentId location status ;;;
  ret location.

Definition getLocation (agentId : string) : M t (option LocationData) :=
  ensureInitialized ;;;
  onStorage (LocationEngine.getCurrentLocation agentId).

Definition getStatus (agentId : string) : M t (option AgentStatus) :=
  ensureInitialized ;;;
  onStorage (StatusEngine.getStatus agentId).

Definition getAgentState (agentId : string)
  : M t (option AgentStateSnapshot) :=
  ensureInitialized ;;;
  onStorage (MemoryAdapter.getAgentState agentId).

Definition getAllAgents : M t (list string) :=
  ensureInitialized ;;;
  onStorage MemoryAdapter.getAllAgents.

Definition setStatus (agentId : string) (status : AgentStatus)
    (reason : option string) : M t unit :=
  ensureInitialized ;;;
  onStorage (StatusEngine.setStatus agentId status reason).

Definition registerGeofence (geofence : Geofence) : M t unit :=
  ensureInitialized ;;;
  onGeoEngine (GeoEngine.registerGeofence geofence).

Definition removeGeofence (geofenceId : string) : M t unit :=
  ensureInitialized ;;;
  onGeoEngine (GeoEngine.removeGeofence geofenceId).

Definition getGeofences : M t (list Geofence) :=
  ensureInitialized ;;;
  onGeoEngine GeoEngine.getGeofences.

Definition getAgentGeofences (agentId : string) : M t (list Geofence) :=
  ensureInitialized ;;;
  onGeoEngine (GeoEngine.getAgentGeofences agentId).

Definition subscribeEvents (handler : Handler) : M t unit :=
  ensureInitialized ;;;
  onStorage (MemoryAdapter.subscribeEvents handler).

Definition unsubscribeEvents : M t unit :=
  ensureInitialized ;;;
  onStorage MemoryAdapter.unsubscribeEvents.

Definition getAgentStats (agentId : string) : M t (option Stats) :=
  ensureInitialized ;;;
  onStorage (MemoryAdapter.getAgentStats agentId).

Definition clearAgentData (agentId : string) : M t unit :=
  ensureInitialized ;;;
  onStorage (MemoryAdapter.clearAgentData agentId) ;;;
  onGeoEngine (GeoEngine.clearAgentGeofences agentId).

Definition getDistanceBetweenAgents (agentId1 agentId2 : string)
  : M t (option float) :=
  ensureInitialized ;;;
  onStorage (LocationEngine.getDistanceBetweenAgents agentId1 agentId2).

Definition forceWatchdogCheck (agentId : string) : M t unit :=
  ensureInitialized ;;;
  onStorage (WatchdogEngine.forceCheck (thresholds config) agentId).

Definition forceWatchdogCheckAll : M t unit :=
  ensureInitialized ;;;
  onStorage (WatchdogEngine.forceCheckAll (thresholds config)).

(** The callback that [WatchdogEngine.start] hands to [setInterval]:
    it fires only while the timer is armed. *)
Definition watchdogTick : M t unit :=
  running <- onWatchdogEngine WatchdogEngine.isActive ;;
  if running
  then onStorage (WatchdogEngine.performCheck (thresholds config))
  else ret tt.
End WithConfig.
End LocationMonitorService.

(* ================================================================= *)
(** ** A runtime to evaluate examples with

    The general results below hold for every [JS.Runtime].  To run the
    engine on concrete inputs one runtime is fixed here: sine and cosine
    by their power series, the arc tangent by three argument halvings and
    its power series, and the remainder by truncated division.  It is
    accurate to about ten significant digits on the inputs used in this
    file; the examples only rely on coarse bounds and on the distance
    from a point to itself being 0. *)

Module SeriesRuntime.

(** [acc] plus the next [fuel] terms of an alternating series whose
    terms are [term * (-x2) / ((n+1) (n+2))], ... *)
Fixpoint series (fuel : nat) (term x2 n acc : float) : float :=
  match fuel with
  | O => acc
  | S fuel' =>
      let term' := - (term * x2) / ((n + 1) * (n + 2)) in
      series fuel' term' x2 (n + 2) (acc + term')
  end.

Definition sin (x : float) : float := series 30 x (x * x) 1 x.
Definition cos (x : float) : float := series 30 1 (x * x) 0 1.

Fixpoint atanSeries (fuel : nat) (power t2 n acc : float) : float :=
  match fuel with
  | O => acc
  | S fuel' =>
      let power' := - (power * t2) in
      atanSeries fuel' power' t2 (n + 2) (acc + power' / (n + 2))
  end.

(** [tan (a / 2)] from [tan a]. *)
Definition halve (t : float) : float :=
  t / (1 + JS.Math_sqrt (1 + t * t)).

Definition atan (t : float) : float :=
  if PrimFloat.eqb t infinity then JS.Math_PI / 2
  else if PrimFloat.eqb t neg_infinity then - (JS.Math_PI / 2)
  else
    let u := halve (halve (halve t)) in
    8 * atanSeries 30 u (u * u) 1 u.

Definition atan2 (y x : float) : float :=
  if JS.isNaN y || JS.isNaN x then JS.NaN
  else if x >? 0 then atan (y / x)
  else if x <? 0 then
    if y <? 0 then atan (y / x) - JS.Math_PI
    else atan (y / x) + JS.Math_PI
  else if y >? 0 then JS.Math_PI / 2
  else if y <? 0 then - (JS.Math_PI / 2)
  else 0.

(** Round toward zero, for magnitudes below 2^52. *)
Definition trunc (v : float) : float :=
  let two52 := 4503599627370496 in
  let a := PrimFloat.abs v in
  if a <? two52 then
    let r := (a + two52) - two52 in
    let r := if r >? a then r - 1 else r in
    if v <? 0 then - r else r
  else v.

Definition rem (x m : float) : float := x - m * trunc (x / m).

End SeriesRuntime.

#[global] Instance seriesRuntime : JS.Runtime := {|
  JS.Math_sin := SeriesRuntime.sin;
  JS.Math_cos := SeriesRuntime.cos;
  JS.Math_atan2 := SeriesRuntime.atan2;
  JS.rem := SeriesRuntime.rem
|}.

(* ================================================================= *)
(** ** Runs of the service

    A run is a list of calls of the public operations that change state,
    each made at some clock value.  The caller sees a failure as a
    rejected call and goes on.  [WatchdogTick] is the interval timer
    firing. *)

Inductive Op : Type :=
  | Initialize
  | Shutdown
  | Track (agentId : string) (latitude longitude : float)
      (timestamp : option float) (metadata : option Metadata)
  | SetStatus (agentId : string) (status : AgentStatus)
      (reason : option string)
  | RegisterGeofence (geofence : Geofence)
  | RemoveGeofence (geofenceId : string)
  | ClearAgentData (agentId : string)
  | ForceWatchdogCheck (agentId : string)
  | ForceWatchdogCheckAll
  | SubscribeEvents (handler : Handler)
  | UnsubscribeEvents
  | WatchdogTick.

Section Runs.
Context {RT : JS.Runtime}.
Variable config : LocationMonitorConfig.

Definition perform (op : Op) : M LocationMonitorService.t unit :=
  match op with
  | Initialize => LocationMonitorService.initialize config
  | Shutdown => LocationMonitorService.shutdown
  | Track agentId latitude longitude timestamp metadata =>
      LocationMonitorService.trackLocation config agentId
        latitude longitude timestamp metadata ;;; ret tt
  | SetStatus agentId status reason =>
      LocationMonitorService.setStatus agentId status reason
  | RegisterGeofence geofence =>
      LocationMonitorService.registerGeofence geofence
  | RemoveGeofence geofenceId =>
      LocationMonitorService.removeGeofence geofenceId
  | ClearAgentData agentId =>
      LocationMonitorService.clearAgentData agentId
  | ForceWatchdogCheck agentId =>
      LocationMonitorService.forceWatchdogCheck config agentId
  | ForceWatchdogCheckAll =>
      LocationMonitorService.forceWatchdogCheckAll config
  | SubscribeEvents handler =>
      LocationMonitorService.subscribeEvents handler
  | UnsubscribeEvents => LocationMonitorService.unsubscribeEvents
  | WatchdogTick => LocationMonitorService.watchdogTick config
  end.

(** The state after a run. *)
Fixpoint runFrom (w : LocationMonitorService.t) (calls : list (float * Op))
  : LocationMonitorService.t :=
  match calls with
  | [] => w
  | (now, op) :: rest => runFrom (final (perform op now w)) rest
  end.

(** What an observer of a run sees, in order: the published events,
    and the two administrative operations that edit the membership
    index once they have gone through. *)
Inductive Observation : Type :=
  | Published (d : Delivery)
  | Removed (geofenceId : string)
  | Cleared (agentId : string).

Definition administrative (r : Result unit) (op : Op) : list Observation :=
  match r, op with
  | Ok _, RemoveGeofence geofenceId => [Removed geofenceId]
  | Ok _, ClearAgentData agentId => [Cleared agentId]
  | _, _ => []
  end.

Fixpoint history (w : LocationMonitorService.t) (calls : list (float * Op))
  : list Observation :=
  match calls with
  | [] => []
  | (now, op) :: rest =>
      let o := perform op now w in
      map Published (snd o) ++ administrative (result o) op ++
      history (final o) rest
  end.

(** The events published by a run. *)
Definition eventsOf (h : list Observation) : list MonitorEvent :=
  flat_map (fun o => match o with
                     | Published d => [event d]
                     | _ => []
                     end) h.
End Runs.

(** *** Enter/exit events of one agent and one zone *)

Inductive Token : Type := TEnter | TExit | TReset.

Definition geofenceToken (agentId zoneId : string) (e : MonitorEvent)
  : list Token :=
  match payload e with
  | PGeofence p =>
      if String.eqb (ge_agentId p) agentId && String.eqb (geofenceId p) zoneId
      then match type e with
           | AGENT_ENTERED_GEOFENCE => [TEnter]
           | AGENT_EXITED_GEOFENCE => [TExit]
           | _ => []
           end
      else []
  | _ => []
  end.

Definition token (agentId zoneId : string) (o : Observation) : list Token :=
  match o with
  | Published d => geofenceToken agentId zoneId (event d)
  | Removed z => if String.eqb z zoneId then [TReset] else []
  | Cleared a => if String.eqb a agentId then [TReset] else []
  end.

Definition tokens (agentId zoneId : string) (h : list Observation)
  : list Token :=
  flat_map (token agentId zoneId) h.

(** The enter/exit events alone. *)
Definition transitions (agentId zoneId : string) (es : list MonitorEvent)
  : list Token :=
  flat_map (geofenceToken agentId zoneId) es.

(** Reading a token list from "outside" ([inside = false]) or "inside":
    an enter is only possible outside, an exit only inside; a reset
    leads outside from both.  [None] when a token is out of place. *)
Fixpoint follow (inside : bool) (ts : list Token) : option bool :=
  match ts with
  | [] => Some inside
  | TEnter :: rest => if inside then None else follow true rest
  | TExit :: rest => if inside then follow false rest else None
  | TReset :: rest => follow false rest
  end.

Definition alternates (ts : list Token) : Prop :=
  follow false ts <> None.

(* ================================================================= *)
(** ** Scenarios

    The inputs of the examples below; the coordinates are those of the
    repository's tests. *)

Module Scenario.
Section WithRuntime.
Context {RT : JS.Runtime}.

Definition t0 : float := 1700000000000.

(** [new LocationMonitorService({ storageDriver: new MemoryAdapter() })]
    followed by [initialize()], with the default configuration. *)
Definition started : LocationMonitorService.t :=
runFrom DEFAULT_CONFIG LocationMonitorService.new [(t0, Initialize)].

(** S1: the first sample of agent ["a"]. *)
Definition firstTrack :=
LocationMonitorService.trackLocation DEFAULT_CONFIG
  "a" 40.7128 (-74.0060) None None t0 started.

(** S2: a second sample, one minute later and about 1.1 km north. *)
Definition secondTrack :=
LocationMonitorService.trackLocation DEFAULT_CONFIG
  "a" 40.7228 (-74.0060) None None (t0 + 60000) (final firstTrack).

(** The great-circle distance between the samples of S1 and S2. *)
Definition segment : float :=
DistanceCalculator.calculateDistance 40.7128 (-74.0060) 40.7228 (-74.0060).

(** S4 and S5 with the default thresholds: the agent is silent for 40 s
    (more than [unreachableAfter]), the watchdog looks at it, and it then
    reports from where it was. *)
Definition silentCheck :=
LocationMonitorService.forceWatchdogCheck DEFAULT_CONFIG "a"
  (t0 + 40000) (final firstTrack).

Definition trackAfterSilence :=
LocationMonitorService.trackLocation DEFAULT_CONFIG
  "a" 40.7128 (-74.0060) None None (t0 + 40000) (final silentCheck).

(** A manual override on an agent the service has never heard of. *)
Definition setOfflineOnFresh :=
LocationMonitorService.setStatus "a" OFFLINE None t0 started.

(** The moving agent of S2 after 700 s of silence, more than
    [offlineAfter] (600 s) and than [idleAfter] (300 s). *)
Definition longSilence : float := t0 + 60000 + 700000.

Definition checkAfterLongSilence :=
StatusEngine.checkStatusByTime (thresholds DEFAULT_CONFIG) "a"
  longSilence (LocationMonitorService.storage (final secondTrack)).

(** S3's zone: a disc of 500 m around the first sample. *)
Definition hq : Geofence :=
Circular {| cg_id := "hq"; cg_name := "Headquarters";
            center := {| c_latitude := 40.7128; c_longitude := -74.0060 |};
            radius := 500; cg_metadata := None |}.

(** The agent enters [hq], its data is cleared, and it reports again
    from the same place. *)
Definition clearedRun : list (float * Op) :=
[ (t0, Initialize);
  (t0, RegisterGeofence hq);
  (t0 + 1000, Track "a" 40.7128 (-74.0060) None None);
  (t0 + 2000, ClearAgentData "a");
  (t0 + 3000, Track "a" 40.7128 (-74.0060) None None) ].

(** The agent enters [hq], the zone is removed and registered again, and
    the agent reports again from the same place. *)
Definition removedRun : list (float * Op) :=
[ (t0, Initialize);
  (t0, RegisterGeofence hq);
  (t0 + 1000, Track "a" 40.7128 (-74.0060) None None);
  (t0 + 2000, RemoveGeofence "hq");
  (t0 + 2000, RegisterGeofence hq);
  (t0 + 3000, Track "a" 40.7128 (-74.0060) None None) ].

(** A subscriber whose promise rejects on every enter event and
    resolves on every other event. *)
Definition touchy : Handler :=
{| handlerId := 1;
   settles := fun e => match type e with
                       | AGENT_ENTERED_GEOFENCE => Rejects
                       | _ => Returns
                       end |}.

(** The agent reports twice from inside [hq] while [touchy] is
    subscribed. *)
Definition rejectedRun : list (float * Op) :=
[ (t0, Initialize);
  (t0, RegisterGeofence hq);
  (t0, SubscribeEvents touchy);
  (t0 + 1000, Track "a" 40.7128 (-74.0060) None None);
  (t0 + 2000, Track "a" 40.7128 (-74.0060) None None) ].

(** The agent enters [hq]; the service is shut down and started
    again. *)
Definition restartedRun : list (float * Op) :=
[ (t0, Initialize);
  (t0, RegisterGeofence hq);
  (t0 + 1000, Track "a" 40.7128 (-74.0060) None None);
  (t0 + 2000, Shutdown);
  (t0 + 3000, Initialize) ].
End WithRuntime.

(** Two zones with the same id. *)
Definition oldZone : Geofence :=
Circular {| cg_id := "z"; cg_name := "Old";
            center := {| c_latitude := 40.7128; c_longitude := -74.0060 |};
            radius := 100; cg_metadata := None |}.

Definition newZone : Geofence :=
Circular {| cg_id := "z"; cg_name := "New";
            center := {| c_latitude := 40.7128; c_longitude := -74.0060 |};
            radius := 500; cg_metadata := None |}.

Definition withOldZone : LocationMonitorService.t :=
final (LocationMonitorService.registerGeofence oldZone t0 started).

(** A disc whose center is not a number. *)
Definition nanZone : Geofence :=
Circular {| cg_id := "z"; cg_name := "Z";
            center := {| c_latitude := JS.NaN; c_longitude := JS.NaN |};
            radius := 100; cg_metadata := None |}.
End Scenario.

(** The stale snapshot of the C4 example: an [ACTIVE] agent last heard of
    (and last seen moving) at time 1000, looked at 1000 s later. *)
Module Stale.
Definition snapshot : AgentStateSnapshot :=
{| st_agentId := "a"; status := ACTIVE; lastLocation := None;
   lastUpdate := 1000; lastMovement := Some 1000;
   totalDistanceTraveled := 0; activeGeofences := [] |}.

Definition storage : MemoryAdapter.t :=
MemoryAdapter.with_states (JSMap.set "a" snapshot) MemoryAdapter.new.

Definition now : float := 1001000.
End Stale.

(* ================================================================= *)
(** ** Vocabulary of the proofs *)

(** A program all of whose published events satisfy [P]. *)
Definition emitsOnly {S A} (P : Delivery -> Prop) (m : M S A) : Prop :=
forall now s, Forall P (snd (m now s)).

(** A program that leaves one view of its state as it found it. *)
Definition keeps {S X A} (view : S -> X) (m : M S A) : Prop :=
forall now s, view (final (m now s)) = view s.

(** Subscribers none of whose promises rejects, whatever the event. *)
Definition calm (handlers : list Handler) : Prop :=
forall e, existsb (MemoryAdapter.rejects e) handlers = false.

(** The outcome of [publishEvent] for subscribers [handlers]. *)
Definition settled (handlers : list Handler) (e : MonitorEvent)
  : Result unit :=
if existsb (MemoryAdapter.rejects e) handlers
then Throw SubscriberRejected else Ok tt.

(** An event that is not a geofence event. *)
Definition plain (d : Delivery) : Prop :=
match payload (event d) with
| PGeofence _ => False
| _ => True
end.

(** A [status.changed] event that changes nothing. *)
Definition noopChange (e : MonitorEvent) : bool :=
match payload e with
| PStatusChange p => AgentStatus_eqb (oldStatus p) (newStatus p)
| _ => false
end.

Definition real (d : Delivery) : Prop := noopChange (event d) = false.

(** A program of the service that leaves the geofence engine alone and
    publishes no geofence event. *)
Definition geoStable {A} (m : M LocationMonitorService.t A) : Prop :=
keeps LocationMonitorService.geoEngine m /\ emitsOnly plain m.

(** The statistics as the service holds them. *)
Definition statsOf (w : LocationMonitorService.t) : JSMap.t Stats :=
MemoryAdapter.stats (LocationMonitorService.storage w).

(** The statistics entry that [saveLocation] writes for a sample with
    timestamp [ts]. *)
Definition bumped (agentId : string) (ts : float) (m : JSMap.t Stats)
  : Stats :=
{| totalLocations :=
     S (match JSMap.get agentId m with
        | Some st => totalLocations st
        | None => 0%nat
        end);
   totalDistance :=
     match JSMap.get agentId m with
     | Some st => totalDistance st
     | None => 0
     end;
   stats_lastUpdate := ts |}.

(** How one call changes the number of samples that the storage holds
    statistics for: a [track] that stores its sample adds one, also when
    a subscriber's rejection makes it fail afterwards; erasing the
    agent's data or disconnecting the driver starts again from zero. *)
Definition tallyStep (agent : string) (n : nat) (op : Op) (r : Result unit)
  : nat :=
match op, r with
| Track a _ _ _ _, Ok _ | Track a _ _ _ _, Throw SubscriberRejected =>
    if String.eqb a agent then S n else n
| ClearAgentData a, Ok _ => if String.eqb a agent then 0%nat else n
| Shutdown, _ => 0%nat
| _, _ => n
end.

Section PairVocabulary.
Context {RT : JS.Runtime}.
Variables (agent zone : string).

(** What the geofence engine maintains, seen from one agent and one
    zone: registry entries are filed under their own id, no key occurs
    twice, [inside] tells whether the zone is in the agent's membership
    set, and a zone the agent is in is registered. *)
Definition GInv (g : GeoEngine.t) (inside : bool) : Prop :=
(forall k z, In (k, z) (GeoEngine.geofences g) -> gf_id z = k) /\
NoDup (JSMap.keys (GeoEngine.geofences g)) /\
NoDup (JSMap.keys (GeoEngine.agentGeofences g)) /\
JSSet.has zone (GeoEngine.membership agent g) = inside /\
(inside = true -> JSMap.has zone (GeoEngine.geofences g) = true).

Definition contains (loc : LocationData) (g : Geofence) : bool :=
GeoUtils.isPointInGeofence (latitude loc) (longitude loc) g.

(** The token that one pass of [checkGeofences] for agent [a] publishes
    for the pair. *)
Definition passToken (a : string) (loc : LocationData) (current : JSSet.t)
    (entries : JSMap.t Geofence) : list Token :=
if String.eqb a agent then
  match JSMap.get zone entries with
  | Some gz =>
      if contains loc gz
      then if JSSet.has zone current then [] else [TEnter]
      else if JSSet.has zone current then [TExit] else []
  | None => []
  end
else [].

(** A program of the service that, when it completes, has published
    geofence events for the pair that follow the membership of the agent
    in the zone, and that, when it fails, has left the geofence engine
    as it was. *)
Definition walks {A} (m : M LocationMonitorService.t A) : Prop :=
forall now w inside,
  GInv (LocationMonitorService.geoEngine w) inside ->
  match result (m now w) with
  | Ok _ =>
      exists inside',
        GInv (LocationMonitorService.geoEngine (final (m now w))) inside' /\
        follow inside (transitions agent zone (published (m now w))) =
          Some inside'
  | Throw _ =>
      LocationMonitorService.geoEngine (final (m now w)) =
      LocationMonitorService.geoEngine w
  end.

(** A call that failed after it had published an enter or exit event of
    the pair: the event is out, the membership is not recorded. *)
Definition aborted (o : Result unit * LocationMonitorService.t * list Delivery)
  : bool :=
match result o, transitions agent zone (published o) with
| Throw _, _ :: _ => true
| _, _ => false
end.

Variable config : LocationMonitorConfig.

(** A run without such a call. *)
Fixpoint abortFree (w : LocationMonitorService.t) (calls : list (float * Op))
  : bool :=
match calls with
| [] => true
| (now, op) :: rest =>
    let o := perform config op now w in
    negb (aborted o) && abortFree (final o) rest
end.

(** The same for one call of a run, with the administrative
    observations counted in. *)
Definition stepOK (op : Op) : Prop :=
forall now w inside,
  GInv (LocationMonitorService.geoEngine w) inside ->
  aborted (perform config op now w) = false ->
  exists inside',
    GInv (LocationMonitorService.geoEngine (final (perform config op now w)))
      inside' /\
    follow inside
      (tokens agent zone
         (map Published (snd (perform config op now w)) ++
          administrative (result (perform config op now w)) op)) =
      Some inside'.

(** The number of samples stored for the agent since its data was last
    erased, over a run that starts with [n] of them. *)
Fixpoint acceptedSinceErase (w : LocationMonitorService.t)
    (calls : list (float * Op)) (n : nat) : nat :=
match calls with
| [] => n
| (now, op) :: rest =>
    let o := perform config op now w in
    acceptedSinceErase (final o) rest (tallyStep agent n op (result o))
end.

(** The statistics of the agent, given the number of its samples. *)
Definition statsAgree (w : LocationMonitorService.t) (n : nat) : Prop :=
NoDup (JSMap.keys (statsOf w)) /\
option_map (fun st => (totalLocations st, totalDistance st))
  (JSMap.get agent (statsOf w)) =
match n with
| O => None
| S _ => Some (n, 0)
end.
End PairVocabulary.

(** A history in which the zone is never removed and the agent's data
    never cleared. *)
Definition resetFree (agent zone : string) (h : list Observation) : Prop :=
Forall (fun o => match o with
                 | Published _ => True
                 | Removed z => String.eqb z zone = false
                 | Cleared a => String.eqb a agent = false
                 end) h.

(** The inputs that the spec calls invalid coordinates. *)
Definition invalidCoordinate (latitude longitude : float) : Prop :=
(latitude <? -90) = true \/ (latitude >? 90) = true \/
(longitude <? -180) = true \/ (longitude >? 180) = true \/
JS.isNaN latitude = true \/ JS.isNaN longitude = true.

(** The condition of the third check of [checkStatusByTime]. *)
Definition idleCheckFires (th : ThresholdConfig) (now : float)
    (state : AgentStateSnapshot) : bool :=
match lastMovement state with
| Some lm => JS.truthy lm && TimeUtils.isOlderThan now lm (idleAfter th)
| None => false
end &&
(AgentStatus_eqb (status state) ACTIVE ||
 AgentStatus_eqb (status state) MOVING).

(** *** Vocabulary of the further properties *)

(** A program that maintains a property of its state. *)
Definition preserves {S A} (I : S -> Prop) (m : M S A) : Prop :=
forall now s, I s -> I (final (m now s)).

(** A program that publishes nothing. *)
Definition silent {S A} (m : M S A) : Prop :=
forall now s, snd (m now s) = [].

(** A program that leaves the list of subscribers alone and hands every
    event it publishes to exactly these subscribers. *)
Definition deliversTo {S A} (handlers : S -> list Handler) (m : M S A)
  : Prop :=
forall now s,
  handlers (final (m now s)) = handlers s /\
  Forall (fun d => receivers d = handlers s) (snd (m now s)).

(** The subscribers, seen from the geofence engine with its driver and
    from the service. *)
Definition pairHandlers (w : GeoEngine.t * MemoryAdapter.t)
  : list Handler :=
MemoryAdapter.eventHandlers (snd w).

Definition serviceHandlers (w : LocationMonitorService.t) : list Handler :=
MemoryAdapter.eventHandlers (LocationMonitorService.storage w).

(** An event that is not a [location.received]. *)
Definition notLocation (d : Delivery) : Prop :=
type (event d) <> LOCATION_RECEIVED.

(** No key occurs twice in a map of the driver. *)
Definition StoreInv (s : MemoryAdapter.t) : Prop :=
NoDup (JSMap.keys (MemoryAdapter.locations s)) /\
NoDup (JSMap.keys (MemoryAdapter.statuses s)) /\
NoDup (JSMap.keys (MemoryAdapter.states s)) /\
NoDup (JSMap.keys (MemoryAdapter.stats s)).

(** Registry entries are filed under their own id, and no key occurs
    twice in the registry or in the membership index. *)
Definition RegistryInv (g : GeoEngine.t) : Prop :=
(forall k z, In (k, z) (GeoEngine.geofences g) -> gf_id z = k) /\
NoDup (JSMap.keys (GeoEngine.geofences g)) /\
NoDup (JSMap.keys (GeoEngine.agentGeofences g)).

Definition PairInv (w : GeoEngine.t * MemoryAdapter.t) : Prop :=
RegistryInv (fst w) /\ StoreInv (snd w).

Definition WellFormed (w : LocationMonitorService.t) : Prop :=
StoreInv (LocationMonitorService.storage w) /\
RegistryInv (LocationMonitorService.geoEngine w).

Section GeofencePass.
Context {RT : JS.Runtime}.

(** What [emitGeofenceEnterEvent] and [emitGeofenceExitEvent] hand to
    the driver. *)
Definition geofenceDelivery (ty : EventType) (dir : GeofenceDirection)
    (agentId : string) (geofence : Geofence) (location : LocationData)
    (now : float) (handlers : list Handler) : Delivery :=
{| event :=
     {| type := ty;
        payload := PGeofence {| ge_agentId := agentId;
                                geofenceId := gf_id geofence;
                                geofenceName := gf_name geofence;
                                ge_location := location;
                                ge_timestamp := now;
                                eventType := dir |};
        ev_timestamp := now |};
   receivers := handlers |}.

(** What one turn of the loop of [checkGeofences] publishes. *)
Definition turnEvents (agentId : string) (location : LocationData)
    (current : JSSet.t) (now : float) (handlers : list Handler)
    (entry : string * Geofence) : list Delivery :=
if contains location (snd entry)
then if JSSet.has (fst entry) current then []
     else [geofenceDelivery AGENT_ENTERED_GEOFENCE enter agentId (snd entry)
             location now handlers]
else if JSSet.has (fst entry) current
     then [geofenceDelivery AGENT_EXITED_GEOFENCE exit agentId (snd entry)
             location now handlers]
     else [].

(** The set that the loop builds. *)
Definition zonesAt (location : LocationData) (entries : JSMap.t Geofence)
    (acc : JSSet.t) : JSSet.t :=
fold_left (fun acc entry =>
             if contains location (snd entry)
             then JSSet.add (fst entry) acc else acc)
          entries acc.

(** The engine after [checkGeofences]. *)
Definition afterCheck (agentId : string) (location : LocationData)
    (g : GeoEngine.t) : GeoEngine.t :=
{| GeoEngine.geofences := GeoEngine.geofences g;
   GeoEngine.agentGeofences :=
     JSMap.set agentId (zonesAt location (GeoEngine.geofences g) JSSet.empty)
       (GeoEngine.agentGeofences g) |}.
End GeofencePass.

(** The timestamp that [trackLocation] gives a sample. *)
Definition stampOf (now : float) (timestamp : option float) : float :=
match timestamp with
| Some ts => if TimeUtils.isValidTimestamp now ts then ts else now
| None => now
end.

(** The [location.received] event of a sample. *)
Definition locationDelivery (location : LocationData)
    (distanceTraveled now : float) (handlers : list Handler) : Delivery :=
{| event :=
     {| type := LOCATION_RECEIVED;
        payload := PLocationReceived
                     {| lr_agentId := loc_agentId location;
                        lr_location := location;
                        distanceTraveled := distanceTraveled;
                        lr_speed := speed location |};
        ev_timestamp := now |};
   receivers := handlers |}.

(** The snapshot that [updateAgentState] writes. *)
Definition snapshotOf (agentId : string) (location : LocationData)
    (status : AgentStatus) (now : float)
    (currentState : option AgentStateSnapshot) (zones : list Geofence)
  : AgentStateSnapshot :=
{| st_agentId := agentId;
   status := status;
   lastLocation := Some location;
   lastUpdate := now;
   lastMovement :=
     if match speed location with
        | Some v => JS.truthy v && (v >? 0)
        | None => false
        end
     then Some now
     else match currentState with
          | Some c => lastMovement c
          | None => None
          end;
   totalDistanceTraveled :=
     match currentState with
     | Some c =>
         if JS.truthy (totalDistanceTraveled c)
         then totalDistanceTraveled c else 0
     | None => 0
     end;
   activeGeofences := map gf_id zones |}.

(** The registered zones that an agent is in. *)
Definition zonesOf (agentId : string) (g : GeoEngine.t) : list Geofence :=
flat_map (fun id => match JSMap.get id (GeoEngine.geofences g) with
                    | Some z => [z]
                    | None => []
                    end)
         (GeoEngine.membership agentId g).

(** The calls that need a started service. *)
Definition guarded (op : Op) : bool :=
match op with
| Initialize | Shutdown | WatchdogTick => false
| _ => true
end.

(** The snapshots as the service holds them. *)
Definition snapshots (w : LocationMonitorService.t)
  : JSMap.t AgentStateSnapshot :=
MemoryAdapter.states (LocationMonitorService.storage w).

(** Every snapshot records a travelled distance of 0. *)
Definition NoDistance (w : LocationMonitorService.t) : Prop :=
Forall (fun entry => totalDistanceTraveled (snd entry) = 0) (snapshots w).

(** The stored samples and statistics, in the driver and in the
    service. *)
Definition storageLedger (s : MemoryAdapter.t)
  : JSMap.t LocationData * JSMap.t Stats :=
(MemoryAdapter.locations s, MemoryAdapter.stats s).

Definition ledger (w : LocationMonitorService.t)
  : JSMap.t LocationData * JSMap.t Stats :=
storageLedger (LocationMonitorService.storage w).

(** The statistics of an agent are those of its stored sample: both are
    present or both absent, and [lastUpdate] is the sample's
    timestamp. *)
Definition InStep (w : LocationMonitorService.t) : Prop :=
forall a,
  option_map stats_lastUpdate (JSMap.get a (snd (ledger w))) =
  option_map timestamp (JSMap.get a (fst (ledger w))).

(** *** Listening to the events *)

Section Mirror.
Variable V : Type.

(** [told a e]: the value that event [e] announces for agent [a], if it
    announces one. *)
Variable told : string -> MonitorEvent -> option V.

(** What a listener who keeps the last announced value holds after a
    list of events. *)
Definition replay (agent : string) (out : list Delivery) (held : option V)
  : option V :=
fold_left (fun held d =>
             match told agent (event d) with
             | Some v => Some v
             | None => held
             end)
          out held.

(** A program after which the stored value of every agent is what a
    listener to its events holds. *)
Definition mirrors {S A} (stored : string -> S -> option V) (m : M S A)
  : Prop :=
forall now s agent,
  stored agent (final (m now s)) =
  replay agent (snd (m now s)) (stored agent s).

(** An event that announces nothing. *)
Definition mute (d : Delivery) : Prop :=
forall agent, told agent (event d) = None.

Section Runs.
Context {RT : JS.Runtime}.
Variable config : LocationMonitorConfig.

(** The listener over one call: erasing the data of the agent, or
    shutting the service down, makes it forget. *)
Definition listenStep (agent : string) (held : option V) (op : Op)
    (o : Result unit * LocationMonitorService.t * list Delivery)
  : option V :=
match op, result o with
| Shutdown, _ => None
| ClearAgentData a, Ok _ =>
    if String.eqb a agent then None else replay agent (snd o) held
| _, _ => replay agent (snd o) held
end.

Fixpoint listen (agent : string) (w : LocationMonitorService.t)
    (calls : list (float * Op)) (held : option V) : option V :=
match calls with
| [] => held
| (now, op) :: rest =>
    let o := perform config op now w in
    listen agent (final o) rest (listenStep agent held op o)
end.
End Runs.
End Mirror.

(** What a [status.changed] event announces. *)
Definition toldStatus (agent : string) (e : MonitorEvent)
  : option AgentStatus :=
match type e, payload e with
| STATUS_CHANGED, PStatusChange p =>
    if String.eqb (sc_agentId p) agent then Some (newStatus p) else None
| _, _ => None
end.

(** What a [location.received] event announces. *)
Definition toldLocation (agent : string) (e : MonitorEvent)
  : option LocationData :=
match type e, payload e with
| LOCATION_RECEIVED, PLocationReceived p =>
    if String.eqb (lr_agentId p) agent then Some (lr_location p) else None
| _, _ => None
end.

Definition storedStatus (agent : string) (s : MemoryAdapter.t)
  : option AgentStatus :=
option_map se_status (JSMap.get agent (MemoryAdapter.statuses s)).

Definition storedLocation (agent : string) (s : MemoryAdapter.t)
  : option LocationData :=
JSMap.get agent (MemoryAdapter.locations s).

(** Inputs of the examples that accompany the further properties. *)
Module Inputs.
Section WithRuntime.
Context {RT : JS.Runtime}.

(** A started service that has heard once of agent ["a"]. *)
Definition oneSample : list (float * Op) :=
[ (Scenario.t0, Initialize);
  (Scenario.t0, Track "a" 40.7128 (-74.0060) None None) ].

(** A started service with the zone [hq] registered. *)
Definition withHq : list (float * Op) :=
[ (Scenario.t0, Initialize);
  (Scenario.t0, RegisterGeofence Scenario.hq) ].
End WithRuntime.

(** A subscriber that returns on every event. *)
Definition listener : Handler :=
{| handlerId := 2; settles := fun _ => Returns |}.

(** A started service that [listener] has subscribed to. *)
Definition listened : LocationMonitorService.t :=
runFrom DEFAULT_CONFIG LocationMonitorService.new
  [ (Scenario.t0, Initialize); (Scenario.t0, SubscribeEvents listener) ].

(** A triangle north of the equator. *)
Definition triangle : PolygonGeofence :=
{| pg_id := "t"; pg_name := "T";
   coordinates := [ {| c_latitude := 1; c_longitude := 1 |};
                    {| c_latitude := 2; c_longitude := 3 |};
                    {| c_latitude := 3; c_longitude := 1 |} ];
   pg_metadata := None |}.

(** The default configuration with geofencing switched off. *)
Definition noGeofencing : LocationMonitorConfig :=
{| thresholds := thresholds DEFAULT_CONFIG;
   watchdog := watchdog DEFAULT_CONFIG;
   geofence := {| gf_enabled := false |} |}.

(** A driver that holds the snapshot of an agent that went OFFLINE at
    time 1000. *)
Definition offlineSnapshot : AgentStateSnapshot :=
{| st_agentId := "a"; status := OFFLINE; lastLocation := None;
   lastUpdate := 1000; lastMovement := Some 1000;
   totalDistanceTraveled := 0; activeGeofences := [] |}.

Definition offlineStorage : MemoryAdapter.t :=
MemoryAdapter.with_states (JSMap.set "a" offlineSnapshot) MemoryAdapter.new.
End Inputs.

(* ================================================================= *)
(** * Results *)

(** ** Maps and sets *)

Section MapFacts.
Variable V : Type.
Implicit Types (m : JSMap.t V) (k : string) (v : V).

Lemma get_set_same k v m : JSMap.get k (JSMap.set k v m) = Some v.
Proof.
  induction m as [|[k' v'] m IH]; simpl.
  - now rewrite String.eqb_refl.
  - destruct (String.eqb k k') eqn:E; simpl; rewrite E; auto.
Qed.

Lemma get_set_other k k' v m :
  String.eqb k k' = false -> JSMap.get k (JSMap.set k' v m) = JSMap.get k m.
Proof.
  intros N. induction m as [|[k0 v0] m IH]; simpl.
  - now rewrite N.
  - destruct (String.eqb k' k0) eqn:E; simpl.
    + apply String.eqb_eq in E. subst k0. now rewrite N.
    + now rewrite IH.
Qed.

Lemma get_None_keys k m : JSMap.get k m = None <-> ~ In k (JSMap.keys m).
Proof.
  induction m as [|[k' v'] m IH]; simpl.
  - tauto.
  - destruct (String.eqb k k') eqn:E.
    + apply String.eqb_eq in E. subst. split; [discriminate | tauto].
    + apply String.eqb_neq in E. rewrite IH. intuition congruence.
Qed.

Lemma get_Some_In k v m : JSMap.get k m = Some v -> In (k, v) m.
Proof.
  induction m as [|[k' v'] m IH]; simpl; [discriminate|].
  destruct (String.eqb k k') eqn:E.
  - apply String.eqb_eq in E. intros [= ->]. subst. now left.
  - auto.
Qed.

Lemma delete_set_fresh k v m :
  JSMap.get k m = None -> JSMap.delete k (JSMap.set k v m) = m.
Proof.
  induction m as [|[k' v'] m IH]; simpl.
  - now rewrite String.eqb_refl.
  - destruct (String.eqb k k') eqn:E; [discriminate|].
    intros H. simpl. rewrite E. now rewrite IH.
Qed.

Lemma delete_absent k m : JSMap.get k m = None -> JSMap.delete k m = m.
Proof.
  induction m as [|[k' v'] m IH]; simpl; auto.
  destruct (String.eqb k k'); [discriminate|].
  intros H. now rewrite IH.
Qed.

Lemma get_delete_other k k' m :
  String.eqb k k' = false -> JSMap.get k (JSMap.delete k' m) = JSMap.get k m.
Proof.
  intros N. induction m as [|[k0 v0] m IH]; simpl; auto.
  destruct (String.eqb k' k0) eqn:E; simpl.
  - apply String.eqb_eq in E. subst k0. now rewrite N.
  - now rewrite IH.
Qed.

Lemma get_delete_same k m :
  NoDup (JSMap.keys m) -> JSMap.get k (JSMap.delete k m) = None.
Proof.
  induction m as [|[k' v'] m IH]; simpl; auto.
  intros ND. inversion ND as [|? ? NI ND']; subst.
  destruct (String.eqb k k') eqn:E; simpl.
  - apply String.eqb_eq in E. subst k'. now apply get_None_keys.
  - rewrite E. auto.
Qed.

Lemma keys_set k v m :
  JSMap.keys (JSMap.set k v m) =
  if JSMap.has k m then JSMap.keys m else JSMap.keys m ++ [k].
Proof.
  unfold JSMap.has. induction m as [|[k' v'] m IH]; simpl; auto.
  destruct (String.eqb k k') eqn:E; simpl; auto.
  rewrite IH. now destruct (JSMap.get k m).
Qed.

Lemma NoDup_keys_set k v m :
  NoDup (JSMap.keys m) -> NoDup (JSMap.keys (JSMap.set k v m)).
Proof.
  intros ND. rewrite keys_set. unfold JSMap.has.
  destruct (JSMap.get k m) eqn:G; auto.
  apply get_None_keys in G.
  apply NoDup_app.
  - assumption.
  - constructor; [intros [] | constructor].
  - intros x Hx [<-|[]]. contradiction.
Qed.

Lemma In_keys_delete x k m :
  In x (JSMap.keys (JSMap.delete k m)) -> In x (JSMap.keys m).
Proof.
  induction m as [|[k' v'] m IH]; simpl; auto.
  destruct (String.eqb k k'); simpl; tauto.
Qed.

Lemma NoDup_keys_delete k m :
  NoDup (JSMap.keys m) -> NoDup (JSMap.keys (JSMap.delete k m)).
Proof.
  induction m as [|[k' v'] m IH]; simpl; auto.
  intros ND. inversion ND as [|? ? NI ND']; subst.
  destruct (String.eqb k k'); simpl; auto.
  constructor; auto. intros H. apply NI. eapply In_keys_delete; eauto.
Qed.

Lemma In_set x k v m :
  In x (JSMap.set k v m) -> x = (k, v) \/ In x m.
Proof.
  induction m as [|[k' v'] m IH]; simpl.
  - intros [<-|[]]; auto.
  - destruct (String.eqb k k') eqn:E; simpl.
    + apply String.eqb_eq in E. subst. intros [<-|H]; auto.
    + intros [<-|H]; auto. destruct (IH H); auto.
Qed.

Lemma In_delete x k m : In x (JSMap.delete k m) -> In x m.
Proof.
  induction m as [|[k' v'] m IH]; simpl; auto.
  destruct (String.eqb k k'); simpl; tauto.
Qed.

Variable f : V -> V.

Lemma get_map_values k m :
  JSMap.get k (map (fun e => (fst e, f (snd e))) m) =
  option_map f (JSMap.get k m).
Proof.
  induction m as [|[k' v'] m IH]; simpl; auto.
  destruct (String.eqb k k'); auto.
Qed.

Lemma keys_map_values m :
  JSMap.keys (map (fun e => (fst e, f (snd e))) m) = JSMap.keys m.
Proof.
  unfold JSMap.keys. rewrite map_map. reflexivity.
Qed.
End MapFacts.

Lemma has_add z k s : JSSet.has z (JSSet.add k s) = JSSet.has z s || String.eqb z k.
Proof.
  unfold JSSet.add. destruct (JSSet.has k s) eqn:H.
  - destruct (String.eqb z k) eqn:E; [|now rewrite orb_false_r].
    apply String.eqb_eq in E. subst. now rewrite H.
  - unfold JSSet.has. rewrite existsb_app. simpl. now rewrite orb_false_r.
Qed.

Lemma has_delete z k s :
  JSSet.has z (JSSet.delete k s) = JSSet.has z s && negb (String.eqb k z).
Proof.
  unfold JSSet.has, JSSet.delete. induction s as [|x s IH]; simpl; auto.
  destruct (String.eqb k x) eqn:E; simpl.
  - apply String.eqb_eq in E. subst x. rewrite IH.
    rewrite (String.eqb_sym z k).
    destruct (String.eqb k z); simpl; auto. now rewrite andb_false_r.
  - rewrite IH. destruct (String.eqb z x) eqn:E2; simpl; auto.
    apply String.eqb_eq in E2. subst x. now rewrite E.
Qed.

Lemma AgentStatus_eqb_eq a b : AgentStatus_eqb a b = true <-> a = b.
Proof. destruct a, b; simpl; split; congruence. Qed.

Lemma AgentStatus_eqb_neq a b : AgentStatus_eqb a b = false <-> a <> b.
Proof. destruct a, b; simpl; split; congruence. Qed.

(** ** Comparisons of floats *)

Lemma SFcompare_Lt_swap x y :
  SFcompare x y = Some Lt -> SFcompare y x = Some Gt.
Proof.
  destruct x as [sx|sx| |sx mx ex], y as [sy|sy| |sy my ey]; simpl;
    try destruct sx; try destruct sy; simpl; try congruence.
  all: intros H; injection H as H.
  all: rewrite (Z.compare_antisym ex ey).
  all: destruct (ex ?= ey)%Z; simpl in *; try congruence.
  all: change (PosDef.Pos.compare_cont Eq) with (Pos.compare_cont Eq) in *.
  all: rewrite (ZC4 my mx).
  all: destruct (Pos.compare_cont Eq mx my); simpl in *; congruence.
Qed.

(** [x < y] excludes [y <= x], also when a NaN is involved. *)
Lemma ltb_not_leb x y : (x <? y) = true -> (y <=? x) = false.
Proof.
  rewrite ltb_spec, leb_spec. unfold SFltb, SFleb.
  destruct (SFcompare (Prim2SF x) (Prim2SF y)) as [[| |]|] eqn:E;
    try discriminate.
  intros _. now rewrite (SFcompare_Lt_swap _ _ E).
Qed.

Lemma invalidCoordinate_rejected lat lon :
  invalidCoordinate lat lon ->
  DistanceCalculator.isValidCoordinate lat lon = false.
Proof.
  unfold invalidCoordinate, DistanceCalculator.isValidCoordinate, JS.gt, JS.ge.
  intros [H|[H|[H|[H|[H|H]]]]];
    try (apply ltb_not_leb in H); rewrite H; simpl;
    rewrite ?andb_false_r; reflexivity.
Qed.

Lemma SFcompare_swap x y :
  SFcompare y x = option_map CompOpp (SFcompare x y).
Proof.
  destruct x as [sx|sx| |sx mx ex], y as [sy|sy| |sy my ey]; simpl;
    try destruct sx; try destruct sy; simpl; try reflexivity.
  all: rewrite (Z.compare_antisym ex ey).
  all: destruct (ex ?= ey)%Z; simpl; try reflexivity.
  all: change (PosDef.Pos.compare_cont Eq) with (Pos.compare_cont Eq).
  all: change (Pos.compare_cont Eq my mx) with (Pos.compare my mx).
  all: change (Pos.compare_cont Eq mx my) with (Pos.compare mx my).
  all: rewrite (Pos.compare_antisym mx my).
  all: destruct (Pos.compare mx my); reflexivity.
Qed.

Lemma SFcompare_refl x : x <> S754_nan -> SFcompare x x = Some Eq.
Proof.
  destruct x as [s|s| |s m e]; simpl; try congruence; intros _.
  - destruct s; reflexivity.
  - destruct s; rewrite Z.compare_refl;
      change (PosDef.Pos.compare_cont Eq) with (Pos.compare_cont Eq);
      change (Pos.compare_cont Eq m m) with (Pos.compare m m);
      rewrite Pos.compare_refl; reflexivity.
Qed.

Lemma SFcompare_None x y :
  SFcompare x y = None <-> x = S754_nan \/ y = S754_nan.
Proof.
  destruct x as [sx|sx| |sx mx ex], y as [sy|sy| |sy my ey]; simpl;
    try destruct sx; try destruct sy; simpl;
    try (split; [discriminate | intros [H|H]; discriminate]);
    try (split; [auto | reflexivity]).
  all: split; [|intros [H|H]; discriminate].
  all: destruct (ex ?= ey)%Z; try discriminate.
  all: destruct (PosDef.Pos.compare_cont Eq mx my); discriminate.
Qed.

Lemma isNaN_spec x : JS.isNaN x = true <-> Prim2SF x = S754_nan.
Proof.
  unfold JS.isNaN, is_nan. rewrite FloatAxioms.eqb_spec. unfold SFeqb. split.
  - intros H. destruct (Prim2SF x) as [s|s| |s m e] eqn:E; auto;
      rewrite SFcompare_refl in H by discriminate; discriminate.
  - intros ->. reflexivity.
Qed.

Lemma isNaN_false x : JS.isNaN x = false <-> Prim2SF x <> S754_nan.
Proof.
  rewrite <- isNaN_spec. destruct (JS.isNaN x); split; congruence.
Qed.

(** Comparisons with a NaN on either side are false. *)
Lemma ltb_nan x y : JS.isNaN x = true \/ JS.isNaN y = true -> (x <? y) = false.
Proof.
  rewrite !isNaN_spec, ltb_spec. intros H. unfold SFltb.
  now rewrite (proj2 (SFcompare_None _ _) H).
Qed.

Lemma leb_nan x y : JS.isNaN x = true \/ JS.isNaN y = true -> (x <=? y) = false.
Proof.
  rewrite !isNaN_spec, leb_spec. intros H. unfold SFleb.
  now rewrite (proj2 (SFcompare_None _ _) H).
Qed.

(** Without NaN, [x < y] is the negation of [y <= x]. *)
Lemma ltb_negb_leb x y :
  JS.isNaN x = false -> JS.isNaN y = false -> (x <? y) = negb (y <=? x).
Proof.
  rewrite !isNaN_false, ltb_spec, leb_spec. intros Hx Hy.
  unfold SFltb, SFleb. rewrite (SFcompare_swap (Prim2SF x) (Prim2SF y)).
  destruct (SFcompare (Prim2SF x) (Prim2SF y)) as [[| |]|] eqn:E;
    try reflexivity.
  apply SFcompare_None in E. tauto.
Qed.

Lemma ltb_true_not_nan x y :
  (x <? y) = true -> JS.isNaN x = false /\ JS.isNaN y = false.
Proof.
  intros H. destruct (JS.isNaN x) eqn:Ex.
  - rewrite ltb_nan in H by auto. discriminate.
  - destruct (JS.isNaN y) eqn:Ey; auto.
    rewrite ltb_nan in H by auto. discriminate.
Qed.

Lemma leb_true_not_nan x y :
  (x <=? y) = true -> JS.isNaN x = false /\ JS.isNaN y = false.
Proof.
  intros H. destruct (JS.isNaN x) eqn:Ex.
  - rewrite leb_nan in H by auto. discriminate.
  - destruct (JS.isNaN y) eqn:Ey; auto.
    rewrite leb_nan in H by auto. discriminate.
Qed.

(** ** Running programs *)

Lemma bind_run S A B (m : M S A) (f : A -> M S B) now s a s1 out1 r s2 out2
    out :
  m now s = (Ok a, s1, out1) ->
  f a now s1 = (r, s2, out2) ->
  out = out1 ++ out2 ->
  bind m f now s = (r, s2, out).
Proof. intros H1 H2 ->. unfold bind. now rewrite H1, H2. Qed.

Lemma onStorage_run A (m : M MemoryAdapter.t A) now w r s' out :
  m now (LocationMonitorService.storage w) = (r, s', out) ->
  LocationMonitorService.onStorage m now w =
    (r,
     {| LocationMonitorService.storage := s';
        LocationMonitorService.geoEngine := LocationMonitorService.geoEngine w;
        LocationMonitorService.watchdogEngine :=
          LocationMonitorService.watchdogEngine w;
        LocationMonitorService.initialized :=
          LocationMonitorService.initialized w |},
     out).
Proof.
  intros E. unfold LocationMonitorService.onStorage, zoom. now rewrite E.
Qed.

Lemma publishEvent_run e now s :
  MemoryAdapter.publishEvent e now s =
    (settled (MemoryAdapter.eventHandlers s) e, s,
     [{| event := e; receivers := MemoryAdapter.eventHandlers s |}]).
Proof.
  unfold MemoryAdapter.publishEvent, settled, bind, read, emit.
  destruct (existsb _ _); reflexivity.
Qed.

Lemma settled_calm handlers e : calm handlers -> settled handlers e = Ok tt.
Proof. intros H. unfold settled. now rewrite H. Qed.

(** ** Programs whose events all satisfy a property *)

Section EmitsOnly.
Context {S : Type}.
Variable P : Delivery -> Prop.

Lemma emitsOnly_ret A (a : A) : emitsOnly P (@ret S A a).
Proof. intros now s. constructor. Qed.

Lemma emitsOnly_throw A e : emitsOnly P (@throw S A e).
Proof. intros now s. constructor. Qed.

Lemma emitsOnly_getNow : emitsOnly P (@getNow S).
Proof. intros now s. constructor. Qed.

Lemma emitsOnly_read A (f : S -> A) : emitsOnly P (read f).
Proof. intros now s. constructor. Qed.

Lemma emitsOnly_modify (f : S -> S) : emitsOnly P (modify f).
Proof. intros now s. constructor. Qed.

Lemma emitsOnly_bind A B (m : M S A) (f : A -> M S B) :
  emitsOnly P m -> (forall a, emitsOnly P (f a)) -> emitsOnly P (bind m f).
Proof.
  intros Hm Hf now s. unfold bind. specialize (Hm now s).
  destruct (m now s) as [[[a|e] s1] out1]; simpl in *; auto.
  specialize (Hf a now s1). destruct (f a now s1) as [[r s2] out2]; simpl in *.
  apply Forall_app; auto.
Qed.

Lemma emitsOnly_tryCatch (m : M S unit) :
  emitsOnly P m -> emitsOnly P (tryCatch m).
Proof.
  intros Hm now s. unfold tryCatch. specialize (Hm now s).
  destruct (m now s) as [[[a|e] s1] out1]; simpl in *; auto.
Qed.

Lemma emitsOnly_forEach X (xs : list X) (f : X -> M S unit) :
  (forall x, emitsOnly P (f x)) -> emitsOnly P (forEach xs f).
Proof.
  intros Hf. induction xs as [|x xs IH]; simpl.
  - apply emitsOnly_ret.
  - apply emitsOnly_bind; auto.
Qed.

Lemma emitsOnly_zoom W A (proj : W -> S) inj (m : M S A) :
  emitsOnly P m -> emitsOnly P (zoom proj inj m).
Proof.
  intros Hm now w. unfold zoom. specialize (Hm now (proj w)).
  destruct (m now (proj w)) as [[r s1] out1]; simpl in *; auto.
Qed.
End EmitsOnly.

Lemma emitsOnly_publishEvent (P : Delivery -> Prop) e :
  (forall hs, P {| event := e; receivers := hs |}) ->
  emitsOnly P (MemoryAdapter.publishEvent e).
Proof.
  intros H now s. rewrite publishEvent_run. repeat constructor. apply H.
Qed.

Create HintDb emits.
#[export] Hint Resolve emitsOnly_ret emitsOnly_throw emitsOnly_getNow
  emitsOnly_read emitsOnly_modify emitsOnly_tryCatch emitsOnly_forEach
  emitsOnly_zoom : emits.

Ltac emits_step :=
  match goal with
  | |- emitsOnly _ (bind _ _) => apply emitsOnly_bind; [|intros]
  | |- emitsOnly _ (tryCatch _) => apply emitsOnly_tryCatch
  | |- emitsOnly _ (forEach _ _) => apply emitsOnly_forEach; intros
  | |- emitsOnly _ (MemoryAdapter.publishEvent _) =>
      apply emitsOnly_publishEvent; intros;
      first [exact I | reflexivity | assumption]
  | |- emitsOnly _ (if ?b then _ else _) => destruct b
  | |- emitsOnly _ (match ?x with _ => _ end) => destruct x
  | |- emitsOnly _ _ => solve [auto with emits]
  end.

Ltac emits_auto := repeat emits_step.

(** ** Programs that leave a view of the state alone *)

Section Keeps.
Context {S X : Type}.
Variable view : S -> X.

Lemma keeps_ret A (a : A) : keeps view (ret a).
Proof. intros now s. reflexivity. Qed.

Lemma keeps_throw A e : keeps view (@throw S A e).
Proof. intros now s. reflexivity. Qed.

Lemma keeps_getNow : keeps view getNow.
Proof. intros now s. reflexivity. Qed.

Lemma keeps_read A (f : S -> A) : keeps view (read f).
Proof. intros now s. reflexivity. Qed.

Lemma keeps_emit d : keeps view (emit d).
Proof. intros now s. reflexivity. Qed.

Lemma keeps_modify (f : S -> S) :
  (forall s, view (f s) = view s) -> keeps view (modify f).
Proof. intros H now s. apply H. Qed.

Lemma keeps_bind A B (m : M S A) (f : A -> M S B) :
  keeps view m -> (forall a, keeps view (f a)) -> keeps view (bind m f).
Proof.
  intros Hm Hf now s. specialize (Hm now s). unfold bind, final in *.
  destruct (m now s) as [[[a|e] s1] out1]; simpl in *; auto.
  specialize (Hf a now s1). unfold final in Hf.
  destruct (f a now s1) as [[r s2] out2]; simpl in *. congruence.
Qed.

Lemma keeps_tryCatch (m : M S unit) : keeps view m -> keeps view (tryCatch m).
Proof.
  intros Hm now s. specialize (Hm now s). unfold tryCatch, final in *.
  destruct (m now s) as [[[a|e] s1] out1]; simpl in *; auto.
Qed.

Lemma keeps_forEach Y (xs : list Y) (f : Y -> M S unit) :
  (forall x, keeps view (f x)) -> keeps view (forEach xs f).
Proof.
  intros Hf. induction xs as [|x xs IH]; simpl.
  - apply keeps_ret.
  - apply keeps_bind; auto.
Qed.
End Keeps.

(** [zoom] on a part that carries the view, and on a part that does not. *)
Lemma keeps_zoom_in W S X A (viewW : W -> X) (viewS : S -> X)
    (proj : W -> S) inj (m : M S A) :
  (forall w, viewW w = viewS (proj w)) ->
  (forall s w, viewW (inj s w) = viewS s) ->
  keeps viewS m -> keeps viewW (zoom proj inj m).
Proof.
  intros Hp Hi Hm now w. specialize (Hm now (proj w)).
  unfold zoom, final in *.
  destruct (m now (proj w)) as [[r s1] out1]. simpl in *.
  now rewrite Hi, Hp.
Qed.

Lemma keeps_zoom_out W S X A (viewW : W -> X) (proj : W -> S) inj
    (m : M S A) :
  (forall s w, viewW (inj s w) = viewW w) ->
  keeps viewW (zoom proj inj m).
Proof.
  intros Hi now w. unfold zoom, final.
  destruct (m now (proj w)) as [[r s1] out1]. simpl. apply Hi.
Qed.

Create HintDb keeps.
#[export] Hint Resolve keeps_ret keeps_throw keeps_getNow keeps_read
  keeps_emit : keeps.

Lemma keeps_statsOf_onStorage A (m : M MemoryAdapter.t A) :
  keeps MemoryAdapter.stats m ->
  keeps statsOf (LocationMonitorService.onStorage m).
Proof.
  intros H. unfold LocationMonitorService.onStorage.
  eapply keeps_zoom_in; eauto; reflexivity.
Qed.

Lemma keeps_geoEngine_onStorage A (m : M MemoryAdapter.t A) :
  keeps LocationMonitorService.geoEngine (LocationMonitorService.onStorage m).
Proof.
  unfold LocationMonitorService.onStorage. apply keeps_zoom_out. reflexivity.
Qed.

Lemma keeps_statsOf_onGeoEngine A (m : M GeoEngine.t A) :
  keeps statsOf (LocationMonitorService.onGeoEngine m).
Proof.
  unfold LocationMonitorService.onGeoEngine. apply keeps_zoom_out.
  reflexivity.
Qed.

Lemma keeps_onWatchdogEngine X (view : LocationMonitorService.t -> X) A
    (m : M WatchdogEngine.t A) :
  (forall d w,
     view {| LocationMonitorService.storage := LocationMonitorService.storage w;
             LocationMonitorService.geoEngine :=
               LocationMonitorService.geoEngine w;
             LocationMonitorService.watchdogEngine := d;
             LocationMonitorService.initialized :=
               LocationMonitorService.initialized w |} = view w) ->
  keeps view (LocationMonitorService.onWatchdogEngine m).
Proof.
  intros H. unfold LocationMonitorService.onWatchdogEngine.
  apply keeps_zoom_out. exact H.
Qed.

Lemma keeps_ensureInitialized X (view : LocationMonitorService.t -> X) :
  keeps view LocationMonitorService.ensureInitialized.
Proof.
  unfold LocationMonitorService.ensureInitialized.
  apply keeps_bind; [apply keeps_read|].
  intros [|]; [apply keeps_ret | apply keeps_throw].
Qed.

Lemma keeps_geoEngine_onGeoEngine_read A (f : GeoEngine.t -> A) :
  keeps LocationMonitorService.geoEngine
    (LocationMonitorService.onGeoEngine (read f)).
Proof. intros now w. reflexivity. Qed.

#[export] Hint Resolve keeps_geoEngine_onStorage keeps_statsOf_onGeoEngine
  keeps_geoEngine_onGeoEngine_read keeps_ensureInitialized : keeps.

Ltac keeps_step :=
  match goal with
  | |- keeps _ (bind _ _) => apply keeps_bind; [|intros]
  | |- keeps _ (modify _) => apply keeps_modify; intros; reflexivity
  | |- keeps _ (tryCatch _) => apply keeps_tryCatch
  | |- keeps _ (forEach _ _) => apply keeps_forEach; intros
  | |- keeps statsOf (LocationMonitorService.onStorage _) =>
      apply keeps_statsOf_onStorage
  | |- keeps _ (LocationMonitorService.onWatchdogEngine _) =>
      apply keeps_onWatchdogEngine; reflexivity
  | |- keeps _ (LocationMonitorService.setInitialized _) =>
      apply keeps_modify; reflexivity
  | |- keeps _ (if ?b then _ else _) => destruct b
  | |- keeps _ (match ?x with _ => _ end) => destruct x
  | |- keeps _ _ => solve [auto with keeps]
  end.

Ltac keeps_auto := repeat keeps_step.

(** ** The storage-side engines publish no geofence event and do not
    write the statistics *)

Lemma plain_LocationEngine_trackLocation (RT : JS.Runtime) a lat lon ts meta :
  emitsOnly plain (LocationEngine.trackLocation a lat lon ts meta).
Proof.
  unfold LocationEngine.trackLocation, LocationEngine.validateInput,
    MemoryAdapter.getLastLocation, MemoryAdapter.saveLocation.
  emits_auto.
Qed.

Lemma plain_updateStatus a old new ts reason :
  emitsOnly plain (StatusEngine.updateStatus a old new ts reason).
Proof.
  unfold StatusEngine.updateStatus, StatusEngine.emitSpecificStatusEvents,
    MemoryAdapter.saveStatus, MemoryAdapter.getAgentState.
  emits_auto.
Qed.
#[export] Hint Resolve plain_LocationEngine_trackLocation plain_updateStatus
  : emits.

Lemma plain_detectStatus th a loc :
  emitsOnly plain (StatusEngine.detectStatus th a loc).
Proof.
  unfold StatusEngine.detectStatus, MemoryAdapter.getStatus,
    MemoryAdapter.getLastLocation.
  emits_auto.
Qed.

Lemma plain_checkStatusByTime th a :
  emitsOnly plain (StatusEngine.checkStatusByTime th a).
Proof.
  unfold StatusEngine.checkStatusByTime, MemoryAdapter.getAgentState.
  emits_auto.
Qed.

Lemma plain_setStatus a st reason :
  emitsOnly plain (StatusEngine.setStatus a st reason).
Proof.
  unfold StatusEngine.setStatus, MemoryAdapter.getStatus.
  emits_auto.
Qed.
#[export] Hint Resolve plain_detectStatus plain_checkStatusByTime
  plain_setStatus : emits.

Lemma plain_checkAgent th a : emitsOnly plain (WatchdogEngine.checkAgent th a).
Proof. unfold WatchdogEngine.checkAgent. emits_auto. Qed.
#[export] Hint Resolve plain_checkAgent : emits.

Lemma plain_performCheck th : emitsOnly plain (WatchdogEngine.performCheck th).
Proof.
  unfold WatchdogEngine.performCheck, MemoryAdapter.getAllAgents.
  emits_auto.
Qed.
#[export] Hint Resolve plain_performCheck : emits.

Lemma keeps_stats_updateStatus a old new ts reason :
  keeps MemoryAdapter.stats (StatusEngine.updateStatus a old new ts reason).
Proof.
  unfold StatusEngine.updateStatus, StatusEngine.emitSpecificStatusEvents,
    MemoryAdapter.saveStatus, MemoryAdapter.getAgentState,
    MemoryAdapter.publishEvent.
  keeps_auto.
Qed.
#[export] Hint Resolve keeps_stats_updateStatus : keeps.

Lemma keeps_stats_checkStatusByTime th a :
  keeps MemoryAdapter.stats (StatusEngine.checkStatusByTime th a).
Proof.
  unfold StatusEngine.checkStatusByTime, MemoryAdapter.getAgentState.
  keeps_auto.
Qed.
#[export] Hint Resolve keeps_stats_checkStatusByTime : keeps.

Lemma keeps_stats_setStatus a st reason :
  keeps MemoryAdapter.stats (StatusEngine.setStatus a st reason).
Proof.
  unfold StatusEngine.setStatus, MemoryAdapter.getStatus. keeps_auto.
Qed.

Lemma keeps_stats_checkAgent th a :
  keeps MemoryAdapter.stats (WatchdogEngine.checkAgent th a).
Proof. unfold WatchdogEngine.checkAgent. keeps_auto. Qed.
#[export] Hint Resolve keeps_stats_setStatus keeps_stats_checkAgent : keeps.

Lemma keeps_stats_performCheck th :
  keeps MemoryAdapter.stats (WatchdogEngine.performCheck th).
Proof.
  unfold WatchdogEngine.performCheck, MemoryAdapter.getAllAgents.
  keeps_auto.
Qed.
#[export] Hint Resolve keeps_stats_performCheck : keeps.

(** ** Programs of the service that leave the geofence engine alone *)

Lemma stable_ret A (a : A) : geoStable (ret a).
Proof. split; [apply keeps_ret | apply emitsOnly_ret]. Qed.

Lemma stable_throw A e : geoStable (@throw _ A e).
Proof. split; [apply keeps_throw | apply emitsOnly_throw]. Qed.

Lemma stable_read A (f : _ -> A) : geoStable (read f).
Proof. split; [apply keeps_read | apply emitsOnly_read]. Qed.

Lemma stable_getNow : geoStable getNow.
Proof. split; [apply keeps_getNow | apply emitsOnly_getNow]. Qed.

Lemma stable_bind A B (m : M _ A) (f : A -> M _ B) :
  geoStable m -> (forall a, geoStable (f a)) -> geoStable (bind m f).
Proof.
  intros [K E] H. split.
  - apply keeps_bind; [exact K | intros a; apply H].
  - apply emitsOnly_bind; [exact E | intros a; apply H].
Qed.

Lemma stable_onStorage A (m : M MemoryAdapter.t A) :
  emitsOnly plain m -> geoStable (LocationMonitorService.onStorage m).
Proof.
  intros H. split.
  - apply keeps_geoEngine_onStorage.
  - now apply emitsOnly_zoom.
Qed.

Lemma stable_onWatchdogEngine A (m : M WatchdogEngine.t A) :
  emitsOnly plain m -> geoStable (LocationMonitorService.onWatchdogEngine m).
Proof.
  intros H. split.
  - apply keeps_onWatchdogEngine. reflexivity.
  - now apply emitsOnly_zoom.
Qed.

Lemma stable_onGeoEngine_read A (f : GeoEngine.t -> A) :
  geoStable (LocationMonitorService.onGeoEngine (read f)).
Proof.
  split.
  - apply keeps_geoEngine_onGeoEngine_read.
  - apply emitsOnly_zoom, emitsOnly_read.
Qed.

Lemma stable_setInitialized b :
  geoStable (LocationMonitorService.setInitialized b).
Proof.
  split.
  - apply keeps_modify. reflexivity.
  - apply emitsOnly_modify.
Qed.

Lemma stable_ensureInitialized :
  geoStable LocationMonitorService.ensureInitialized.
Proof.
  unfold LocationMonitorService.ensureInitialized.
  apply stable_bind; [apply stable_read|].
  intros [|]; [apply stable_ret | apply stable_throw].
Qed.

Create HintDb stable.
#[export] Hint Resolve stable_ret stable_throw stable_read stable_getNow
  stable_onGeoEngine_read stable_setInitialized stable_ensureInitialized
  : stable.

Ltac stable_step :=
  match goal with
  | |- geoStable (bind _ _) => apply stable_bind; [|intros]
  | |- geoStable (LocationMonitorService.onStorage _) =>
      apply stable_onStorage; emits_auto
  | |- geoStable (LocationMonitorService.onWatchdogEngine _) =>
      apply stable_onWatchdogEngine; emits_auto
  | |- geoStable (if ?b then _ else _) => destruct b
  | |- geoStable (match ?x with _ => _ end) => destruct x
  | |- geoStable _ => solve [auto with stable]
  end.

Ltac stable_auto := repeat stable_step.

Lemma stable_updateAgentState a loc st :
  geoStable (LocationMonitorService.updateAgentState a loc st).
Proof.
  unfold LocationMonitorService.updateAgentState, GeoEngine.getAgentGeofences,
    MemoryAdapter.getAgentState, MemoryAdapter.saveAgentState.
  stable_auto.
Qed.

(** ** Calls that a subscriber makes fail *)

Lemma bind_throw S A B (m : M S A) (f : A -> M S B) now s e s1 out1 :
  m now s = (Throw e, s1, out1) -> bind m f now s = (Throw e, s1, out1).
Proof. intros H. unfold bind. now rewrite H. Qed.

Lemma settled_cases handlers e :
  settled handlers e = Ok tt \/
  settled handlers e = Throw SubscriberRejected /\ ~ calm handlers.
Proof.
  unfold settled. destruct (existsb _ _) eqn:E; [right | now left].
  split; [reflexivity|]. intros C. rewrite C in E. discriminate.
Qed.

Lemma calm_nil : calm [].
Proof. intros e. reflexivity. Qed.

(** ** One pass of [checkGeofences] *)

Lemma In_NoDup_get V k (v : V) m :
  NoDup (JSMap.keys m) -> In (k, v) m -> JSMap.get k m = Some v.
Proof.
  induction m as [|[k' v'] m IH]; simpl; intros N H; [tauto|].
  inversion N as [|? ? Hn N']; subst.
  destruct H as [H|H].
  - inversion H; subst. now rewrite String.eqb_refl.
  - destruct (String.eqb k k') eqn:E.
    + apply String.eqb_eq in E. subst k'. exfalso. apply Hn.
      change (In (fst (k, v)) (map fst m)). now apply in_map.
    + auto.
Qed.

Lemma emitGeofenceEvent_run ty dir a z loc now g s :
  GeoEngine.emitGeofenceEvent ty dir a z loc now (g, s) =
    (settled (MemoryAdapter.eventHandlers s)
       (event (geofenceDelivery ty dir a z loc now
                 (MemoryAdapter.eventHandlers s))),
     (g, s),
     [geofenceDelivery ty dir a z loc now (MemoryAdapter.eventHandlers s)]).
Proof.
  unfold GeoEngine.emitGeofenceEvent, GeoEngine.onStorage, zoom, bind, getNow.
  cbn [fst snd]. rewrite publishEvent_run. reflexivity.
Qed.

Section Pass.
Context {RT : JS.Runtime}.

(** The loop of [checkGeofences] either completes, with the set and the
    events of all its turns, or stops at the first event that a
    subscriber rejects; it does not write. *)
Lemma checkEach_cases a loc current now g s :
  forall entries acc,
    GeoEngine.checkEach a loc current entries acc now (g, s) =
      (Ok (zonesAt loc entries acc), (g, s),
       flat_map (turnEvents a loc current now (MemoryAdapter.eventHandlers s))
         entries) \/
    exists out more,
      GeoEngine.checkEach a loc current entries acc now (g, s) =
        (Throw SubscriberRejected, (g, s), out) /\
      flat_map (turnEvents a loc current now (MemoryAdapter.eventHandlers s))
        entries = out ++ more /\
      ~ calm (MemoryAdapter.eventHandlers s).
Proof.
  induction entries as [|[k z] rest IH]; intros acc; [now left|].
  change (zonesAt loc ((k, z) :: rest) acc)
    with (zonesAt loc rest
            (if contains loc z then JSSet.add k acc else acc)).
  change (flat_map (turnEvents a loc current now
                      (MemoryAdapter.eventHandlers s)) ((k, z) :: rest))
    with (turnEvents a loc current now (MemoryAdapter.eventHandlers s) (k, z)
          ++ flat_map (turnEvents a loc current now
                         (MemoryAdapter.eventHandlers s)) rest).
  unfold turnEvents at 1 3. cbn [fst snd GeoEngine.checkEach].
  fold (contains loc z).
  assert (Quiet : forall acc',
            GeoEngine.checkEach a loc current rest acc' now (g, s) =
              (Ok (zonesAt loc rest acc'), (g, s),
               flat_map (turnEvents a loc current now
                           (MemoryAdapter.eventHandlers s)) rest) \/
            exists out more,
              (ret tt ;;; GeoEngine.checkEach a loc current rest acc') now
                (g, s) = (Throw SubscriberRejected, (g, s), out) /\
              flat_map (turnEvents a loc current now
                          (MemoryAdapter.eventHandlers s)) rest =
                out ++ more /\
              ~ calm (MemoryAdapter.eventHandlers s)).
  { intros acc'. destruct (IH acc') as [E | (out & more & E & F & NC)];
      [now left | right]. exists out, more. repeat split; auto.
    eapply bind_run; [reflexivity | exact E | reflexivity]. }
  assert (Loud : forall ty dir acc',
            let d := geofenceDelivery ty dir a z loc now
                       (MemoryAdapter.eventHandlers s) in
            (GeoEngine.emitGeofenceEvent ty dir a z loc ;;;
             GeoEngine.checkEach a loc current rest acc') now (g, s) =
              (Ok (zonesAt loc rest acc'), (g, s),
               d :: flat_map (turnEvents a loc current now
                                (MemoryAdapter.eventHandlers s)) rest) \/
            exists out more,
              (GeoEngine.emitGeofenceEvent ty dir a z loc ;;;
               GeoEngine.checkEach a loc current rest acc') now (g, s) =
                (Throw SubscriberRejected, (g, s), out) /\
              d :: flat_map (turnEvents a loc current now
                               (MemoryAdapter.eventHandlers s)) rest =
                out ++ more /\
              ~ calm (MemoryAdapter.eventHandlers s)).
  { intros ty dir acc' d.
    destruct (settled_cases (MemoryAdapter.eventHandlers s) (event d))
      as [S | [S NC']].
    - destruct (IH acc') as [E | (out & more & E & F & NC)].
      + left. eapply bind_run;
          [rewrite emitGeofenceEvent_run; fold d; rewrite S; reflexivity
          | exact E | reflexivity].
      + right. exists (d :: out), more. split; [|split; [|exact NC]].
        * eapply bind_run;
            [rewrite emitGeofenceEvent_run; fold d; rewrite S; reflexivity
            | exact E | reflexivity].
        * cbn [app]. now rewrite F.
    - right. exists [d], (flat_map (turnEvents a loc current now
                                      (MemoryAdapter.eventHandlers s)) rest).
      split; [|split; [reflexivity | exact NC']].
      apply bind_throw. rewrite emitGeofenceEvent_run. fold d. now rewrite S. }
  unfold GeoEngine.emitGeofenceEnterEvent, GeoEngine.emitGeofenceExitEvent.
  destruct (contains loc z), (JSSet.has k current); cbn [negb app].
  - destruct (Quiet (JSSet.add k acc)) as [E | H]; [left | right; exact H].
    eapply bind_run; [reflexivity | exact E | reflexivity].
  - apply Loud.
  - apply Loud.
  - destruct (Quiet acc) as [E | H]; [left | right; exact H].
    eapply bind_run; [reflexivity | exact E | reflexivity].
Qed.

Lemma checkGeofences_cases a loc now g s :
  GeoEngine.checkGeofences a loc now (g, s) =
    (Ok tt, (afterCheck a loc g, s),
     flat_map (turnEvents a loc (GeoEngine.membership a g) now
                 (MemoryAdapter.eventHandlers s))
       (GeoEngine.geofences g)) \/
  exists out more,
    GeoEngine.checkGeofences a loc now (g, s) =
      (Throw SubscriberRejected, (g, s), out) /\
    flat_map (turnEvents a loc (GeoEngine.membership a g) now
                (MemoryAdapter.eventHandlers s))
      (GeoEngine.geofences g) = out ++ more /\
    ~ calm (MemoryAdapter.eventHandlers s).
Proof.
  unfold GeoEngine.checkGeofences.
  destruct (checkEach_cases a loc (GeoEngine.membership a g) now g s
              (GeoEngine.geofences g) JSSet.empty)
    as [E | (out & more & E & F & NC)].
  - left.
    eapply bind_run; [reflexivity | | reflexivity].
    eapply bind_run; [reflexivity | | reflexivity].
    eapply bind_run; [exact E | reflexivity |].
    cbn [fst snd]. now rewrite app_nil_r.
  - right. exists out, more. split; [|split; [exact F | exact NC]].
    eapply bind_run; [reflexivity | | reflexivity].
    eapply bind_run; [reflexivity | | reflexivity].
    apply bind_throw. exact E.
Qed.

Lemma has_zonesAt loc k :
  forall entries acc,
    JSSet.has k (zonesAt loc entries acc) =
    JSSet.has k acc ||
    existsb (fun e => String.eqb k (fst e) && contains loc (snd e)) entries.
Proof.
  unfold zonesAt.
  induction entries as [|[k' z] rest IH]; intros acc; simpl.
  - now rewrite orb_false_r.
  - rewrite IH.
    destruct (contains loc z); simpl.
    + rewrite has_add. now rewrite andb_true_r, orb_assoc.
    + now rewrite andb_false_r.
Qed.

Lemma has_zonesAt_entry loc entries k z :
  NoDup (JSMap.keys entries) -> In (k, z) entries ->
  JSSet.has k (zonesAt loc entries JSSet.empty) = contains loc z.
Proof.
  intros N H. rewrite has_zonesAt. simpl.
  induction entries as [|[k' z'] rest IH]; simpl in *; [tauto|].
  inversion N as [|? ? Hn N']; subst. destruct H as [H|H].
  - inversion H; subst. rewrite String.eqb_refl. simpl.
    destruct (contains loc z); simpl; auto.
    apply not_true_is_false. intros E. apply existsb_exists in E.
    destruct E as ([k1 z1] & Hin & E). simpl in E.
    apply andb_prop in E. destruct E as [E _]. apply String.eqb_eq in E.
    subst k1. apply Hn. change (In (fst (k, z1)) (map fst rest)).
    now apply in_map.
  - destruct (String.eqb k k') eqn:E.
    + apply String.eqb_eq in E. subst k'. exfalso. apply Hn.
      change (In (fst (k, z)) (map fst rest)). now apply in_map.
    + simpl. auto.
Qed.

Lemma zonesAt_filter loc :
  forall entries acc,
    NoDup (JSMap.keys entries) ->
    (forall k, In k (JSMap.keys entries) -> JSSet.has k acc = false) ->
    zonesAt loc entries acc =
    acc ++ map fst (filter (fun e => contains loc (snd e)) entries).
Proof.
  induction entries as [|[k z] rest IH]; intros acc N D; simpl.
  - now rewrite app_nil_r.
  - inversion N as [|? ? Hn N']; subst.
    unfold zonesAt in *. destruct (contains loc z); simpl.
    + assert (Ea : JSSet.add k acc = acc ++ [k]).
      { unfold JSSet.add. now rewrite (D k) by (left; reflexivity). }
      rewrite Ea. rewrite IH; auto.
      * now rewrite <- app_assoc.
      * intros k' Hk'. unfold JSSet.has. rewrite existsb_app.
        fold (JSSet.has k' acc). rewrite (D k') by (right; exact Hk').
        simpl. rewrite orb_false_r. apply String.eqb_neq.
        intros ->. now apply Hn.
    + apply IH; auto. intros k' Hk'. apply D. now right.
Qed.

Lemma registered_zones_of loc entries :
  NoDup (JSMap.keys entries) ->
  flat_map (fun id => match JSMap.get id entries with
                      | Some g => [g]
                      | None => []
                      end)
    (zonesAt loc entries JSSet.empty) =
  GeoUtils.getContainingGeofences (latitude loc) (longitude loc)
    (JSMap.values entries).
Proof.
  intros N. rewrite zonesAt_filter by auto. simpl.
  unfold GeoUtils.getContainingGeofences, JSMap.values.
  assert (G : forall l, incl l entries ->
            flat_map (fun id => match JSMap.get id entries with
                                | Some g => [g]
                                | None => []
                                end)
              (map fst (filter (fun e => contains loc (snd e)) l)) =
            filter (fun g => GeoUtils.isPointInGeofence (latitude loc)
                               (longitude loc) g) (map snd l)).
  { induction l as [|[k z] l IH]; intros Hl; [reflexivity|].
    simpl. unfold contains at 1. simpl.
    assert (Hl' : incl l entries) by (intros x Hx; apply Hl; now right).
    destruct (GeoUtils.isPointInGeofence (latitude loc) (longitude loc) z).
    - simpl. rewrite (@In_NoDup_get _ k z entries N) by (apply Hl; now left).
      simpl. now rewrite IH.
    - now apply IH. }
  apply G, incl_refl.
Qed.
End Pass.

(** ** What the status engine and one [track] do *)

(** Runs a program up to its next [publishEvent] and splits on how the
    subscribers settle. *)
Ltac settle_step :=
  cbv beta iota zeta delta [bind ret read getNow modify];
  first
    [ rewrite publishEvent_run
    | match goal with
      | |- context [settled ?hs ?e] =>
          let S := fresh "S" in
          let NC := fresh "NC" in
          destruct (settled_cases hs e) as [S | [S NC]]; rewrite S; clear S
      end ].

Ltac settle := repeat settle_step; cbv beta iota.

Lemma emitSpecificStatusEvents_run agentId old new ts now s :
  exists r out,
    StatusEngine.emitSpecificStatusEvents agentId old new ts now s =
      (r, s, out) /\
    (r = Ok tt \/
     r = Throw SubscriberRejected /\ ~ calm (MemoryAdapter.eventHandlers s)).
Proof.
  unfold StatusEngine.emitSpecificStatusEvents, MemoryAdapter.getAgentState.
  destruct old, new; cbn [AgentStatus_eqb andb orb negb]; settle;
    eexists _, _; (split; [reflexivity|]); auto.
Qed.

(** [updateStatus] writes the new status first; it fails only when a
    subscriber rejects one of its events. *)
Lemma updateStatus_run agentId old new ts reason now s :
  exists r out,
    StatusEngine.updateStatus agentId old new ts reason now s =
      (r,
       MemoryAdapter.with_statuses
         (JSMap.set agentId {| se_status := new; se_timestamp := ts |}) s,
       out) /\
    (r = Ok tt \/
     r = Throw SubscriberRejected /\ ~ calm (MemoryAdapter.eventHandlers s)).
Proof.
  unfold StatusEngine.updateStatus, MemoryAdapter.saveStatus.
  set (s1 := MemoryAdapter.with_statuses _ s).
  destruct (emitSpecificStatusEvents_run agentId old new ts now s1)
    as (r & out & E & C).
  change (MemoryAdapter.eventHandlers s1)
    with (MemoryAdapter.eventHandlers s) in C.
  unfold bind at 1. unfold modify at 1. cbv beta iota. fold s1.
  unfold bind at 1. unfold getNow at 1. cbv beta iota.
  unfold bind at 1. rewrite publishEvent_run.
  change (MemoryAdapter.eventHandlers s1)
    with (MemoryAdapter.eventHandlers s).
  match goal with
  | |- context [settled ?hs ?e] =>
      destruct (settled_cases hs e) as [S | [S NC]]; rewrite S
  end.
  - rewrite E. eexists _, _. split; [reflexivity | exact C].
  - eexists _, _. split; [reflexivity | right; auto].
Qed.

Lemma updateStatus_final agentId old new ts reason now s :
  final (StatusEngine.updateStatus agentId old new ts reason now s) =
  MemoryAdapter.with_statuses
    (JSMap.set agentId {| se_status := new; se_timestamp := ts |}) s.
Proof.
  destruct (updateStatus_run agentId old new ts reason now s)
    as (r & out & E & _).
  now rewrite E.
Qed.

(** [checkStatusByTime], written out. *)
Lemma checkStatusByTime_exact th agentId now s :
  StatusEngine.checkStatusByTime th agentId now s =
    match JSMap.get agentId (MemoryAdapter.states s) with
    | None => (Ok OFFLINE, s, [])
    | Some st =>
        if negb (JS.truthy (lastUpdate st)) then (Ok OFFLINE, s, [])
        else
          let new := StatusEngine.statusByTime th now st in
          if negb (AgentStatus_eqb (status st) new)
          then
            let o := StatusEngine.updateStatus agentId (status st) new now
                       None now s in
            (match result o with
             | Ok _ => Ok new
             | Throw e => Throw e
             end,
             MemoryAdapter.with_statuses
               (JSMap.set agentId
                  {| se_status := new; se_timestamp := now |}) s,
             snd o)
          else (Ok new, s, [])
    end.
Proof.
  unfold StatusEngine.checkStatusByTime, MemoryAdapter.getAgentState.
  unfold bind at 1. unfold read at 1. cbv beta iota.
  destruct (JSMap.get agentId (MemoryAdapter.states s)) as [st|];
    [|reflexivity].
  destruct (negb (JS.truthy (lastUpdate st))); [reflexivity|].
  unfold bind at 1. unfold getNow at 1. cbv beta iota zeta.
  destruct (negb (AgentStatus_eqb (status st)
                    (StatusEngine.statusByTime th now st)));
    [|reflexivity].
  destruct (updateStatus_run agentId (status st)
              (StatusEngine.statusByTime th now st) now None now s)
    as (r & out & E & _).
  unfold bind, ret, result. rewrite E. cbn [fst snd].
  destruct r; [now rewrite app_nil_r | reflexivity].
Qed.

Lemma statusByTime_offline th now st :
  TimeUtils.isOlderThan now (lastUpdate st) (offlineAfter th) = true ->
  status st <> OFFLINE ->
  StatusEngine.statusByTime th now st =
    if idleCheckFires th now st then IDLE else OFFLINE.
Proof.
  intros Hold Hst. apply AgentStatus_eqb_neq in Hst.
  unfold StatusEngine.statusByTime, idleCheckFires.
  rewrite Hold, Hst. simpl. reflexivity.
Qed.

Lemma positive_truthy t : (t >? 0) = true -> JS.truthy t = true.
Proof.
  unfold JS.gt, JS.truthy. intros H.
  destruct (ltb_true_not_nan H) as [_ Hn]. rewrite Hn.
  rewrite andb_true_r. apply negb_true_iff.
  rewrite FloatAxioms.eqb_spec. rewrite ltb_spec in H.
  unfold SFltb, SFeqb in *.
  rewrite (SFcompare_swap (Prim2SF 0) (Prim2SF t)).
  destruct (SFcompare (Prim2SF 0) (Prim2SF t)) as [[| |]|];
    try discriminate. reflexivity.
Qed.

Lemma valid_timestamp_truthy now t :
  JS.truthy t && TimeUtils.isValidTimestamp now t =
  TimeUtils.isValidTimestamp now t.
Proof.
  destruct (TimeUtils.isValidTimestamp now t) eqn:E;
    [|apply andb_false_r].
  rewrite andb_true_r. unfold TimeUtils.isValidTimestamp in E.
  apply andb_prop in E. destruct E as [E _].
  apply andb_prop in E. destruct E as [_ E]. now apply positive_truthy.
Qed.

Lemma keeps_states_updateStatus a old new ts reason :
  keeps MemoryAdapter.states (StatusEngine.updateStatus a old new ts reason).
Proof.
  unfold StatusEngine.updateStatus, StatusEngine.emitSpecificStatusEvents,
    MemoryAdapter.saveStatus, MemoryAdapter.publishEvent,
    MemoryAdapter.getAgentState.
  keeps_auto.
Qed.

Lemma keeps_locations_updateStatus a old new ts reason :
  keeps MemoryAdapter.locations
    (StatusEngine.updateStatus a old new ts reason).
Proof.
  unfold StatusEngine.updateStatus, StatusEngine.emitSpecificStatusEvents,
    MemoryAdapter.saveStatus, MemoryAdapter.publishEvent,
    MemoryAdapter.getAgentState.
  keeps_auto.
Qed.

Lemma keeps_handlers_updateStatus a old new ts reason :
  keeps MemoryAdapter.eventHandlers
    (StatusEngine.updateStatus a old new ts reason).
Proof.
  unfold StatusEngine.updateStatus, StatusEngine.emitSpecificStatusEvents,
    MemoryAdapter.saveStatus, MemoryAdapter.publishEvent,
    MemoryAdapter.getAgentState.
  keeps_auto.
Qed.

#[export] Hint Resolve keeps_states_updateStatus keeps_locations_updateStatus
  keeps_handlers_updateStatus : keeps.

Lemma keeps_states_detectStatus th a loc :
  keeps MemoryAdapter.states (StatusEngine.detectStatus th a loc).
Proof.
  unfold StatusEngine.detectStatus, MemoryAdapter.getStatus,
    MemoryAdapter.getLastLocation.
  keeps_auto.
Qed.

Lemma keeps_handlers_detectStatus th a loc :
  keeps MemoryAdapter.eventHandlers (StatusEngine.detectStatus th a loc).
Proof.
  unfold StatusEngine.detectStatus, MemoryAdapter.getStatus,
    MemoryAdapter.getLastLocation.
  keeps_auto.
Qed.

Lemma keeps_locations_detectStatus th a loc :
  keeps MemoryAdapter.locations (StatusEngine.detectStatus th a loc).
Proof.
  unfold StatusEngine.detectStatus, MemoryAdapter.getStatus,
    MemoryAdapter.getLastLocation.
  keeps_auto.
Qed.

Lemma keeps_stats_detectStatus th a loc :
  keeps MemoryAdapter.stats (StatusEngine.detectStatus th a loc).
Proof.
  unfold StatusEngine.detectStatus, MemoryAdapter.getStatus,
    MemoryAdapter.getLastLocation.
  keeps_auto.
Qed.

(** [detectStatus] leaves the status of the agent at the classification
    of the sample, whether it had to write it or not, and fails only
    when a subscriber rejects one of its events. *)
Lemma detectStatus_run th a loc now s :
  exists r s' out,
    StatusEngine.detectStatus th a loc now s = (r, s', out) /\
    option_map se_status (JSMap.get a (MemoryAdapter.statuses s')) =
      Some (StatusEngine.determineStatus th loc
              (JSMap.get a (MemoryAdapter.locations s))) /\
    (r = Ok (StatusEngine.determineStatus th loc
               (JSMap.get a (MemoryAdapter.locations s))) \/
     r = Throw SubscriberRejected /\ ~ calm (MemoryAdapter.eventHandlers s)).
Proof.
  unfold StatusEngine.detectStatus, MemoryAdapter.getStatus,
    MemoryAdapter.getLastLocation.
  unfold bind at 1. unfold read at 1. cbv beta iota.
  unfold bind at 1. unfold read at 1. cbv beta iota zeta.
  set (new := StatusEngine.determineStatus th loc
                (JSMap.get a (MemoryAdapter.locations s))).
  destruct (StatusEngine.differs
              (option_map se_status (JSMap.get a (MemoryAdapter.statuses s)))
              new) eqn:D.
  - destruct (@updateStatus_run a
                (StatusEngine.orElse
                   (option_map se_status
                      (JSMap.get a (MemoryAdapter.statuses s))) ACTIVE)
                new (timestamp loc) None now s) as (r & out & E & C).
    unfold bind, ret. rewrite E.
    destruct C as [-> | [-> NC]]; eexists _, _, _;
      (split; [reflexivity|]);
      cbn [MemoryAdapter.with_statuses MemoryAdapter.statuses];
      rewrite get_set_same; (split; [reflexivity|]); auto.
  - eexists _, _, _. split; [reflexivity|]. split; [|now left].
    unfold StatusEngine.differs in D.
    destruct (option_map se_status (JSMap.get a (MemoryAdapter.statuses s)))
      as [cur|]; [|discriminate].
    apply negb_false_iff, AgentStatus_eqb_eq in D. now subst.
Qed.

Section Exact.
Context {RT : JS.Runtime}.

(** [trackLocation] of the location engine on valid input: the sample is
    stored, then announced; the call fails only when a subscriber rejects
    the announcement. *)
Lemma LocationEngine_trackLocation_exact a lat lon ts meta now s :
  JS.truthyStr a = true ->
  DistanceCalculator.isValidCoordinate lat lon = true ->
  exists loc d r,
    LocationEngine.trackLocation a lat lon ts meta now s =
      (r,
       MemoryAdapter.with_stats
         (JSMap.set a (bumped a (timestamp loc) (MemoryAdapter.stats s)))
         (MemoryAdapter.with_locations (JSMap.set a loc) s),
       [locationDelivery loc d now (MemoryAdapter.eventHandlers s)]) /\
    (r = Ok loc \/
     r = Throw SubscriberRejected /\ ~ calm (MemoryAdapter.eventHandlers s)) /\
    loc_agentId loc = a /\ latitude loc = lat /\ longitude loc = lon /\
    metadata loc = meta /\ timestamp loc = stampOf now ts /\
    (JSMap.get a (MemoryAdapter.locations s) = None ->
     speed loc = None /\ heading loc = None /\ d = 0).
Proof.
  intros Ha Hc.
  unfold LocationEngine.trackLocation, LocationEngine.validateInput.
  rewrite Ha, Hc. cbn [negb].
  unfold MemoryAdapter.getLastLocation, MemoryAdapter.saveLocation.
  assert (Ets : match ts with
                | Some ts0 =>
                    if JS.truthy ts0 && TimeUtils.isValidTimestamp now ts0
                    then ts0 else now
                | None => now
                end = stampOf now ts).
  { unfold stampOf. destruct ts as [t|]; auto.
    now rewrite valid_timestamp_truthy. }
  cbv beta iota zeta delta [bind ret read getNow modify].
  rewrite Ets, publishEvent_run.
  cbn [MemoryAdapter.stats MemoryAdapter.with_locations
       MemoryAdapter.eventHandlers MemoryAdapter.with_stats app].
  unfold bumped, locationDelivery.
  destruct (JSMap.get a (MemoryAdapter.locations s)) as [l|];
    destruct (JSMap.get a (MemoryAdapter.stats s));
    match goal with
    | |- context [settled ?hs ?e] =>
        destruct (settled_cases hs e) as [S | [S NC]]; rewrite S
    end;
    cbv beta iota;
    match goal with
    | |- exists loc d r, (_, _, [ {| event := {| payload := PLocationReceived
             {| lr_location := ?L; distanceTraveled := ?D |} |} |} ]) = _ /\ _ =>
        exists L, D
    end;
    eexists; (split; [reflexivity|]);
    cbn [loc_agentId latitude longitude metadata timestamp speed heading
         fst snd];
    (split; [auto|]);
    repeat split; try reflexivity; try discriminate.
Qed.
End Exact.

Lemma updateAgentState_run a loc st now w :
  LocationMonitorService.updateAgentState a loc st now w =
    (Ok tt,
     {| LocationMonitorService.storage :=
          MemoryAdapter.with_states
            (JSMap.set a
               (snapshotOf a loc st now
                  (JSMap.get a (MemoryAdapter.states
                                  (LocationMonitorService.storage w)))
                  (zonesOf a (LocationMonitorService.geoEngine w))))
            (LocationMonitorService.storage w);
        LocationMonitorService.geoEngine := LocationMonitorService.geoEngine w;
        LocationMonitorService.watchdogEngine :=
          LocationMonitorService.watchdogEngine w;
        LocationMonitorService.initialized :=
          LocationMonitorService.initialized w |},
     []).
Proof. reflexivity. Qed.

Section Stages.
Context {RT : JS.Runtime}.
Variable config : LocationMonitorConfig.

(** A [track] with valid input on a started service, stage by stage.
    It completes, with the state and the events written out below, or a
    subscriber rejects one of its events: then the call fails with what
    it had published so far, the sample stored, and the geofence engine
    untouched. *)
Lemma trackLocation_stages a lat lon ts meta now w :
  LocationMonitorService.initialized w = true ->
  JS.truthyStr a = true ->
  DistanceCalculator.isValidCoordinate lat lon = true ->
  exists loc d,
    let s := LocationMonitorService.storage w in
    let g := LocationMonitorService.geoEngine w in
    let s1 := MemoryAdapter.with_stats
                (JSMap.set a (bumped a (timestamp loc) (MemoryAdapter.stats s)))
                (MemoryAdapter.with_locations (JSMap.set a loc) s) in
    let o2 := StatusEngine.detectStatus (thresholds config) a loc now s1 in
    let g3 := if gf_enabled (geofence config) then afterCheck a loc g else g in
    let out3 :=
      if gf_enabled (geofence config)
      then flat_map (turnEvents a loc (GeoEngine.membership a g) now
                       (MemoryAdapter.eventHandlers s))
             (GeoEngine.geofences g)
      else [] in
    let o := LocationMonitorService.trackLocation config a lat lon ts meta
               now w in
    (o = (Ok loc,
          {| LocationMonitorService.storage :=
               MemoryAdapter.with_states
                 (JSMap.set a
                    (snapshotOf a loc
                       (StatusEngine.determineStatus (thresholds config) loc
                          (Some loc))
                       now (JSMap.get a (MemoryAdapter.states s))
                       (zonesOf a g3)))
                 (final o2);
             LocationMonitorService.geoEngine := g3;
             LocationMonitorService.watchdogEngine :=
               LocationMonitorService.watchdogEngine w;
             LocationMonitorService.initialized := true |},
          locationDelivery loc d now (MemoryAdapter.eventHandlers s) ::
          snd o2 ++ out3) \/
     result o = Throw SubscriberRejected /\
     ~ calm (MemoryAdapter.eventHandlers s) /\
     LocationMonitorService.geoEngine (final o) = g /\
     (LocationMonitorService.storage (final o) = s1 \/
      LocationMonitorService.storage (final o) = final o2) /\
     LocationMonitorService.initialized (final o) = true /\
     exists out more,
       snd o =
         locationDelivery loc d now (MemoryAdapter.eventHandlers s) :: out /\
       snd o2 ++ out3 = out ++ more) /\
    loc_agentId loc = a /\ latitude loc = lat /\ longitude loc = lon /\
    metadata loc = meta /\ timestamp loc = stampOf now ts /\
    (JSMap.get a (MemoryAdapter.locations s) = None ->
     speed loc = None /\ heading loc = None /\ d = 0).
Proof.
  intros Hi Ha Hc. destruct w as [s g wd i]. simpl in Hi. subst i.
  destruct (LocationEngine_trackLocation_exact a lat lon ts meta now s Ha Hc)
    as (loc & d & r1 & E1 & C1 & Hfacts).
  exists loc, d. cbv zeta.
  cbn [LocationMonitorService.storage LocationMonitorService.geoEngine
       LocationMonitorService.watchdogEngine].
  split; [|exact Hfacts].
  set (s1 := MemoryAdapter.with_stats
               (JSMap.set a (bumped a (timestamp loc) (MemoryAdapter.stats s)))
               (MemoryAdapter.with_locations (JSMap.set a loc) s)) in *.
  set (hs := MemoryAdapter.eventHandlers s) in *.
  set (g3 := if gf_enabled (geofence config) then afterCheck a loc g else g).
  set (out3 := if gf_enabled (geofence config)
               then flat_map (turnEvents a loc (GeoEngine.membership a g) now
                                hs)
                      (GeoEngine.geofences g)
               else []).
  unfold LocationMonitorService.trackLocation.
  destruct C1 as [-> | [-> NC]].
  2: { right.
       erewrite bind_run;
         [ | reflexivity
           | apply bind_throw; apply onStorage_run; exact E1 | reflexivity ].
       cbn [result final fst snd app
            LocationMonitorService.storage LocationMonitorService.geoEngine
            LocationMonitorService.initialized].
       repeat split; auto. exists [], (snd (StatusEngine.detectStatus
                                              (thresholds config) a loc now
                                              s1) ++ out3).
       split; reflexivity. }
  destruct (detectStatus_run (thresholds config) a loc now s1)
    as (r2 & s2 & out2 & E2 & _ & C2).
  assert (Hloc1 : JSMap.get a (MemoryAdapter.locations s1) = Some loc)
    by (unfold s1; cbn; apply get_set_same).
  rewrite Hloc1 in C2.
  pose proof (keeps_states_detectStatus (thresholds config) a loc now s1)
    as Ks.
  pose proof (keeps_handlers_detectStatus (thresholds config) a loc now s1)
    as Kh.
  rewrite E2 in *. cbn [final fst snd] in *.
  change (MemoryAdapter.states s1) with (MemoryAdapter.states s) in Ks.
  change (MemoryAdapter.eventHandlers s1) with hs in Kh, C2.
  set (st := StatusEngine.determineStatus (thresholds config) loc (Some loc))
    in *.
  destruct C2 as [-> | [-> NC]].
  2: { right.
       erewrite bind_run; [ | reflexivity | | reflexivity ].
       2: { eapply bind_run; [apply onStorage_run; exact E1 | | reflexivity].
            apply bind_throw. apply onStorage_run. exact E2. }
       cbn [result final fst snd app
            LocationMonitorService.storage LocationMonitorService.geoEngine
            LocationMonitorService.initialized].
       repeat split; auto. exists out2, out3. split; reflexivity. }
  set (w2 := {| LocationMonitorService.storage := s2;
                LocationMonitorService.geoEngine := g;
                LocationMonitorService.watchdogEngine := wd;
                LocationMonitorService.initialized := true |}).
  assert (E3 : (if gf_enabled (geofence config)
                then LocationMonitorService.onGeoEngineAndStorage
                       (GeoEngine.checkGeofences a loc)
                else ret tt) now w2 =
               (Ok tt,
                {| LocationMonitorService.storage := s2;
                   LocationMonitorService.geoEngine := g3;
                   LocationMonitorService.watchdogEngine := wd;
                   LocationMonitorService.initialized := true |}, out3) \/
               exists out more,
                 (if gf_enabled (geofence config)
                  then LocationMonitorService.onGeoEngineAndStorage
                         (GeoEngine.checkGeofences a loc)
                  else ret tt) now w2 =
                   (Throw SubscriberRejected, w2, out) /\
                 out3 = out ++ more /\ ~ calm hs).
  { unfold g3, out3. destruct (gf_enabled (geofence config)); [|now left].
    unfold LocationMonitorService.onGeoEngineAndStorage, zoom, w2.
    cbn [LocationMonitorService.geoEngine LocationMonitorService.storage
         LocationMonitorService.watchdogEngine
         LocationMonitorService.initialized].
    destruct (checkGeofences_cases a loc now g s2)
      as [E | (out & more & E & F & NC)]; rewrite E, Kh in *.
    - now left.
    - right. exists out, more. auto. }
  destruct E3 as [E3 | (out & more & E3 & F & NC)].
  - left.
    eapply bind_run; [reflexivity | | reflexivity].
    eapply bind_run; [apply onStorage_run; exact E1 | | reflexivity].
    cbn [LocationMonitorService.storage LocationMonitorService.geoEngine
         LocationMonitorService.watchdogEngine
         LocationMonitorService.initialized].
    eapply bind_run; [apply onStorage_run; exact E2 | | reflexivity].
    cbn [LocationMonitorService.storage LocationMonitorService.geoEngine
         LocationMonitorService.watchdogEngine
         LocationMonitorService.initialized].
    eapply bind_run; [exact E3 | |].
    + eapply bind_run; [ | reflexivity | reflexivity].
      rewrite updateAgentState_run.
      cbn [LocationMonitorService.storage LocationMonitorService.geoEngine
           LocationMonitorService.watchdogEngine
           LocationMonitorService.initialized].
      rewrite Ks. reflexivity.
    + cbn [app]. now rewrite !app_nil_r.
  - right.
    erewrite bind_run; [ | reflexivity | | reflexivity ].
    2: { eapply bind_run; [apply onStorage_run; exact E1 | | reflexivity].
         cbn [LocationMonitorService.storage LocationMonitorService.geoEngine
              LocationMonitorService.watchdogEngine
              LocationMonitorService.initialized].
         eapply bind_run; [apply onStorage_run; exact E2 | | reflexivity].
         apply bind_throw. exact E3. }
    cbn [result final fst snd app w2
         LocationMonitorService.storage LocationMonitorService.geoEngine
         LocationMonitorService.initialized].
    repeat split; auto. exists (out2 ++ out), more.
    split; [reflexivity|]. rewrite F. now rewrite app_assoc.
Qed.
End Stages.

Section Completed.
Context {RT : JS.Runtime}.
Variable config : LocationMonitorConfig.

(** The same when the call completes; it does when the subscribers are
    calm. *)
Lemma trackLocation_completes a lat lon ts meta now w :
  LocationMonitorService.initialized w = true ->
  JS.truthyStr a = true ->
  DistanceCalculator.isValidCoordinate lat lon = true ->
  calm (MemoryAdapter.eventHandlers (LocationMonitorService.storage w)) \/
  (exists x,
     result (LocationMonitorService.trackLocation config a lat lon ts meta
               now w) = Ok x) ->
  exists loc d,
    let s := LocationMonitorService.storage w in
    let g := LocationMonitorService.geoEngine w in
    let s1 := MemoryAdapter.with_stats
                (JSMap.set a (bumped a (timestamp loc) (MemoryAdapter.stats s)))
                (MemoryAdapter.with_locations (JSMap.set a loc) s) in
    let o2 := StatusEngine.detectStatus (thresholds config) a loc now s1 in
    let g3 := if gf_enabled (geofence config) then afterCheck a loc g else g in
    let out3 :=
      if gf_enabled (geofence config)
      then flat_map (turnEvents a loc (GeoEngine.membership a g) now
                       (MemoryAdapter.eventHandlers s))
             (GeoEngine.geofences g)
      else [] in
    LocationMonitorService.trackLocation config a lat lon ts meta now w =
      (Ok loc,
       {| LocationMonitorService.storage :=
            MemoryAdapter.with_states
              (JSMap.set a
                 (snapshotOf a loc
                    (StatusEngine.determineStatus (thresholds config) loc
                       (Some loc))
                    now (JSMap.get a (MemoryAdapter.states s))
                    (zonesOf a g3)))
              (final o2);
          LocationMonitorService.geoEngine := g3;
          LocationMonitorService.watchdogEngine :=
            LocationMonitorService.watchdogEngine w;
          LocationMonitorService.initialized := true |},
       locationDelivery loc d now (MemoryAdapter.eventHandlers s) ::
       snd o2 ++ out3) /\
    loc_agentId loc = a /\ latitude loc = lat /\ longitude loc = lon /\
    metadata loc = meta /\ timestamp loc = stampOf now ts /\
    (JSMap.get a (MemoryAdapter.locations s) = None ->
     speed loc = None /\ heading loc = None /\ d = 0).
Proof.
  intros Hi Ha Hc Hok.
  destruct (trackLocation_stages config a lat lon ts meta now w Hi Ha Hc)
    as (loc & d & [E | (F & NC & _)] & Hfacts).
  - exists loc, d. split; [exact E | exact Hfacts].
  - exfalso. destruct Hok as [C | [x Hx]]; [now apply NC|].
    cbv zeta in F. rewrite Hx in F. discriminate.
Qed.

(** What a [track] with valid input on a started service does whether it
    completes or a subscriber makes it fail: the sample is stored and
    counted. *)
Lemma trackLocation_stores a lat lon ts meta now w :
  LocationMonitorService.initialized w = true ->
  JS.truthyStr a = true ->
  DistanceCalculator.isValidCoordinate lat lon = true ->
  let o := LocationMonitorService.trackLocation config a lat lon ts meta
             now w in
  exists loc,
    (result o = Ok loc \/ result o = Throw SubscriberRejected) /\
    LocationMonitorService.initialized (final o) = true /\
    loc_agentId loc = a /\ latitude loc = lat /\ longitude loc = lon /\
    statsOf (final o) =
      JSMap.set a (bumped a (timestamp loc) (statsOf w)) (statsOf w) /\
    MemoryAdapter.locations (LocationMonitorService.storage (final o)) =
      JSMap.set a loc
        (MemoryAdapter.locations (LocationMonitorService.storage w)).
Proof.
  intros Hi Ha Hc o. subst o.
  destruct (trackLocation_stages config a lat lon ts meta now w Hi Ha Hc)
    as (loc & d & H & Hid & Hlat & Hlon & _).
  cbv zeta in H. exists loc.
  set (s := LocationMonitorService.storage w) in *.
  set (s1 := MemoryAdapter.with_stats _ _) in *.
  pose proof (keeps_locations_detectStatus (thresholds config) a loc now s1)
    as Kl.
  pose proof (keeps_stats_detectStatus (thresholds config) a loc now s1)
    as Kt.
  destruct H as [E | (F & _ & _ & Hs & Hinit & _)].
  - rewrite E. cbn [result final fst snd]. unfold statsOf.
    cbn [LocationMonitorService.storage LocationMonitorService.initialized
         MemoryAdapter.with_states MemoryAdapter.stats
         MemoryAdapter.locations MemoryAdapter.statuses].
    rewrite Kl, Kt. repeat split; auto.
  - rewrite F. split; [now right|]. split; [exact Hinit|].
    split; [exact Hid|]. split; [exact Hlat|]. split; [exact Hlon|].
    unfold statsOf. cbn [final fst snd] in Hs.
    destruct Hs as [-> | ->]; rewrite ?Kl, ?Kt; auto.
Qed.

Lemma trackLocation_rejects a lat lon ts meta now w :
  LocationMonitorService.initialized w = false \/
  JS.truthyStr a = false \/
  DistanceCalculator.isValidCoordinate lat lon = false ->
  exists e,
    LocationMonitorService.trackLocation config a lat lon ts meta now w =
      (Throw e, w, []) /\
    e <> SubscriberRejected.
Proof.
  intros H.
  unfold LocationMonitorService.trackLocation,
    LocationMonitorService.ensureInitialized, LocationMonitorService.onStorage,
    LocationEngine.trackLocation, LocationEngine.validateInput,
    zoom, bind, read, throw, ret.
  destruct w as [s g d i]. cbn in *.
  destruct i; [|eexists; split; [reflexivity | discriminate]].
  destruct H as [H|[H|H]]; [discriminate| |].
  - rewrite H. eexists; split; [reflexivity | discriminate].
  - rewrite H.
    destruct (JS.truthyStr a); eexists; (split; [reflexivity | discriminate]).
Qed.

End Completed.

(** ** Enter and exit events follow the membership index *)

Lemma follow_app i ts1 ts2 :
  follow i (ts1 ++ ts2) =
  match follow i ts1 with
  | Some i' => follow i' ts2
  | None => None
  end.
Proof.
  revert i. induction ts1 as [|t ts1 IH]; intros i; simpl; auto.
  destruct t, i; auto.
Qed.

Lemma transitions_app a z es1 es2 :
  transitions a z (es1 ++ es2) = transitions a z es1 ++ transitions a z es2.
Proof. unfold transitions. apply flat_map_app. Qed.

Lemma transitions_plain a z out :
  Forall plain out -> transitions a z (map event out) = [].
Proof.
  induction 1 as [|d out Hd _ IH]; simpl; auto.
  rewrite IH, app_nil_r. unfold geofenceToken, plain in *.
  destruct (payload (event d)); auto; contradiction.
Qed.

Section Pair.
Context {RT : JS.Runtime}.
Variables (agent zone : string).

(** The events of a whole pass, seen from the pair. *)
Lemma turnEvents_tokens a loc current now hs :
  forall entries,
    NoDup (JSMap.keys entries) ->
    (forall k z, In (k, z) entries -> gf_id z = k) ->
    transitions agent zone
      (map event (flat_map (turnEvents a loc current now hs) entries)) =
    passToken agent zone a loc current entries.
Proof.
  induction entries as [|[k gk] rest IH]; intros ND ID.
  - unfold passToken. simpl. now destruct (String.eqb a agent).
  - inversion ND as [|? ? NI ND']; subst.
    assert (Hk : gf_id gk = k) by (apply ID; now left).
    assert (ID' : forall k z, In (k, z) rest -> gf_id z = k)
      by (intros; apply ID; now right).
    cbn [flat_map]. rewrite map_app, transitions_app, IH by assumption.
    unfold passToken. simpl JSMap.get.
    unfold turnEvents, transitions. cbn [fst snd].
    destruct (String.eqb zone k) eqn:Ez.
    + apply String.eqb_eq in Ez. rewrite <- Ez in NI, Hk |- *.
      apply get_None_keys in NI. rewrite NI.
      destruct (contains loc gk), (JSSet.has zone current);
        cbn; unfold geofenceToken; cbn; rewrite ?Hk, ?String.eqb_refl;
        destruct (String.eqb a agent); reflexivity.
    + destruct (contains loc gk), (JSSet.has k current);
        cbn; unfold geofenceToken; cbn;
        rewrite ?Hk, ?(String.eqb_sym k zone), ?Ez, ?andb_false_r;
        reflexivity.
Qed.

Lemma has_zonesAt_get loc :
  forall entries acc,
    NoDup (JSMap.keys entries) ->
    JSSet.has zone (zonesAt loc entries acc) =
    JSSet.has zone acc ||
    match JSMap.get zone entries with
    | Some gz => contains loc gz
    | None => false
    end.
Proof.
  induction entries as [|[k gk] rest IH]; intros acc ND.
  - simpl. now rewrite orb_false_r.
  - inversion ND as [|? ? NI ND']; subst.
    change (zonesAt loc ((k, gk) :: rest) acc)
      with (zonesAt loc rest
              (if contains loc gk then JSSet.add k acc else acc)).
    rewrite IH by exact ND'. simpl JSMap.get.
    destruct (String.eqb zone k) eqn:Ez.
    + apply String.eqb_eq in Ez. rewrite <- Ez in NI |- *.
      apply get_None_keys in NI. rewrite NI, orb_false_r.
      destruct (contains loc gk); [|now rewrite orb_false_r].
      rewrite has_add, String.eqb_refl. now rewrite !orb_true_r.
    + destruct (contains loc gk); [|reflexivity].
      rewrite has_add, Ez. now rewrite orb_false_r.
Qed.

Lemma membership_set a ids g :
  GeoEngine.membership agent
    {| GeoEngine.geofences := GeoEngine.geofences g;
       GeoEngine.agentGeofences :=
         JSMap.set a ids (GeoEngine.agentGeofences g) |} =
  if String.eqb agent a then ids else GeoEngine.membership agent g.
Proof.
  unfold GeoEngine.membership. simpl.
  destruct (String.eqb agent a) eqn:E.
  - apply String.eqb_eq in E. subst a. now rewrite get_set_same.
  - now rewrite get_set_other.
Qed.

(** A pass that completes leaves the membership of the pair where its
    events lead. *)
Lemma afterCheck_walk a loc now hs g inside :
  GInv agent zone g inside ->
  exists inside',
    GInv agent zone (afterCheck a loc g) inside' /\
    follow inside
      (transitions agent zone
         (map event
            (flat_map (turnEvents a loc (GeoEngine.membership a g) now hs)
               (GeoEngine.geofences g)))) = Some inside'.
Proof.
  intros (ID & ND & NDa & Hin & Hreg).
  exists (JSSet.has zone (GeoEngine.membership agent (afterCheck a loc g))).
  split.
  - split; [exact ID|]. split; [exact ND|].
    split; [now apply NoDup_keys_set|]. split; [reflexivity|].
    unfold afterCheck. rewrite membership_set. unfold JSMap.has.
    destruct (String.eqb agent a).
    + rewrite has_zonesAt_get by exact ND. simpl.
      destruct (JSMap.get zone (GeoEngine.geofences g)); auto.
    + intros H. apply Hreg. congruence.
  - rewrite turnEvents_tokens by assumption.
    unfold afterCheck. rewrite membership_set.
    unfold passToken. rewrite (String.eqb_sym agent a).
    destruct (String.eqb a agent) eqn:Ea.
    + apply String.eqb_eq in Ea. subst a.
      rewrite has_zonesAt_get by exact ND. rewrite Hin. simpl.
      unfold JSMap.has in Hreg.
      destruct (JSMap.get zone (GeoEngine.geofences g)) as [gz|].
      * destruct (contains loc gz), inside; reflexivity.
      * destruct inside; auto. specialize (Hreg eq_refl). discriminate.
    + simpl. now rewrite Hin.
Qed.

Lemma walks_ret A (a : A) : walks agent zone (ret a).
Proof. intros now w inside H. exists inside. auto. Qed.

Lemma walks_stable A (m : M _ A) : geoStable m -> walks agent zone m.
Proof.
  intros [K E] now w inside H. specialize (K now w). specialize (E now w).
  destruct (result (m now w)); [|exact K].
  exists inside. rewrite K. split; auto.
  unfold published. now rewrite transitions_plain.
Qed.

(** A program that leaves the geofence engine alone, followed by one
    that walks. *)
Lemma walks_bind A B (m : M _ A) (f : A -> M _ B) :
  geoStable m -> (forall a, walks agent zone (f a)) ->
  walks agent zone (bind m f).
Proof.
  intros [K E] Hf now w inside H.
  specialize (K now w). specialize (E now w).
  unfold bind, published, final, result in *.
  destruct (m now w) as [[[a|e] w1] out1]; simpl in *; [|exact K].
  rewrite <- K in H. specialize (Hf a now w1 inside H).
  unfold published, final, result in Hf.
  destruct (f a now w1) as [[[b|e] w2] out2]; simpl in *.
  - destruct Hf as (i2 & H2 & F2). exists i2. split; auto.
    rewrite map_app, transitions_app, transitions_plain by exact E.
    exact F2.
  - congruence.
Qed.

(** A program that walks, followed by one that leaves the geofence
    engine alone and cannot fail. *)
Lemma walks_then A B (m : M _ A) (f : A -> M _ B) :
  walks agent zone m ->
  (forall a, geoStable (f a)) ->
  (forall a now w, exists b, result (f a now w) = Ok b) ->
  walks agent zone (bind m f).
Proof.
  intros Hm Hs Ht now w inside H. specialize (Hm now w inside H).
  unfold bind, published, final, result in *.
  destruct (m now w) as [[[a|e] w1] out1]; simpl in *; [|exact Hm].
  destruct Hm as (i1 & H1 & F1).
  destruct (Hs a) as [K E]. specialize (K now w1). specialize (E now w1).
  destruct (Ht a now w1) as (b & Hb).
  unfold final, result in *.
  destruct (f a now w1) as [[r w2] out2]; simpl in *. subst r.
  exists i1. rewrite K. split; auto.
  rewrite map_app, transitions_app, (transitions_plain _ _ E), app_nil_r.
  exact F1.
Qed.

Lemma walks_checkGeofences a loc :
  walks agent zone (LocationMonitorService.onGeoEngineAndStorage
           (GeoEngine.checkGeofences a loc)).
Proof.
  intros now w inside H.
  unfold LocationMonitorService.onGeoEngineAndStorage, zoom, final, published,
    result.
  destruct (checkGeofences_cases a loc now
              (LocationMonitorService.geoEngine w)
              (LocationMonitorService.storage w))
    as [E | (out & more & E & _)]; rewrite E; simpl; [|reflexivity].
  apply afterCheck_walk. exact H.
Qed.
End Pair.

Lemma tokens_app a z h1 h2 :
  tokens a z (h1 ++ h2) = tokens a z h1 ++ tokens a z h2.
Proof. unfold tokens. apply flat_map_app. Qed.

Lemma tokens_published a z out :
  tokens a z (map Published out) = transitions a z (map event out).
Proof.
  induction out as [|d out IH]; simpl; auto.
  unfold tokens, transitions in *. simpl. now rewrite IH.
Qed.

Section Steps.
Context {RT : JS.Runtime}.
Variable config : LocationMonitorConfig.
Variables (agent zone : string).

Lemma walks_trackLocation a lat lon ts meta :
  walks agent zone
    (LocationMonitorService.trackLocation config a lat lon ts meta).
Proof.
  unfold LocationMonitorService.trackLocation.
  apply walks_bind; [stable_auto | intros _].
  apply walks_bind; [stable_auto | intros loc].
  apply walks_bind; [stable_auto | intros st].
  apply walks_then.
  - destruct (gf_enabled (geofence config)).
    + apply walks_checkGeofences.
    + apply walks_ret.
  - intros _. apply stable_bind; [apply stable_updateAgentState|].
    intros _. apply stable_ret.
  - intros _ now w. exists loc. reflexivity.
Qed.

Lemma walks_registerGeofence g0 :
  walks agent zone (LocationMonitorService.registerGeofence g0).
Proof.
  unfold LocationMonitorService.registerGeofence.
  apply walks_bind; [stable_auto | intros _].
  intros now w inside (ID & ND & NDa & Hin & Hreg).
  unfold LocationMonitorService.onGeoEngine, GeoEngine.registerGeofence, zoom.
  destruct (GeoUtils.valid (GeoUtils.validateGeofence g0)); simpl;
    [|reflexivity].
  exists inside. repeat split; simpl; auto.
  - intros k z H. apply In_set in H. destruct H as [[= -> ->]|H]; auto.
  - now apply NoDup_keys_set.
  - intros H. unfold JSMap.has.
    destruct (String.eqb zone (gf_id g0)) eqn:E.
    + apply String.eqb_eq in E. rewrite E. now rewrite get_set_same.
    + rewrite get_set_other by assumption. now apply Hreg.
Qed.

Lemma stepOK_walks op :
  walks agent zone (perform config op) ->
  (forall r, administrative r op = []) ->
  stepOK agent zone config op.
Proof.
  intros Hw Ha now w inside H Hab.
  specialize (Hw now w inside H).
  rewrite Ha, app_nil_r, tokens_published.
  unfold aborted, published in *.
  destruct (result (perform config op now w)); [exact Hw|].
  destruct (transitions agent zone (map event (snd (perform config op now w))));
    [|discriminate].
  exists inside. rewrite Hw. auto.
Qed.

Lemma membership_remove z0 g :
  GeoEngine.membership agent
    {| GeoEngine.geofences := JSMap.delete z0 (GeoEngine.geofences g);
       GeoEngine.agentGeofences :=
         map (fun entry => (fst entry, JSSet.delete z0 (snd entry)))
             (GeoEngine.agentGeofences g) |} =
  JSSet.delete z0 (GeoEngine.membership agent g).
Proof.
  unfold GeoEngine.membership. simpl. rewrite get_map_values.
  now destruct (JSMap.get agent (GeoEngine.agentGeofences g)).
Qed.

Lemma stepOK_removeGeofence z0 :
  stepOK agent zone config (RemoveGeofence z0).
Proof.
  intros now w inside (ID & ND & NDa & Hin & Hreg) _.
  unfold perform, LocationMonitorService.removeGeofence,
    LocationMonitorService.ensureInitialized,
    LocationMonitorService.onGeoEngine, GeoEngine.removeGeofence,
    zoom, bind, read, modify, throw, ret, final, result.
  destruct (LocationMonitorService.initialized w); simpl.
  - rewrite app_nil_r.
    destruct (String.eqb z0 zone) eqn:E; simpl.
    + exists false. split; [|reflexivity].
      unfold GInv. rewrite membership_remove, has_delete, E, andb_false_r.
      cbn [GeoEngine.geofences GeoEngine.agentGeofences].
      rewrite keys_map_values. repeat split; auto.
      * intros k z H. apply In_delete in H. auto.
      * now apply NoDup_keys_delete.
      * discriminate.
    + exists inside. split; [|now destruct inside].
      unfold GInv. rewrite membership_remove, has_delete, E, andb_true_r.
      cbn [GeoEngine.geofences GeoEngine.agentGeofences].
      rewrite keys_map_values. repeat split; auto.
      * intros k z H. apply In_delete in H. auto.
      * now apply NoDup_keys_delete.
      * intros H. unfold JSMap.has.
        rewrite get_delete_other by (now rewrite String.eqb_sym).
        now apply Hreg.
  - exists inside. repeat split; auto.
Qed.

Lemma stepOK_clearAgentData a0 :
  stepOK agent zone config (ClearAgentData a0).
Proof.
  intros now w inside (ID & ND & NDa & Hin & Hreg) _.
  unfold perform, LocationMonitorService.clearAgentData,
    LocationMonitorService.ensureInitialized,
    LocationMonitorService.onGeoEngine, LocationMonitorService.onStorage,
    GeoEngine.clearAgentGeofences, MemoryAdapter.clearAgentData,
    zoom, bind, read, modify, throw, ret, final, result.
  destruct (LocationMonitorService.initialized w); simpl.
  - rewrite app_nil_r.
    destruct (String.eqb a0 agent) eqn:E; simpl.
    + apply String.eqb_eq in E. subst a0.
      exists false. split; [|reflexivity].
      unfold GInv, GeoEngine.membership in *.
      cbn [GeoEngine.geofences GeoEngine.agentGeofences].
      rewrite get_delete_same by assumption.
      repeat split; auto.
      * now apply NoDup_keys_delete.
      * discriminate.
    + exists inside. split; [|now destruct inside].
      unfold GInv, GeoEngine.membership in *.
      cbn [GeoEngine.geofences GeoEngine.agentGeofences].
      rewrite get_delete_other by (now rewrite String.eqb_sym).
      repeat split; auto.
      now apply NoDup_keys_delete.
  - exists inside. repeat split; auto.
Qed.

Lemma perform_stepOK op : stepOK agent zone config op.
Proof.
  destruct op;
    try (apply stepOK_walks; [|reflexivity || (intros [|]; reflexivity)]).
  - apply walks_stable. unfold perform, LocationMonitorService.initialize,
      MemoryAdapter.initialize, WatchdogEngine.start. stable_auto.
  - apply walks_stable. unfold perform, LocationMonitorService.shutdown,
      MemoryAdapter.disconnect, WatchdogEngine.stop. stable_auto.
  - unfold perform. apply walks_then.
    + apply walks_trackLocation.
    + intros _. apply stable_ret.
    + intros _ now w. exists tt. reflexivity.
  - apply walks_stable.
    unfold perform, LocationMonitorService.setStatus. stable_auto.
  - apply walks_registerGeofence.
  - apply stepOK_removeGeofence.
  - apply stepOK_clearAgentData.
  - apply walks_stable.
    unfold perform, LocationMonitorService.forceWatchdogCheck,
      WatchdogEngine.forceCheck. stable_auto.
  - apply walks_stable.
    unfold perform, LocationMonitorService.forceWatchdogCheckAll,
      WatchdogEngine.forceCheckAll. stable_auto.
  - apply walks_stable.
    unfold perform, LocationMonitorService.subscribeEvents,
      MemoryAdapter.subscribeEvents. stable_auto.
  - apply walks_stable.
    unfold perform, LocationMonitorService.unsubscribeEvents,
      MemoryAdapter.unsubscribeEvents. stable_auto.
  - apply walks_stable.
    unfold perform, LocationMonitorService.watchdogTick,
      WatchdogEngine.isActive. stable_auto.
Qed.

Lemma history_follows calls :
  forall w inside,
    GInv agent zone (LocationMonitorService.geoEngine w) inside ->
    abortFree agent zone config w calls = true ->
    exists inside',
      follow inside (tokens agent zone (history config w calls)) =
        Some inside'.
Proof.
  induction calls as [|[now op] calls IH]; intros w inside H Hfree.
  - exists inside. reflexivity.
  - cbn [abortFree] in Hfree. cbv zeta in Hfree.
    apply andb_prop in Hfree. destruct Hfree as [Hab Hfree].
    apply negb_true_iff in Hab.
    pose proof (perform_stepOK op) as Hop. unfold stepOK in Hop.
    destruct (Hop now w inside H Hab) as (i1 & H1 & F1).
    destruct (IH _ _ H1 Hfree) as (i2 & F2).
    exists i2. cbn [history]. cbv zeta.
    rewrite app_assoc, tokens_app, follow_app, F1. exact F2.
Qed.
End Steps.

(** ** The statistics count the stored samples *)

Section Track.
Context {RT : JS.Runtime}.
Variable config : LocationMonitorConfig.
Variable agent : string.

Lemma statsAgree_keeps A (m : M LocationMonitorService.t A) now w n :
  keeps statsOf m -> statsAgree agent w n -> statsAgree agent (final (m now w)) n.
Proof. intros K H. unfold statsAgree. now rewrite (K now w). Qed.

Lemma perform_statsAgree op now w n :
  statsAgree agent w n ->
  statsAgree agent (final (perform config op now w))
    (tallyStep agent n op (result (perform config op now w))).
Proof.
  intros H.
  destruct op as [ | | agentId lat lon ts meta | agentId st reason | g0
                 | zoneId | agentId | agentId | | handler | | ];
    cbn [tallyStep];
    try (apply statsAgree_keeps; [|exact H]).
  - (* Initialize *)
    unfold perform, LocationMonitorService.initialize,
      MemoryAdapter.initialize. keeps_auto.
  - (* Shutdown *)
    destruct w as [s g [running] i].
    destruct running; cbv; split; constructor.
  - (* Track *)
    unfold perform.
    destruct (LocationMonitorService.initialized w) eqn:Hi;
      [destruct (JS.truthyStr agentId) eqn:Ha;
       [destruct (DistanceCalculator.isValidCoordinate lat lon)
          eqn:Hc|]|].
    + destruct (trackLocation_stores config agentId lat lon ts meta now w
                  Hi Ha Hc)
        as (loc & Hr & _ & _ & _ & _ & Hs & _).
      unfold bind, result, final in *.
      destruct (LocationMonitorService.trackLocation config agentId lat lon
                  ts meta now w) as [[r w'] out].
      cbn [fst snd] in *.
      assert (G : statsAgree agent w'
                    (if String.eqb agentId agent then S n else n)).
      { destruct H as [ND H]. unfold statsAgree. rewrite Hs.
        split; [now apply NoDup_keys_set|].
        destruct (String.eqb agentId agent) eqn:Eq.
        * apply String.eqb_eq in Eq. subst agentId.
          rewrite get_set_same. unfold bumped. cbn.
          destruct (JSMap.get agent (statsOf w)) as [st|], n; cbn in *;
            try discriminate; try reflexivity.
          injection H as H1 H2. now rewrite H1, H2.
        * rewrite get_set_other by (now rewrite String.eqb_sym). exact H. }
      destruct Hr as [-> | ->]; exact G.
    + destruct (trackLocation_rejects config agentId lat lon ts meta now w
                  (or_intror (or_intror Hc))) as (e & E & He).
      unfold bind, result, final. rewrite E. cbn [fst snd].
      destruct e; try exact H. contradiction.
    + destruct (trackLocation_rejects config agentId lat lon ts meta now w
                  (or_intror (or_introl Ha))) as (e & E & He).
      unfold bind, result, final. rewrite E. cbn [fst snd].
      destruct e; try exact H. contradiction.
    + destruct (trackLocation_rejects config agentId lat lon ts meta now w
                  (or_introl Hi)) as (e & E & He).
      unfold bind, result, final. rewrite E. cbn [fst snd].
      destruct e; try exact H. contradiction.
  - (* SetStatus *)
    unfold perform, LocationMonitorService.setStatus. keeps_auto.
  - (* RegisterGeofence *)
    unfold perform, LocationMonitorService.registerGeofence. keeps_auto.
  - (* RemoveGeofence *)
    unfold perform, LocationMonitorService.removeGeofence. keeps_auto.
  - (* ClearAgentData *)
    destruct H as [ND H]. destruct w as [s g d i].
    unfold perform, LocationMonitorService.clearAgentData,
      LocationMonitorService.ensureInitialized,
      LocationMonitorService.onGeoEngine, LocationMonitorService.onStorage,
      GeoEngine.clearAgentGeofences, MemoryAdapter.clearAgentData,
      zoom, bind, read, modify, throw, ret, final, result, statsAgree, statsOf
      in *.
    destruct i; cbn in *; [|split; assumption].
    split; [now apply NoDup_keys_delete|].
    destruct (String.eqb agentId agent) eqn:Eq.
    + apply String.eqb_eq in Eq. subst agentId.
      now rewrite get_delete_same.
    + rewrite get_delete_other by (now rewrite String.eqb_sym). exact H.
  - (* ForceWatchdogCheck *)
    unfold perform, LocationMonitorService.forceWatchdogCheck,
      WatchdogEngine.forceCheck. keeps_auto.
  - (* ForceWatchdogCheckAll *)
    unfold perform, LocationMonitorService.forceWatchdogCheckAll,
      WatchdogEngine.forceCheckAll. keeps_auto.
  - (* SubscribeEvents *)
    unfold perform, LocationMonitorService.subscribeEvents,
      MemoryAdapter.subscribeEvents. keeps_auto.
  - (* UnsubscribeEvents *)
    unfold perform, LocationMonitorService.unsubscribeEvents,
      MemoryAdapter.unsubscribeEvents. keeps_auto.
  - (* WatchdogTick *)
    unfold perform, LocationMonitorService.watchdogTick. keeps_auto.
Qed.

Lemma runFrom_statsAgree calls :
  forall w n,
    statsAgree agent w n ->
    statsAgree agent (runFrom config w calls)
      (acceptedSinceErase agent config w calls n).
Proof.
  induction calls as [|[now op] calls IH]; intros w n H; cbn.
  - exact H.
  - apply IH. now apply perform_statsAgree.
Qed.
End Track.

(** ** Status changes that change nothing *)

Lemma real_updateStatus a old new ts reason :
  AgentStatus_eqb old new = false ->
  emitsOnly real (StatusEngine.updateStatus a old new ts reason).
Proof.
  intros H.
  unfold StatusEngine.updateStatus, StatusEngine.emitSpecificStatusEvents,
    MemoryAdapter.saveStatus, MemoryAdapter.getAgentState.
  emits_auto.
Qed.

(** The watchdog's check never publishes a [status.changed] whose two
    statuses are equal. *)
Lemma real_checkStatusByTime th a :
  emitsOnly real (StatusEngine.checkStatusByTime th a).
Proof.
  unfold StatusEngine.checkStatusByTime, MemoryAdapter.getAgentState.
  apply emitsOnly_bind; [apply emitsOnly_read | intros [st|]];
    [|apply emitsOnly_ret].
  destruct (negb (JS.truthy (lastUpdate st))); [apply emitsOnly_ret|].
  apply emitsOnly_bind; [apply emitsOnly_getNow | intros now].
  apply emitsOnly_bind; [|intros; apply emitsOnly_ret].
  destruct (AgentStatus_eqb (status st) (StatusEngine.statusByTime th now st))
    eqn:E; cbn [negb].
  - apply emitsOnly_ret.
  - now apply real_updateStatus.
Qed.

(** Neither does [setStatus] for an agent that has a persisted status;
    the event of C3 needs an agent without one. *)
Lemma real_setStatus_when_persisted a st reason now s cur :
  JSMap.get a (MemoryAdapter.statuses s) = Some cur ->
  Forall real (snd (StatusEngine.setStatus a st reason now s)).
Proof.
  intros Hcur.
  unfold StatusEngine.setStatus, MemoryAdapter.getStatus, bind at 1, read.
  rewrite Hcur. cbn [option_map]. unfold bind at 1, getNow.
  cbn [StatusEngine.differs StatusEngine.orElse].
  destruct (AgentStatus_eqb (se_status cur) st) eqn:E; cbn [negb].
  - constructor.
  - pose proof (@real_updateStatus a (se_status cur) st now reason E now s)
      as H.
    destruct (StatusEngine.updateStatus a (se_status cur) st now reason now s)
      as [[r s1] out1]. exact H.
Qed.

(** ** The claims *)

(** C1. On a fresh, started service with the default thresholds the
    first [track] of an agent returns a sample with the coordinates it
    was given, but the status read back right after is [STOPPED], not
    [ACTIVE]: the sample is stored before the status engine looks for a
    prior sample, so the engine compares the sample with itself.  This
    holds with every runtime. *)
Theorem C1_first_track_leaves_STOPPED (RT : JS.Runtime) :
  result Scenario.firstTrack =
    Ok {| loc_agentId := "a"; latitude := 40.7128; longitude := -74.0060;
          timestamp := Scenario.t0; speed := None; heading := None;
          metadata := None |} /\
  result (LocationMonitorService.getStatus "a" Scenario.t0
            (final Scenario.firstTrack)) = Ok (Some STOPPED) /\
  map type (published Scenario.firstTrack) =
    [LOCATION_RECEIVED; STATUS_CHANGED].
Proof.
  repeat split; vm_compute; reflexivity.
Qed.

(** C1 and C2, in general: for every [track] that completes, with any
    runtime, configuration and prior state, the status persisted for the
    agent is the classification of the new sample against itself
    ([determineStatus location (Some location)]).  The "first location"
    branch of [determineStatus] is therefore never taken, and its "back
    online" branch compares a timestamp with itself.  A [track] with
    valid input on a started service completes when no subscriber rejects
    its events. *)
Lemma trackLocation_classifies_against_itself (RT : JS.Runtime)
    (config : LocationMonitorConfig) a lat lon ts meta now w :
  LocationMonitorService.initialized w = true ->
  JS.truthyStr a = true ->
  DistanceCalculator.isValidCoordinate lat lon = true ->
  let o := LocationMonitorService.trackLocation config a lat lon ts meta
             now w in
  (calm (MemoryAdapter.eventHandlers (LocationMonitorService.storage w)) ->
   exists loc, result o = Ok loc) /\
  forall loc,
    result o = Ok loc ->
    latitude loc = lat /\ longitude loc = lon /\
    result (LocationMonitorService.getStatus a now (final o)) =
      Ok (Some (StatusEngine.determineStatus (thresholds config) loc
                  (Some loc))).
Proof.
  intros Hi Ha Hc o. subst o. split.
  - intros C.
    destruct (trackLocation_completes config a lat lon ts meta now w Hi Ha Hc
                (or_introl C)) as (loc & d & E & _).
    cbv zeta in E. exists loc. now rewrite E.
  - intros loc0 Hok.
    destruct (trackLocation_completes config a lat lon ts meta now w Hi Ha Hc
                (or_intror (ex_intro _ loc0 Hok)))
      as (loc & d & E & _ & Hlat & Hlon & _).
    cbv zeta in E. rewrite E in Hok |- *. cbn [result final fst snd] in *.
    injection Hok as <-.
    split; [exact Hlat|]. split; [exact Hlon|].
    set (s1 := MemoryAdapter.with_stats _ _).
    destruct (detectStatus_run (thresholds config) a loc now s1)
      as (r2 & s2 & out2 & E2 & Hst & _).
    assert (Hloc1 : JSMap.get a (MemoryAdapter.locations s1) = Some loc)
      by (unfold s1; cbn; apply get_set_same).
    rewrite Hloc1 in Hst. rewrite E2. cbn [final fst snd].
    unfold LocationMonitorService.getStatus,
      LocationMonitorService.ensureInitialized,
      LocationMonitorService.onStorage,
      StatusEngine.getStatus, MemoryAdapter.getStatus, zoom, bind, read, ret.
    cbn. now rewrite Hst.
Qed.

(** C2. With the default thresholds ([unreachableAfter] = 30 s): agent
    ["a"] reports, stays silent for 40 s, the watchdog marks it
    [UNREACHABLE], and it reports again from the same place.  The second
    [track] leaves the status [STOPPED], outside of {ACTIVE, MOVING}, and
    publishes no [agent.back-online] event. *)
Theorem C2_track_after_silence_leaves_STOPPED :
  result (LocationMonitorService.getStatus "a" Scenario.t0
            (final Scenario.silentCheck)) = Ok (Some UNREACHABLE) /\
  map type (published Scenario.silentCheck) =
    [STATUS_CHANGED; AGENT_UNREACHABLE] /\
  option_map timestamp
    (JSMap.get "a" (MemoryAdapter.locations
                      (LocationMonitorService.storage
                         (final Scenario.silentCheck)))) =
    Some Scenario.t0 /\
  result (LocationMonitorService.getStatus "a" Scenario.t0
            (final Scenario.trackAfterSilence)) = Ok (Some STOPPED) /\
  map type (published Scenario.trackAfterSilence) =
    [LOCATION_RECEIVED; STATUS_CHANGED].
Proof.
  repeat split; vm_compute; reflexivity.
Qed.

(** C3. [setStatus("a", OFFLINE)] on an agent without a persisted status
    publishes exactly one event, a [status.changed] whose [oldStatus] and
    [newStatus] are both [OFFLINE]. *)
Theorem C3_setStatus_publishes_noop_change (RT : JS.Runtime) :
  map (fun e => (type e, payload e)) (published Scenario.setOfflineOnFresh) =
    [ (STATUS_CHANGED,
       PStatusChange {| sc_agentId := "a"; oldStatus := OFFLINE;
                        newStatus := OFFLINE; sc_timestamp := Scenario.t0;
                        reason := None |}) ].
Proof.
  vm_compute. reflexivity.
Qed.

(** C4.  The moving agent of S2, silent for 700 s with the default
    thresholds: its snapshot is older than [offlineAfter] (600 s) and
    says MOVING.  The watchdog's check returns [IDLE], persists [IDLE]
    and publishes [status.changed] (MOVING to IDLE) and [agent.idle]: the
    offline check fires, and the idle check, which runs after it,
    overwrites its result. *)
Theorem C4_long_silence_yields_IDLE :
  option_map
    (fun st =>
       (status st,
        TimeUtils.isOlderThan Scenario.longSilence (lastUpdate st)
          (offlineAfter (thresholds DEFAULT_CONFIG))))
    (JSMap.get "a"
       (MemoryAdapter.states
          (LocationMonitorService.storage (final Scenario.secondTrack)))) =
    Some (MOVING, true) /\
  result Scenario.checkAfterLongSilence = Ok IDLE /\
  result (MemoryAdapter.getStatus "a" Scenario.longSilence
            (final Scenario.checkAfterLongSilence)) = Ok (Some IDLE) /\
  map (fun e => (type e,
                 match payload e with
                 | PStatusChange p => Some (oldStatus p, newStatus p)
                 | _ => None
                 end)) (published Scenario.checkAfterLongSilence) =
    [(STATUS_CHANGED, Some (MOVING, IDLE)); (AGENT_IDLE, None)].
Proof.
  repeat split; vm_compute; reflexivity.
Qed.

(** C4, in general.  When the snapshot's [lastUpdate] is older than
    [offlineAfter] and its status is not [OFFLINE], [checkStatusByTime]
    persists [OFFLINE] only if the idle check does not fire; if it fires
    ([lastMovement] is set and older than [idleAfter], and the status is
    [ACTIVE] or [MOVING]) it persists [IDLE].  The status is written
    before the events are published, so it is persisted also when a
    subscriber makes the call fail.  A [lastUpdate] of 0 counts as no
    snapshot: the result is [OFFLINE], nothing is written and nothing is
    published. *)
Lemma checkStatusByTime_past_offlineAfter (th : ThresholdConfig)
    (agentId : string) (now : float) (s : MemoryAdapter.t)
    (st : AgentStateSnapshot) :
  JSMap.get agentId (MemoryAdapter.states s) = Some st ->
  TimeUtils.isOlderThan now (lastUpdate st) (offlineAfter th) = true ->
  status st <> OFFLINE ->
  let o := StatusEngine.checkStatusByTime th agentId now s in
  let newStatus := if idleCheckFires th now st then IDLE else OFFLINE in
  if JS.truthy (lastUpdate st)
  then
    (result o = Ok newStatus \/
     result o = Throw SubscriberRejected /\
     ~ calm (MemoryAdapter.eventHandlers s)) /\
    result (MemoryAdapter.getStatus agentId now (final o)) =
      Ok (Some newStatus)
  else o = (Ok OFFLINE, s, []).
Proof.
  intros Hget Hold Hst o newStatus. subst o newStatus.
  rewrite checkStatusByTime_exact, Hget.
  destruct (JS.truthy (lastUpdate st)) eqn:T; cbn [negb]; [|reflexivity].
  cbv zeta. rewrite (@statusByTime_offline th now st Hold Hst).
  set (new := if idleCheckFires th now st then IDLE else OFFLINE).
  assert (Hd : negb (AgentStatus_eqb (status st) new) = true).
  { apply negb_true_iff, AgentStatus_eqb_neq. subst new.
    unfold idleCheckFires.
    destruct (lastMovement st) as [lm|]; simpl; auto.
    destruct (JS.truthy lm && TimeUtils.isOlderThan now lm (idleAfter th));
      simpl; auto.
    destruct (status st); simpl; congruence. }
  rewrite Hd.
  destruct (@updateStatus_run agentId (status st) new now None now s)
    as (r & out & E & C).
  rewrite E. unfold MemoryAdapter.getStatus, read, result, final.
  cbn [fst snd MemoryAdapter.with_statuses MemoryAdapter.statuses].
  rewrite get_set_same. cbn [option_map se_status].
  destruct C as [-> | [-> NC]]; auto.
Qed.

(** C5, as stated, fails: agent ["a"] enters the zone ["hq"]; then either
    its data is cleared, or the zone is removed and registered again;
    the agent reports from the same place and a second enter event is
    published with no exit in between. *)
Lemma C5_counterexample_enter_twice :
  transitions "a" "hq"
    (eventsOf (history DEFAULT_CONFIG LocationMonitorService.new
                 Scenario.clearedRun)) = [TEnter; TEnter] /\
  transitions "a" "hq"
    (eventsOf (history DEFAULT_CONFIG LocationMonitorService.new
                 Scenario.removedRun)) = [TEnter; TEnter] /\
  follow false [TEnter; TEnter] = None.
Proof.
  repeat split; vm_compute; reflexivity.
Qed.

(** The geofence engine of a new service, seen from any pair. *)
Lemma GInv_new agent zone :
  GInv agent zone
    (LocationMonitorService.geoEngine LocationMonitorService.new) false.
Proof.
  split; [intros k z []|]. repeat split; try constructor. discriminate.
Qed.

(** C5, amended.  Over any run of the service from its construction in
    which no call fails after it has published an enter or exit event of
    the pair, with any runtime and configuration, and for every agent and
    zone: the enter/exit events of the pair, read together with the
    successful [removeGeofence] calls for the zone and [clearAgentData]
    calls for the agent, start with an enter, never have two exits
    without an enter in between, and have two enters without an exit in
    between only across such a call. *)
Theorem C5_enter_exit_alternate_up_to_resets (RT : JS.Runtime)
    (config : LocationMonitorConfig) (calls : list (float * Op))
    (agent zone : string) :
  abortFree agent zone config LocationMonitorService.new calls = true ->
  alternates
    (tokens agent zone (history config LocationMonitorService.new calls)).
Proof.
  intros Hfree. unfold alternates.
  destruct (@history_follows RT config agent zone calls
              LocationMonitorService.new false (GInv_new agent zone) Hfree)
    as (inside & F).
  rewrite F. discriminate.
Qed.

Lemma C5_witness :
  abortFree "a" "hq" DEFAULT_CONFIG LocationMonitorService.new
    Scenario.clearedRun = true /\
  alternates
    (tokens "a" "hq"
       (history DEFAULT_CONFIG LocationMonitorService.new
          Scenario.clearedRun)).
Proof.
  split; [vm_compute; reflexivity|].
  apply C5_enter_exit_alternate_up_to_resets. vm_compute. reflexivity.
Defined.

(** Why the run must be free of such failures.  [publishEvent] awaits
    the promises of the subscribers, so a promise that rejects makes the
    [track] fail; [checkGeofences] records the membership only after its
    loop.  With the subscriber [Scenario.touchy], the first [track] from
    inside [hq] publishes the enter event, fails, and leaves agent ["a"]
    outside of [hq] for [getAgentGeofences]; the second [track] publishes
    the enter event again. *)
Lemma rejected_enter_is_published_again :
  map (fun o => match o with
                | Published d => Some (type (event d), receivers d)
                | _ => None
                end)
    (history DEFAULT_CONFIG LocationMonitorService.new Scenario.rejectedRun)
    = [ Some (LOCATION_RECEIVED, [Scenario.touchy]);
        Some (STATUS_CHANGED, [Scenario.touchy]);
        Some (AGENT_ENTERED_GEOFENCE, [Scenario.touchy]);
        Some (LOCATION_RECEIVED, [Scenario.touchy]);
        Some (AGENT_ENTERED_GEOFENCE, [Scenario.touchy]) ] /\
  result (perform DEFAULT_CONFIG (Track "a" 40.7128 (-74.0060) None None)
            (Scenario.t0 + 1000)
            (runFrom DEFAULT_CONFIG LocationMonitorService.new
               (firstn 3 Scenario.rejectedRun))) =
    Throw SubscriberRejected /\
  result (LocationMonitorService.getAgentGeofences "a" Scenario.t0
            (runFrom DEFAULT_CONFIG LocationMonitorService.new
               (firstn 4 Scenario.rejectedRun))) = Ok [] /\
  tokens "a" "hq"
    (history DEFAULT_CONFIG LocationMonitorService.new Scenario.rejectedRun)
    = [TEnter; TEnter] /\
  abortFree "a" "hq" DEFAULT_CONFIG LocationMonitorService.new
    Scenario.rejectedRun = false.
Proof.
  repeat split; vm_compute; reflexivity.
Qed.

Lemma tokens_resetFree agent zone h :
  resetFree agent zone h ->
  tokens agent zone h = transitions agent zone (eventsOf h).
Proof.
  induction 1 as [|o h Ho _ IH]; [reflexivity|].
  unfold tokens, transitions, eventsOf in *. cbn [flat_map].
  rewrite IH. destruct o as [d|z|a]; simpl.
  - reflexivity.
  - now rewrite Ho.
  - now rewrite Ho.
Qed.

(** In such a run where, moreover, the zone is never removed and the
    agent's data never cleared, the events alone alternate strictly,
    starting with an enter. *)
Lemma strict_alternation_without_resets (RT : JS.Runtime)
    (config : LocationMonitorConfig) (calls : list (float * Op))
    (agent zone : string) :
  abortFree agent zone config LocationMonitorService.new calls = true ->
  resetFree agent zone (history config LocationMonitorService.new calls) ->
  alternates
    (transitions agent zone
       (eventsOf (history config LocationMonitorService.new calls))).
Proof.
  intros Hfree H. rewrite <- (tokens_resetFree H). unfold alternates.
  destruct (@history_follows RT config agent zone calls
              LocationMonitorService.new false (GInv_new agent zone) Hfree)
    as (inside & F).
  rewrite F. discriminate.
Qed.

(** C6. After the two accepted samples of S1 and S2 the agent's stored
    statistics count 2 samples, and [totalDistance] is 0, although the
    two samples are about 1112 m apart, as the [location.received] event
    of the second one reports. *)
Theorem C6_totalDistance_stays_zero :
  result (LocationMonitorService.getAgentStats "a" Scenario.t0
            (final Scenario.secondTrack)) =
    Ok (Some {| totalLocations := 2; totalDistance := 0;
                stats_lastUpdate := Scenario.t0 + 60000 |}) /\
  map (fun e => match payload e with
                | PLocationReceived p => Some (distanceTraveled p)
                | _ => None
                end) (published Scenario.secondTrack) =
    [Some Scenario.segment; None] /\
  (Scenario.segment >? 1111) = true /\
  (Scenario.segment <? 1112) = true.
Proof.
  repeat split; vm_compute; reflexivity.
Qed.

(** C6, in general: over any run of the service from its construction,
    with any runtime and configuration, the stored statistics of an agent
    count the samples accepted for it since its data was last erased (by
    [clearAgentData] or by disconnecting the driver), there is no entry
    when there is no such sample, and [totalDistance] is 0. *)
Lemma stats_count_samples_and_no_distance (RT : JS.Runtime)
    (config : LocationMonitorConfig) (calls : list (float * Op))
    (agent : string) :
  option_map (fun st => (totalLocations st, totalDistance st))
    (JSMap.get agent
       (statsOf (runFrom config LocationMonitorService.new calls))) =
  match acceptedSinceErase agent config LocationMonitorService.new calls 0 with
  | O => None
  | S n => Some (S n, 0)
  end.
Proof.
  destruct (@runFrom_statsAgree RT config agent calls
              LocationMonitorService.new 0) as [_ H].
  - split; [constructor | reflexivity].
  - rewrite H.
    now destruct (acceptedSinceErase agent config LocationMonitorService.new
                    calls 0).
Qed.

(** C7, as stated, fails when the id is already registered: registering
    a zone with the id of a registered one overwrites it, and removing it
    leaves the registry without the zone that was there before. *)
Lemma C7_counterexample_overwritten_zone :
  result (LocationMonitorService.getGeofences Scenario.t0
            Scenario.withOldZone) = Ok [Scenario.oldZone] /\
  result
    (LocationMonitorService.getGeofences Scenario.t0
       (final (LocationMonitorService.removeGeofence
                 (gf_id Scenario.newZone) Scenario.t0
                 (final (LocationMonitorService.registerGeofence
                           Scenario.newZone Scenario.t0
                           Scenario.withOldZone))))) = Ok [].
Proof.
  split; vm_compute; reflexivity.
Qed.

(** C7, amended.  For every zone whose id is not registered, and every
    state of the service, registering the zone and then removing it
    leaves [getGeofences] with the result it had before.  (The zone need
    not be valid, nor the service initialized: the calls that fail change
    nothing.) *)
Theorem C7_register_then_remove_fresh_id (w : LocationMonitorService.t)
    (now1 now2 now3 : float) (geofence : Geofence) :
  JSMap.get (gf_id geofence)
    (GeoEngine.geofences (LocationMonitorService.geoEngine w)) = None ->
  result
    (LocationMonitorService.getGeofences now3
       (final (LocationMonitorService.removeGeofence (gf_id geofence) now2
                 (final (LocationMonitorService.registerGeofence geofence
                           now1 w))))) =
  result (LocationMonitorService.getGeofences now3 w).
Proof.
  intros Hfresh.
  unfold LocationMonitorService.getGeofences,
    LocationMonitorService.removeGeofence,
    LocationMonitorService.registerGeofence,
    LocationMonitorService.ensureInitialized,
    LocationMonitorService.onGeoEngine, GeoEngine.getGeofences,
    GeoEngine.removeGeofence, GeoEngine.registerGeofence,
    zoom, bind, read, modify, throw, ret, final, result.
  destruct w as [s g d i]. cbv zeta.
  destruct (GeoUtils.valid (GeoUtils.validateGeofence geofence));
    destruct i; simpl in *; try reflexivity.
  - now rewrite delete_set_fresh.
  - now rewrite delete_absent.
Qed.

Lemma C7_witness :
  result
    (LocationMonitorService.getGeofences Scenario.t0
       (final (LocationMonitorService.removeGeofence (gf_id Scenario.hq)
                 Scenario.t0
                 (final (LocationMonitorService.registerGeofence Scenario.hq
                           Scenario.t0 Scenario.started))))) =
  result (LocationMonitorService.getGeofences Scenario.t0 Scenario.started).
Proof.
  apply C7_register_then_remove_fresh_id. reflexivity.
Defined.

(** C8.  On an initialized service, with any runtime, configuration and
    state: a [track] with an empty agent id, or with a latitude below
    -90 or above 90, a longitude below -180 or above 180, or a NaN
    coordinate, throws an invalid-input error, leaves the whole state of
    the service as it was (stored locations, statuses, snapshots and
    statistics included) and publishes no event. *)
Theorem C8_invalid_track_changes_nothing (RT : JS.Runtime)
    (config : LocationMonitorConfig) (w : LocationMonitorService.t)
    (now : float) (agentId : string) (latitude longitude : float)
    (timestamp : option float) (metadata : option Metadata) :
  LocationMonitorService.initialized w = true ->
  agentId = "" \/ invalidCoordinate latitude longitude ->
  exists e,
    LocationMonitorService.trackLocation config agentId latitude longitude
      timestamp metadata now w = (Throw e, w, []) /\
    isInvalidInput e = true.
Proof.
  intros Hinit Hbad.
  unfold LocationMonitorService.trackLocation,
    LocationMonitorService.ensureInitialized, LocationMonitorService.onStorage,
    LocationEngine.trackLocation, LocationEngine.validateInput,
    zoom, bind, read, throw, ret.
  rewrite Hinit. destruct w as [s g d i]. simpl.
  destruct Hbad as [-> | Hbad].
  - simpl. eexists. split; reflexivity.
  - rewrite (invalidCoordinate_rejected Hbad).
    destruct (JS.truthyStr agentId); simpl; eexists; split; reflexivity.
Qed.

Lemma C8_witness :
  exists e,
    LocationMonitorService.trackLocation DEFAULT_CONFIG "a" 91 0 None None
      Scenario.t0 (final Scenario.firstTrack) =
      (Throw e, final Scenario.firstTrack, []) /\
    isInvalidInput e = true.
Proof.
  apply C8_invalid_track_changes_nothing.
  - vm_compute. reflexivity.
  - right. right. left. vm_compute. reflexivity.
Defined.

(** What [validateGeofence] checks on a disc, exactly: the id and the
    name are not empty, [radius <= 0] is false and none of the four range
    comparisons on the center is true.  A NaN makes every comparison
    false, so a NaN radius or center passes. *)
Lemma validateGeofence_circular g :
  GeoUtils.valid (GeoUtils.validateGeofence (Circular g)) =
  JS.truthyStr (cg_id g) && JS.truthyStr (cg_name g) &&
  negb (radius g <=? 0) && negb (GeoUtils.outOfRange (center g)).
Proof.
  unfold GeoUtils.validateGeofence. cbn [gf_id gf_name GeoUtils.valid].
  destruct (JS.truthyStr (cg_id g)), (JS.truthyStr (cg_name g)),
    (radius g <=? 0), (GeoUtils.outOfRange (center g)); reflexivity.
Qed.

(** C9. [validateGeofence] accepts a named disc of radius 100 whose
    center is (NaN, NaN), a center that [isValidCoordinate] rejects, and
    [registerGeofence] stores it. *)
Theorem C9_validateGeofence_accepts_NaN_center :
  GeoUtils.validateGeofence Scenario.nanZone =
    {| GeoUtils.valid := true; GeoUtils.errors := [] |} /\
  DistanceCalculator.isValidCoordinate JS.NaN JS.NaN = false /\
  result (LocationMonitorService.getGeofences Scenario.t0
            (final (LocationMonitorService.registerGeofence
                      Scenario.nanZone Scenario.t0 Scenario.started))) =
    Ok [Scenario.nanZone].
Proof.
  repeat split; vm_compute; reflexivity.
Qed.

(** C10, as stated, fails for [getAgentGeofences]: agent ["a"] enters
    [hq], the service is shut down and started again.  The driver has
    forgotten the agent, but the geofence engine has not: it still
    reports the agent inside [hq]. *)
Lemma C10_counterexample_zones_survive_restart :
  let up := runFrom DEFAULT_CONFIG LocationMonitorService.new
              Scenario.restartedRun in
  result (LocationMonitorService.getAllAgents Scenario.t0 up) = Ok [] /\
  result (LocationMonitorService.getLocation "a" Scenario.t0 up) = Ok None /\
  result (LocationMonitorService.getAgentGeofences "a" Scenario.t0 up) =
    Ok [Scenario.hq].
Proof.
  repeat split; vm_compute; reflexivity.
Qed.

(** C10, amended.  From any state of the service: [shutdown] succeeds
    and leaves the in-memory driver as a new one (no location, status,
    snapshot or statistics entry, no subscriber) and the service
    uninitialized, so that reads fail; after a following [initialize],
    [getAllAgents] is empty and the per-agent reads of the driver return
    nothing.  The geofence engine is left as it was: [getGeofences] and
    [getAgentGeofences] return the registered zones and the zones of
    the agent from before the shutdown. *)
Theorem C10_shutdown_erases_the_driver_not_the_zones (RT : JS.Runtime)
    (config : LocationMonitorConfig) (w : LocationMonitorService.t)
    (now now' : float) (agentId : string) :
  let down := final (LocationMonitorService.shutdown now w) in
  let up := final (LocationMonitorService.initialize config now' down) in
  result (LocationMonitorService.shutdown now w) = Ok tt /\
  LocationMonitorService.storage down = MemoryAdapter.new /\
  LocationMonitorService.initialized down = false /\
  result (LocationMonitorService.getLocation agentId now' down) =
    Throw NotInitialized /\
  LocationMonitorService.initialized up = true /\
  LocationMonitorService.storage up = MemoryAdapter.new /\
  result (LocationMonitorService.getAllAgents now' up) = Ok [] /\
  result (LocationMonitorService.getLocation agentId now' up) = Ok None /\
  result (LocationMonitorService.getStatus agentId now' up) = Ok None /\
  result (LocationMonitorService.getAgentState agentId now' up) = Ok None /\
  result (LocationMonitorService.getAgentStats agentId now' up) = Ok None /\
  LocationMonitorService.geoEngine up = LocationMonitorService.geoEngine w /\
  result (LocationMonitorService.getGeofences now' up) =
    Ok (JSMap.values
          (GeoEngine.geofences (LocationMonitorService.geoEngine w))) /\
  result (LocationMonitorService.getAgentGeofences agentId now' up) =
    Ok (zonesOf agentId (LocationMonitorService.geoEngine w)).
Proof.
  destruct w as [s g [running] i], config as [th [enabled interval] gf].
  destruct running, enabled; cbv; repeat split; reflexivity.
Qed.

(* ================================================================= *)
(** * Further properties of the code *)

(** ** Programs that maintain a property of the state *)

Section Preserves.
Context {S : Type}.
Variable I : S -> Prop.

Lemma preserves_ret A (a : A) : preserves I (ret a).
Proof. intros now s H. exact H. Qed.

Lemma preserves_throw A e : preserves I (@throw S A e).
Proof. intros now s H. exact H. Qed.

Lemma preserves_getNow : preserves I getNow.
Proof. intros now s H. exact H. Qed.

Lemma preserves_read A (f : S -> A) : preserves I (read f).
Proof. intros now s H. exact H. Qed.

Lemma preserves_emit d : preserves I (emit d).
Proof. intros now s H. exact H. Qed.

Lemma preserves_modify (f : S -> S) :
  (forall s, I s -> I (f s)) -> preserves I (modify f).
Proof. intros H now s Hs. apply H, Hs. Qed.

Lemma preserves_bind A B (m : M S A) (f : A -> M S B) :
  preserves I m -> (forall a, preserves I (f a)) -> preserves I (bind m f).
Proof.
  intros Hm Hf now s Hs. specialize (Hm now s Hs). unfold bind, final in *.
  destruct (m now s) as [[[a|e] s1] out1]; simpl in *; auto.
  specialize (Hf a now s1 Hm). unfold final in Hf.
  destruct (f a now s1) as [[r s2] out2]; simpl in *. exact Hf.
Qed.

Lemma preserves_tryCatch (m : M S unit) :
  preserves I m -> preserves I (tryCatch m).
Proof.
  intros Hm now s Hs. specialize (Hm now s Hs). unfold tryCatch, final in *.
  destruct (m now s) as [[[a|e] s1] out1]; simpl in *; auto.
Qed.

Lemma preserves_forEach Y (xs : list Y) (f : Y -> M S unit) :
  (forall x, preserves I (f x)) -> preserves I (forEach xs f).
Proof.
  intros Hf. induction xs as [|x xs IH]; simpl.
  - apply preserves_ret.
  - apply preserves_bind; auto.
Qed.
End Preserves.

Lemma preserves_zoom W S A (IW : W -> Prop) (IS : S -> Prop)
    (proj : W -> S) inj (m : M S A) :
  (forall w, IW w -> IS (proj w)) ->
  (forall s w, IW w -> IS s -> IW (inj s w)) ->
  preserves IS m -> preserves IW (zoom proj inj m).
Proof.
  intros Hp Hi Hm now w Hw. specialize (Hm now (proj w) (Hp _ Hw)).
  unfold zoom, final in *.
  destruct (m now (proj w)) as [[r s1] out1]. simpl in *. auto.
Qed.

Lemma preserves_keeps S X A (view : S -> X) (I : S -> Prop) (m : M S A) :
  (forall s s', view s' = view s -> I s -> I s') ->
  keeps view m -> preserves I m.
Proof. intros H K now s Hs. eapply H; [apply K | exact Hs]. Qed.

Create HintDb preserves.
#[export] Hint Resolve preserves_ret preserves_throw preserves_getNow
  preserves_read preserves_emit : preserves.

Section Delivers.
Context {S : Type}.
Variable handlers : S -> list Handler.

Lemma deliversTo_ret A (a : A) : deliversTo handlers (ret a).
Proof. intros now s. split; [reflexivity | constructor]. Qed.

Lemma deliversTo_throw A e : deliversTo handlers (@throw S A e).
Proof. intros now s. split; [reflexivity | constructor]. Qed.

Lemma deliversTo_getNow : deliversTo handlers getNow.
Proof. intros now s. split; [reflexivity | constructor]. Qed.

Lemma deliversTo_read A (f : S -> A) : deliversTo handlers (read f).
Proof. intros now s. split; [reflexivity | constructor]. Qed.

Lemma deliversTo_modify (f : S -> S) :
  (forall s, handlers (f s) = handlers s) -> deliversTo handlers (modify f).
Proof. intros H now s. split; [apply H | constructor]. Qed.

Lemma deliversTo_bind A B (m : M S A) (f : A -> M S B) :
  deliversTo handlers m -> (forall a, deliversTo handlers (f a)) ->
  deliversTo handlers (bind m f).
Proof.
  intros Hm Hf now s. destruct (Hm now s) as [H1 F1].
  unfold bind, final in *.
  destruct (m now s) as [[[a|e] s1] out1]; simpl in *; auto.
  destruct (Hf a now s1) as [H2 F2]. unfold final in H2.
  destruct (f a now s1) as [[r s2] out2]; simpl in *. split.
  - congruence.
  - apply Forall_app. split; auto. rewrite <- H1. exact F2.
Qed.

Lemma deliversTo_tryCatch (m : M S unit) :
  deliversTo handlers m -> deliversTo handlers (tryCatch m).
Proof.
  intros Hm now s. specialize (Hm now s). unfold tryCatch, final in *.
  destruct (m now s) as [[[a|e] s1] out1]; simpl in *; auto.
Qed.

Lemma deliversTo_forEach Y (xs : list Y) (f : Y -> M S unit) :
  (forall x, deliversTo handlers (f x)) -> deliversTo handlers (forEach xs f).
Proof.
  intros Hf. induction xs as [|x xs IH]; simpl.
  - apply deliversTo_ret.
  - apply deliversTo_bind; auto.
Qed.
End Delivers.

Lemma deliversTo_zoom W S A (hW : W -> list Handler)
    (hS : S -> list Handler) (proj : W -> S) inj (m : M S A) :
  (forall w, hW w = hS (proj w)) ->
  (forall s w, hW (inj s w) = hS s) ->
  deliversTo hS m -> deliversTo hW (zoom proj inj m).
Proof.
  intros Hp Hi Hm now w. specialize (Hm now (proj w)).
  unfold zoom, final in *.
  destruct (m now (proj w)) as [[r s1] out1]. simpl in *.
  rewrite Hi, Hp. exact Hm.
Qed.

(** A part of the state that holds no subscribers. *)
Lemma deliversTo_zoom_silent W S A (hW : W -> list Handler)
    (proj : W -> S) inj (m : M S A) :
  (forall s w, hW (inj s w) = hW w) ->
  silent m -> deliversTo hW (zoom proj inj m).
Proof.
  intros Hi Hm now w. specialize (Hm now (proj w)).
  unfold zoom, final in *.
  destruct (m now (proj w)) as [[r s1] out1]. simpl in *. subst out1.
  split; [apply Hi | constructor].
Qed.

Lemma deliversTo_publishEvent e :
  deliversTo MemoryAdapter.eventHandlers (MemoryAdapter.publishEvent e).
Proof.
  intros now s. rewrite publishEvent_run. split; [reflexivity|].
  repeat constructor.
Qed.

(** ** Who receives the events *)

Create HintDb delivers.
#[export] Hint Resolve deliversTo_ret deliversTo_throw deliversTo_getNow
  deliversTo_read deliversTo_publishEvent : delivers.

Ltac delivers_step :=
  match goal with
  | |- deliversTo _ (bind _ _) => apply deliversTo_bind; [|intros]
  | |- deliversTo _ (modify _) => apply deliversTo_modify; intros; reflexivity
  | |- deliversTo _ (tryCatch _) => apply deliversTo_tryCatch
  | |- deliversTo _ (forEach _ _) => apply deliversTo_forEach; intros
  | |- deliversTo _ (if ?b then _ else _) => destruct b
  | |- deliversTo _ (match ?x with _ => _ end) => destruct x
  | |- deliversTo _ _ => solve [auto with delivers]
  end.

Ltac delivers_auto := repeat delivers_step.

Lemma delivers_LocationEngine_trackLocation (RT : JS.Runtime) a lat lon ts
    meta :
  deliversTo MemoryAdapter.eventHandlers
    (LocationEngine.trackLocation a lat lon ts meta).
Proof.
  unfold LocationEngine.trackLocation, LocationEngine.validateInput,
    MemoryAdapter.getLastLocation, MemoryAdapter.saveLocation.
  delivers_auto.
Qed.

Lemma delivers_updateStatus a old new ts reason :
  deliversTo MemoryAdapter.eventHandlers
    (StatusEngine.updateStatus a old new ts reason).
Proof.
  unfold StatusEngine.updateStatus, StatusEngine.emitSpecificStatusEvents,
    MemoryAdapter.saveStatus, MemoryAdapter.getAgentState.
  delivers_auto.
Qed.

#[export] Hint Resolve delivers_LocationEngine_trackLocation
  delivers_updateStatus : delivers.

Lemma delivers_detectStatus th a loc :
  deliversTo MemoryAdapter.eventHandlers
    (StatusEngine.detectStatus th a loc).
Proof.
  unfold StatusEngine.detectStatus, MemoryAdapter.getStatus,
    MemoryAdapter.getLastLocation.
  delivers_auto.
Qed.

Lemma delivers_checkStatusByTime th a :
  deliversTo MemoryAdapter.eventHandlers
    (StatusEngine.checkStatusByTime th a).
Proof.
  unfold StatusEngine.checkStatusByTime, MemoryAdapter.getAgentState.
  delivers_auto.
Qed.

Lemma delivers_setStatus a st reason :
  deliversTo MemoryAdapter.eventHandlers
    (StatusEngine.setStatus a st reason).
Proof.
  unfold StatusEngine.setStatus, MemoryAdapter.getStatus. delivers_auto.
Qed.

#[export] Hint Resolve delivers_detectStatus delivers_checkStatusByTime
  delivers_setStatus : delivers.

Lemma delivers_performCheck th :
  deliversTo MemoryAdapter.eventHandlers
    (WatchdogEngine.performCheck th).
Proof.
  unfold WatchdogEngine.performCheck, WatchdogEngine.checkAgent,
    MemoryAdapter.getAllAgents.
  delivers_auto.
Qed.

Lemma delivers_checkAgent th a :
  deliversTo MemoryAdapter.eventHandlers
    (WatchdogEngine.checkAgent th a).
Proof. unfold WatchdogEngine.checkAgent. delivers_auto. Qed.

#[export] Hint Resolve delivers_performCheck delivers_checkAgent : delivers.

Lemma delivers_checkGeofences (RT : JS.Runtime) a loc :
  deliversTo pairHandlers (GeoEngine.checkGeofences a loc).
Proof.
  assert (E : forall ty dir g,
             deliversTo pairHandlers
               (GeoEngine.emitGeofenceEvent ty dir a g loc)).
  { intros. unfold GeoEngine.emitGeofenceEvent, GeoEngine.onStorage.
    delivers_auto.
    apply deliversTo_zoom with (hS := MemoryAdapter.eventHandlers);
      auto with delivers. }
  assert (C : forall current entries acc,
             deliversTo pairHandlers
               (GeoEngine.checkEach a loc current entries acc)).
  { intros current entries.
    induction entries as [|[k z] rest IH]; intros acc; simpl.
    - apply deliversTo_ret.
    - unfold GeoEngine.emitGeofenceEnterEvent, GeoEngine.emitGeofenceExitEvent.
      delivers_auto; auto. }
  unfold GeoEngine.checkGeofences, GeoEngine.onSelf. delivers_auto; auto.
  apply deliversTo_zoom_silent; [reflexivity|]. intros now s. reflexivity.
Qed.

Lemma delivers_onStorage A (m : M MemoryAdapter.t A) :
  deliversTo MemoryAdapter.eventHandlers m ->
  deliversTo serviceHandlers (LocationMonitorService.onStorage m).
Proof.
  intros H. unfold LocationMonitorService.onStorage.
  apply deliversTo_zoom with (hS := MemoryAdapter.eventHandlers); auto.
Qed.

Lemma delivers_onGeoEngine A (m : M GeoEngine.t A) :
  silent m -> deliversTo serviceHandlers (LocationMonitorService.onGeoEngine m).
Proof.
  intros H. unfold LocationMonitorService.onGeoEngine.
  apply deliversTo_zoom_silent; auto.
Qed.

Lemma delivers_onWatchdogEngine A (m : M WatchdogEngine.t A) :
  silent m ->
  deliversTo serviceHandlers (LocationMonitorService.onWatchdogEngine m).
Proof.
  intros H. unfold LocationMonitorService.onWatchdogEngine.
  apply deliversTo_zoom_silent; auto.
Qed.

Lemma silent_ret S A (a : A) : silent (@ret S A a).
Proof. intros now s. reflexivity. Qed.

Lemma silent_throw S A e : silent (@throw S A e).
Proof. intros now s. reflexivity. Qed.

Lemma silent_read S A (f : S -> A) : silent (read f).
Proof. intros now s. reflexivity. Qed.

Lemma silent_modify S (f : S -> S) : silent (modify f).
Proof. intros now s. reflexivity. Qed.

Lemma silent_getNow S : silent (@getNow S).
Proof. intros now s. reflexivity. Qed.

Lemma silent_bind S A B (m : M S A) (f : A -> M S B) :
  silent m -> (forall a, silent (f a)) -> silent (bind m f).
Proof.
  intros Hm Hf now s. specialize (Hm now s). unfold bind.
  destruct (m now s) as [[[a|e] s1] out1]; simpl in *; auto.
  specialize (Hf a now s1).
  destruct (f a now s1) as [[r s2] out2]; simpl in *. now subst.
Qed.

Lemma silent_zoom W S A (proj : W -> S) inj (m : M S A) :
  silent m -> silent (zoom proj inj m).
Proof.
  intros Hm now w. specialize (Hm now (proj w)). unfold zoom.
  destruct (m now (proj w)) as [[r s1] out1]. exact Hm.
Qed.

Create HintDb silent.
#[export] Hint Resolve silent_ret silent_throw silent_read silent_modify
  silent_getNow silent_zoom : silent.

Ltac silent_step :=
  match goal with
  | |- silent (bind _ _) => apply silent_bind; [|intros]
  | |- silent (if ?b then _ else _) => destruct b
  | |- silent (match ?x with _ => _ end) => destruct x
  | |- silent _ => solve [auto with silent]
  end.

Ltac silent_auto := repeat silent_step.

Lemma silent_registerGeofence g : silent (GeoEngine.registerGeofence g).
Proof. unfold GeoEngine.registerGeofence. silent_auto. Qed.

Lemma silent_start c : silent (WatchdogEngine.start c).
Proof. unfold WatchdogEngine.start. silent_auto. Qed.

Lemma silent_stop : silent WatchdogEngine.stop.
Proof. unfold WatchdogEngine.stop. silent_auto. Qed.

Lemma silent_disconnect : silent MemoryAdapter.disconnect.
Proof. unfold MemoryAdapter.disconnect. silent_auto. Qed.

#[export] Hint Resolve silent_registerGeofence silent_start silent_stop
  silent_disconnect : silent.

Lemma delivers_ensureInitialized :
  deliversTo serviceHandlers LocationMonitorService.ensureInitialized.
Proof. unfold LocationMonitorService.ensureInitialized. delivers_auto. Qed.

Lemma delivers_setInitialized b :
  deliversTo serviceHandlers (LocationMonitorService.setInitialized b).
Proof.
  unfold LocationMonitorService.setInitialized.
  apply deliversTo_modify. reflexivity.
Qed.

#[export] Hint Resolve delivers_ensureInitialized delivers_setInitialized
  : delivers.

Ltac service_delivers :=
  repeat first
    [ apply delivers_onStorage
    | apply delivers_onGeoEngine; solve [silent_auto]
    | apply delivers_onWatchdogEngine; solve [silent_auto]
    | delivers_step ].

Lemma delivers_updateAgentState a loc st :
  deliversTo serviceHandlers (LocationMonitorService.updateAgentState a loc st).
Proof.
  unfold LocationMonitorService.updateAgentState,
    MemoryAdapter.getAgentState, MemoryAdapter.saveAgentState,
    GeoEngine.getAgentGeofences.
  service_delivers.
Qed.

Section Delivery.
Context {RT : JS.Runtime}.
Variable config : LocationMonitorConfig.

Lemma delivers_trackLocation a lat lon ts meta :
  deliversTo serviceHandlers
    (LocationMonitorService.trackLocation config a lat lon ts meta).
Proof.
  unfold LocationMonitorService.trackLocation.
  service_delivers.
  - unfold LocationMonitorService.onGeoEngineAndStorage.
    apply deliversTo_zoom with (hS := pairHandlers);
      [reflexivity | reflexivity | apply delivers_checkGeofences].
  - apply delivers_updateAgentState.
Qed.

(** Events go to the subscribers registered when the call was made. *)
Lemma perform_delivers op now w :
  Forall (fun d => receivers d = serviceHandlers w)
    (snd (perform config op now w)).
Proof.
  assert (S : forall m : M LocationMonitorService.t unit,
             silent m -> Forall (fun d => receivers d = serviceHandlers w)
                           (snd (m now w))).
  { intros m H. rewrite (H now w). constructor. }
  assert (D : forall m : M LocationMonitorService.t unit,
             deliversTo serviceHandlers m ->
             Forall (fun d => receivers d = serviceHandlers w) (snd (m now w))).
  { intros m H. apply H. }
  destruct op as [ | | agentId lat lon ts meta | agentId st reason | g0
                 | zoneId | agentId | agentId | | handler | | ];
    unfold perform.
  - apply D. unfold LocationMonitorService.initialize,
      MemoryAdapter.initialize. service_delivers.
  - apply S. unfold LocationMonitorService.shutdown,
      LocationMonitorService.onWatchdogEngine,
      LocationMonitorService.onStorage,
      LocationMonitorService.setInitialized. silent_auto.
  - apply D. delivers_auto. apply delivers_trackLocation.
  - apply D. unfold LocationMonitorService.setStatus. service_delivers.
  - apply D. unfold LocationMonitorService.registerGeofence.
    service_delivers.
  - apply D. unfold LocationMonitorService.removeGeofence,
      GeoEngine.removeGeofence. service_delivers.
  - apply D. unfold LocationMonitorService.clearAgentData,
      MemoryAdapter.clearAgentData, GeoEngine.clearAgentGeofences.
    service_delivers.
  - apply D. unfold LocationMonitorService.forceWatchdogCheck,
      WatchdogEngine.forceCheck. service_delivers.
  - apply D. unfold LocationMonitorService.forceWatchdogCheckAll,
      WatchdogEngine.forceCheckAll. service_delivers.
  - apply S. unfold LocationMonitorService.subscribeEvents,
      LocationMonitorService.ensureInitialized,
      LocationMonitorService.onStorage, MemoryAdapter.subscribeEvents.
    silent_auto.
  - apply S. unfold LocationMonitorService.unsubscribeEvents,
      LocationMonitorService.ensureInitialized,
      LocationMonitorService.onStorage, MemoryAdapter.unsubscribeEvents.
    silent_auto.
  - apply D. unfold LocationMonitorService.watchdogTick,
      WatchdogEngine.isActive. service_delivers.
Qed.
End Delivery.

(** ** Well-formed states *)

Ltac store_modify :=
  apply preserves_modify;
  let H1 := fresh in let H2 := fresh in let H3 := fresh in let H4 := fresh in
  intros ? (H1 & H2 & H3 & H4);
  unfold StoreInv, MemoryAdapter.with_locations, MemoryAdapter.with_statuses,
    MemoryAdapter.with_states, MemoryAdapter.with_stats,
    MemoryAdapter.with_eventHandlers;
  cbn [MemoryAdapter.locations MemoryAdapter.statuses MemoryAdapter.states
       MemoryAdapter.stats];
  repeat split;
  auto using NoDup_keys_set, NoDup_keys_delete, NoDup_nil.

Ltac preserves_step :=
  match goal with
  | |- preserves _ (bind _ _) => apply preserves_bind; [|intros]
  | |- preserves _ (tryCatch _) => apply preserves_tryCatch
  | |- preserves _ (forEach _ _) => apply preserves_forEach; intros
  | |- preserves StoreInv (modify _) => store_modify
  | |- preserves _ (let _ := _ in _) => cbv zeta
  | |- preserves _ (MemoryAdapter.publishEvent _) =>
      unfold MemoryAdapter.publishEvent
  | |- preserves _ (if ?b then _ else _) => destruct b
  | |- preserves _ (match ?x with _ => _ end) => destruct x
  | |- preserves _ _ => solve [auto with preserves]
  end.

Ltac preserves_auto := repeat preserves_step.

Lemma StoreInv_new : StoreInv MemoryAdapter.new.
Proof. repeat split; constructor. Qed.

Lemma StoreInv_saveLocation a loc :
  preserves StoreInv (MemoryAdapter.saveLocation a loc).
Proof. unfold MemoryAdapter.saveLocation. preserves_auto. Qed.

Lemma StoreInv_updateStatus a old new ts reason :
  preserves StoreInv (StatusEngine.updateStatus a old new ts reason).
Proof.
  unfold StatusEngine.updateStatus, StatusEngine.emitSpecificStatusEvents,
    MemoryAdapter.saveStatus, MemoryAdapter.getAgentState.
  preserves_auto.
Qed.

#[export] Hint Resolve StoreInv_saveLocation StoreInv_updateStatus
  : preserves.

Lemma StoreInv_LocationEngine_trackLocation (RT : JS.Runtime) a lat lon ts
    meta :
  preserves StoreInv (LocationEngine.trackLocation a lat lon ts meta).
Proof.
  unfold LocationEngine.trackLocation, LocationEngine.validateInput,
    MemoryAdapter.getLastLocation.
  preserves_auto.
Qed.

Lemma StoreInv_detectStatus th a loc :
  preserves StoreInv (StatusEngine.detectStatus th a loc).
Proof.
  unfold StatusEngine.detectStatus, MemoryAdapter.getStatus,
    MemoryAdapter.getLastLocation.
  preserves_auto.
Qed.

Lemma StoreInv_checkStatusByTime th a :
  preserves StoreInv (StatusEngine.checkStatusByTime th a).
Proof.
  unfold StatusEngine.checkStatusByTime, MemoryAdapter.getAgentState.
  preserves_auto.
Qed.

Lemma StoreInv_setStatus a st reason :
  preserves StoreInv (StatusEngine.setStatus a st reason).
Proof.
  unfold StatusEngine.setStatus, MemoryAdapter.getStatus. preserves_auto.
Qed.

#[export] Hint Resolve StoreInv_LocationEngine_trackLocation
  StoreInv_detectStatus StoreInv_checkStatusByTime StoreInv_setStatus
  : preserves.

Lemma StoreInv_performCheck th :
  preserves StoreInv (WatchdogEngine.performCheck th).
Proof.
  unfold WatchdogEngine.performCheck, WatchdogEngine.checkAgent,
    MemoryAdapter.getAllAgents.
  preserves_auto.
Qed.

Lemma StoreInv_checkAgent th a :
  preserves StoreInv (WatchdogEngine.checkAgent th a).
Proof. unfold WatchdogEngine.checkAgent. preserves_auto. Qed.

Lemma StoreInv_clearAgentData a :
  preserves StoreInv (MemoryAdapter.clearAgentData a).
Proof. unfold MemoryAdapter.clearAgentData. preserves_auto. Qed.

Lemma StoreInv_disconnect : preserves StoreInv MemoryAdapter.disconnect.
Proof. unfold MemoryAdapter.disconnect. preserves_auto. Qed.

Lemma StoreInv_subscribeEvents h :
  preserves StoreInv (MemoryAdapter.subscribeEvents h).
Proof. unfold MemoryAdapter.subscribeEvents. preserves_auto. Qed.

Lemma StoreInv_unsubscribeEvents :
  preserves StoreInv MemoryAdapter.unsubscribeEvents.
Proof. unfold MemoryAdapter.unsubscribeEvents. preserves_auto. Qed.

Lemma StoreInv_saveAgentState a st :
  preserves StoreInv (MemoryAdapter.saveAgentState a st).
Proof. unfold MemoryAdapter.saveAgentState. preserves_auto. Qed.

#[export] Hint Resolve StoreInv_performCheck StoreInv_checkAgent
  StoreInv_clearAgentData StoreInv_disconnect StoreInv_subscribeEvents
  StoreInv_unsubscribeEvents StoreInv_saveAgentState : preserves.

Lemma RegistryInv_new : RegistryInv GeoEngine.new.
Proof. repeat split; try constructor. intros k z []. Qed.

Lemma RegistryInv_registerGeofence g :
  preserves RegistryInv (GeoEngine.registerGeofence g).
Proof.
  unfold GeoEngine.registerGeofence.
  destruct (negb (GeoUtils.valid (GeoUtils.validateGeofence g)));
    [apply preserves_throw|].
  apply preserves_modify. intros s (H1 & H2 & H3).
  repeat split; cbn [GeoEngine.geofences GeoEngine.agentGeofences]; auto.
  - intros k z H. apply In_set in H. destruct H as [H|H]; auto.
    now inversion H.
  - now apply NoDup_keys_set.
Qed.

Lemma RegistryInv_removeGeofence z :
  preserves RegistryInv (GeoEngine.removeGeofence z).
Proof.
  unfold GeoEngine.removeGeofence.
  apply preserves_modify. intros s (H1 & H2 & H3).
  repeat split; cbn [GeoEngine.geofences GeoEngine.agentGeofences].
  - intros k g H. apply In_delete in H. auto.
  - now apply NoDup_keys_delete.
  - now rewrite keys_map_values.
Qed.

Lemma RegistryInv_clearAgentGeofences a :
  preserves RegistryInv (GeoEngine.clearAgentGeofences a).
Proof.
  unfold GeoEngine.clearAgentGeofences.
  apply preserves_modify. intros s (H1 & H2 & H3).
  repeat split; cbn [GeoEngine.geofences GeoEngine.agentGeofences]; auto.
  now apply NoDup_keys_delete.
Qed.

Lemma PairInv_checkGeofences (RT : JS.Runtime) a loc :
  preserves PairInv (GeoEngine.checkGeofences a loc).
Proof.
  intros now [g s] [Hg Hs].
  destruct (checkGeofences_cases a loc now g s)
    as [E | (out & more & E & _)]; rewrite E; unfold final; cbn [fst snd];
    [|now split].
  destruct Hg as (H1 & H2 & H3).
  repeat split; cbn [fst snd afterCheck GeoEngine.geofences
                     GeoEngine.agentGeofences];
    auto; try apply Hs.
  now apply NoDup_keys_set.
Qed.

Lemma WellFormed_new : WellFormed LocationMonitorService.new.
Proof. split; [apply StoreInv_new | apply RegistryInv_new]. Qed.

Lemma WellFormed_onStorage A (m : M MemoryAdapter.t A) :
  preserves StoreInv m ->
  preserves WellFormed (LocationMonitorService.onStorage m).
Proof.
  intros H. unfold LocationMonitorService.onStorage.
  apply preserves_zoom with (IS := StoreInv); auto.
  - now intros w [? ?].
  - intros s w [? ?] ?. split; auto.
Qed.

Lemma WellFormed_onGeoEngine A (m : M GeoEngine.t A) :
  preserves RegistryInv m ->
  preserves WellFormed (LocationMonitorService.onGeoEngine m).
Proof.
  intros H. unfold LocationMonitorService.onGeoEngine.
  apply preserves_zoom with (IS := RegistryInv); auto.
  - now intros w [? ?].
  - intros s w [? ?] ?. split; auto.
Qed.

Lemma WellFormed_onGeoEngineAndStorage A
    (m : M (GeoEngine.t * MemoryAdapter.t) A) :
  preserves PairInv m ->
  preserves WellFormed (LocationMonitorService.onGeoEngineAndStorage m).
Proof.
  intros H. unfold LocationMonitorService.onGeoEngineAndStorage.
  apply preserves_zoom with (IS := PairInv); auto.
  - intros w [? ?]. split; auto.
  - intros s w [? ?] [? ?]. split; auto.
Qed.

Lemma WellFormed_onWatchdogEngine A (m : M WatchdogEngine.t A) :
  preserves WellFormed (LocationMonitorService.onWatchdogEngine m).
Proof.
  unfold LocationMonitorService.onWatchdogEngine.
  apply preserves_zoom with (IS := fun _ => True); auto.
  - intros now s _. exact I.
Qed.

Lemma WellFormed_setInitialized b :
  preserves WellFormed (LocationMonitorService.setInitialized b).
Proof.
  unfold LocationMonitorService.setInitialized.
  apply preserves_modify. now intros s [? ?].
Qed.

Lemma WellFormed_ensureInitialized :
  preserves WellFormed LocationMonitorService.ensureInitialized.
Proof.
  unfold LocationMonitorService.ensureInitialized. preserves_auto.
Qed.

#[export] Hint Resolve WellFormed_onWatchdogEngine WellFormed_setInitialized
  WellFormed_ensureInitialized RegistryInv_registerGeofence
  RegistryInv_removeGeofence RegistryInv_clearAgentGeofences : preserves.

Ltac wf_auto :=
  repeat first
    [ apply WellFormed_onStorage
    | apply WellFormed_onGeoEngine
    | preserves_step ].

Section WellFormedRuns.
Context {RT : JS.Runtime}.
Variable config : LocationMonitorConfig.

Lemma WellFormed_trackLocation a lat lon ts meta :
  preserves WellFormed
    (LocationMonitorService.trackLocation config a lat lon ts meta).
Proof.
  unfold LocationMonitorService.trackLocation,
    LocationMonitorService.updateAgentState, MemoryAdapter.getAgentState.
  wf_auto.
  - apply WellFormed_onGeoEngineAndStorage, PairInv_checkGeofences.
  - apply preserves_read.
Qed.

Lemma WellFormed_perform op : preserves WellFormed (perform config op).
Proof.
  destruct op as [ | | agentId lat lon ts meta | agentId st reason | g0
                 | zoneId | agentId | agentId | | handler | | ];
    unfold perform.
  - unfold LocationMonitorService.initialize, MemoryAdapter.initialize.
    wf_auto.
  - unfold LocationMonitorService.shutdown. wf_auto.
  - apply preserves_bind; [apply WellFormed_trackLocation|].
    intros. apply preserves_ret.
  - unfold LocationMonitorService.setStatus. wf_auto.
  - unfold LocationMonitorService.registerGeofence. wf_auto.
  - unfold LocationMonitorService.removeGeofence. wf_auto.
  - unfold LocationMonitorService.clearAgentData. wf_auto.
  - unfold LocationMonitorService.forceWatchdogCheck,
      WatchdogEngine.forceCheck. wf_auto.
  - unfold LocationMonitorService.forceWatchdogCheckAll,
      WatchdogEngine.forceCheckAll. wf_auto.
  - unfold LocationMonitorService.subscribeEvents. wf_auto.
  - unfold LocationMonitorService.unsubscribeEvents. wf_auto.
  - unfold LocationMonitorService.watchdogTick. wf_auto.
Qed.

Lemma WellFormed_runFrom calls :
  forall w, WellFormed w -> WellFormed (runFrom config w calls).
Proof.
  induction calls as [|[now op] calls IH]; intros w H; simpl; auto.
  apply IH, WellFormed_perform, H.
Qed.

Lemma WellFormed_reachable calls :
  WellFormed (runFrom config LocationMonitorService.new calls).
Proof. apply WellFormed_runFrom, WellFormed_new. Qed.
End WellFormedRuns.

(** ** The utilities *)


(** X2. A coordinate pair is valid for [isValidCoordinate] exactly when
    the range test of [validateGeofence] does not flag it and neither
    component is NaN. *)
Theorem X2_isValidCoordinate_is_the_range_test_without_NaN latitude longitude :
  DistanceCalculator.isValidCoordinate latitude longitude =
    negb (GeoUtils.outOfRange
            {| c_latitude := latitude; c_longitude := longitude |}) &&
    negb (JS.isNaN latitude) && negb (JS.isNaN longitude).
Proof.
  unfold DistanceCalculator.isValidCoordinate, GeoUtils.outOfRange, JS.ge,
    JS.gt.
  cbn [c_latitude c_longitude].
  destruct (JS.isNaN latitude) eqn:Ea;
    [now rewrite !andb_false_r|].
  destruct (JS.isNaN longitude) eqn:Eo;
    [now rewrite !andb_false_r|].
  assert (N : forall c, JS.isNaN c = false -> forall x,
             JS.isNaN x = false ->
             (x <? c) = negb (c <=? x) /\ (c <? x) = negb (x <=? c)).
  { intros c Hc x Hx. split; now apply ltb_negb_leb. }
  destruct (N (-90) eq_refl latitude Ea) as [-> _].
  destruct (N 90 eq_refl latitude Ea) as [_ ->].
  destruct (N (-180) eq_refl longitude Eo) as [-> _].
  destruct (N 180 eq_refl longitude Eo) as [_ ->].
  destruct (-90 <=? latitude), (latitude <=? 90), (-180 <=? longitude),
    (longitude <=? 180); reflexivity.
Qed.

(** The ray casting loop does not toggle when no edge can cross. *)
Lemma rayCast_no_crossing latitude longitude vs :
  forall vj inside,
    (forall vi vj, GeoUtils.crossing latitude longitude vi vj = false) \/
    (exists side,
       (c_latitude vj >? latitude) = side /\
       Forall (fun v => (c_latitude v >? latitude) = side) vs) ->
    GeoUtils.rayCast latitude longitude vs vj inside = inside.
Proof.
  induction vs as [|vi rest IH]; intros vj inside H; [reflexivity|].
  simpl.
  assert (C : GeoUtils.crossing latitude longitude vi vj = false).
  { destruct H as [H|(side & Hj & Hall)]; [apply H|].
    unfold GeoUtils.crossing. inversion Hall; subst.
    rewrite H1. now rewrite Bool.eqb_reflx. }
  rewrite C. apply IH.
  destruct H as [H|(side & Hj & Hall)]; [now left|right].
  exists side. inversion Hall; subst. auto.
Qed.

(** X3. A point is outside a polygon when all vertices lie strictly
    north of it, or none does; and a point with a NaN coordinate is
    outside every polygon. *)
Theorem X3_no_vertex_across_means_outside latitude longitude geofence :
  forallb (fun v => c_latitude v >? latitude) (coordinates geofence) = true \/
  forallb (fun v => negb (c_latitude v >? latitude)) (coordinates geofence)
    = true \/
  JS.isNaN latitude = true \/ JS.isNaN longitude = true ->
  GeoUtils.isPointInPolygon latitude longitude geofence = false.
Proof.
  intros H. unfold GeoUtils.isPointInPolygon.
  destruct (coordinates geofence) as [|v0 rest] eqn:E; [reflexivity|].
  apply rayCast_no_crossing.
  assert (L : In (last (v0 :: rest) v0) (v0 :: rest)).
  { destruct (exists_last (l := v0 :: rest)) as (l' & x & ->);
      [discriminate|]. rewrite last_last. apply in_or_app. right. now left. }
  assert (S : forall side,
             forallb (fun v => Bool.eqb (c_latitude v >? latitude) side)
               (v0 :: rest) = true ->
             exists side0,
               (c_latitude (last (v0 :: rest) v0) >? latitude) = side0 /\
               Forall (fun v => (c_latitude v >? latitude) = side0)
                 (v0 :: rest)).
  { intros side F. exists side. rewrite forallb_forall in F. split.
    - apply Bool.eqb_prop, F, L.
    - apply Forall_forall. intros v Hv. apply Bool.eqb_prop, F, Hv. }
  destruct H as [H|[H|[H|H]]].
  - right. apply (S true). apply forallb_forall. intros v Hv.
    rewrite forallb_forall in H. now rewrite (H v Hv).
  - right. apply (S false). apply forallb_forall. intros v Hv.
    rewrite forallb_forall in H. specialize (H v Hv).
    apply negb_true_iff in H. now rewrite H.
  - right. apply (S false). apply forallb_forall. intros v _.
    unfold JS.gt. now rewrite ltb_nan by auto.
  - left. intros vi vj. unfold GeoUtils.crossing.
    rewrite (ltb_nan longitude) by auto. apply andb_false_r.
Qed.

(** ** The storage driver *)

Lemma has_In x s : JSSet.has x s = true <-> In x s.
Proof.
  unfold JSSet.has. rewrite existsb_exists. split.
  - intros (y & Hy & E). apply String.eqb_eq in E. now subst.
  - intros H. exists x. split; auto. apply String.eqb_refl.
Qed.

Lemma In_add x y s : In x (JSSet.add y s) <-> In x s \/ x = y.
Proof.
  unfold JSSet.add. destruct (JSSet.has y s) eqn:E.
  - apply has_In in E. split; [auto|]. intros [H|H]; subst; auto.
  - rewrite in_app_iff. simpl. intuition congruence.
Qed.

Lemma NoDup_add y s : NoDup s -> NoDup (JSSet.add y s).
Proof.
  intros N. unfold JSSet.add. destruct (JSSet.has y s) eqn:E; auto.
  apply NoDup_app; auto.
  - repeat constructor. intros [].
  - intros x Hx [Hy|[]]. subst x. apply has_In in Hx. congruence.
Qed.

Lemma In_addAll x xs : forall s, In x (JSSet.addAll xs s) <-> In x xs \/ In x s.
Proof.
  unfold JSSet.addAll.
  induction xs as [|y xs IH]; intros s; simpl; [tauto|].
  rewrite IH, In_add. intuition congruence.
Qed.

Lemma NoDup_addAll xs : forall s, NoDup s -> NoDup (JSSet.addAll xs s).
Proof.
  unfold JSSet.addAll.
  induction xs as [|y xs IH]; intros s N; simpl; auto.
  apply IH, NoDup_add, N.
Qed.

Lemma has_keys V k (m : JSMap.t V) :
  JSMap.has k m = true <-> In k (JSMap.keys m).
Proof.
  unfold JSMap.has. destruct (JSMap.get k m) eqn:E.
  - split; auto. intros _. apply get_Some_In in E.
    change (In (fst (k, v)) (map fst m)). now apply in_map.
  - split; [discriminate|]. intros H. now apply get_None_keys in E.
Qed.

(** X4. [getAllAgents] lists every agent that has a location, a status
    or a snapshot, each one once, and changes nothing. *)
Theorem X4_getAllAgents_lists_each_known_agent_once now s :
  exists agents,
    MemoryAdapter.getAllAgents now s = (Ok agents, s, []) /\
    NoDup agents /\
    forall a,
      In a agents <->
      JSMap.has a (MemoryAdapter.locations s) ||
      JSMap.has a (MemoryAdapter.statuses s) ||
      JSMap.has a (MemoryAdapter.states s) = true.
Proof.
  eexists. split; [reflexivity|]. split.
  - repeat apply NoDup_addAll. constructor.
  - intros a. rewrite !In_addAll, !orb_true_iff, !has_keys.
    unfold JSSet.empty. simpl. tauto.
Qed.

Lemma not_In_keys_delete V k (m : JSMap.t V) :
  NoDup (JSMap.keys m) -> ~ In k (JSMap.keys (JSMap.delete k m)).
Proof. intros N. apply get_None_keys. now apply get_delete_same. Qed.

(** X5. On a started service, [clearAgentData] makes the agent unknown:
    its location, status, snapshot, statistics and zones read back as
    absent and [getAllAgents] no longer lists it.  What is stored for the
    other agents is not touched. *)
Theorem X5_clearAgentData_forgets_the_agent (RT : JS.Runtime)
    (config : LocationMonitorConfig) calls a now now' :
  let w := runFrom config LocationMonitorService.new calls in
  LocationMonitorService.initialized w = true ->
  let w' := final (LocationMonitorService.clearAgentData a now w) in
  result (LocationMonitorService.getLocation a now' w') = Ok None /\
  result (LocationMonitorService.getStatus a now' w') = Ok None /\
  result (LocationMonitorService.getAgentState a now' w') = Ok None /\
  result (LocationMonitorService.getAgentStats a now' w') = Ok None /\
  result (LocationMonitorService.getAgentGeofences a now' w') = Ok [] /\
  (exists agents,
     result (LocationMonitorService.getAllAgents now' w') = Ok agents /\
     ~ In a agents) /\
  forall b, b <> a ->
    result (LocationMonitorService.getLocation b now' w') =
      result (LocationMonitorService.getLocation b now' w) /\
    result (LocationMonitorService.getStatus b now' w') =
      result (LocationMonitorService.getStatus b now' w) /\
    result (LocationMonitorService.getAgentState b now' w') =
      result (LocationMonitorService.getAgentState b now' w) /\
    result (LocationMonitorService.getAgentStats b now' w') =
      result (LocationMonitorService.getAgentStats b now' w) /\
    result (LocationMonitorService.getAgentGeofences b now' w') =
      result (LocationMonitorService.getAgentGeofences b now' w).
Proof.
  intros w Hi w'.
  pose proof (WellFormed_reachable config calls) as WF. fold w in WF.
  clearbody w. destruct w as [s g d i]. simpl in Hi. subst i.
  destruct WF as [(N1 & N2 & N3 & N4) (_ & _ & N5)]. simpl in *.
  unfold w'. clear w'.
  unfold LocationMonitorService.getLocation,
    LocationMonitorService.getStatus, LocationMonitorService.getAgentState,
    LocationMonitorService.getAgentStats,
    LocationMonitorService.getAgentGeofences,
    LocationMonitorService.getAllAgents,
    LocationMonitorService.clearAgentData,
    LocationMonitorService.ensureInitialized,
    LocationMonitorService.onStorage, LocationMonitorService.onGeoEngine,
    LocationEngine.getCurrentLocation, StatusEngine.getStatus,
    MemoryAdapter.getLastLocation, MemoryAdapter.getStatus,
    MemoryAdapter.getAgentState, MemoryAdapter.getAgentStats,
    MemoryAdapter.getAllAgents, MemoryAdapter.clearAgentData,
    GeoEngine.getAgentGeofences, GeoEngine.clearAgentGeofences,
    GeoEngine.membership,
    zoom, bind, read, modify, throw, ret, result, final.
  cbn [LocationMonitorService.storage LocationMonitorService.geoEngine
       LocationMonitorService.watchdogEngine
       LocationMonitorService.initialized negb fst snd app
       MemoryAdapter.with_locations MemoryAdapter.with_statuses
       MemoryAdapter.with_states MemoryAdapter.with_stats
       MemoryAdapter.locations MemoryAdapter.statuses MemoryAdapter.states
       MemoryAdapter.stats MemoryAdapter.eventHandlers
       GeoEngine.geofences GeoEngine.agentGeofences].
  rewrite !get_delete_same by assumption. cbn [option_map flat_map].
  do 5 (split; [reflexivity|]). split.
  - eexists. split; [reflexivity|]. rewrite !In_addAll.
    intros [H|[H|[H|[]]]]; revert H; now apply not_In_keys_delete.
  - intros b Hb. apply String.eqb_neq in Hb.
    rewrite !get_delete_other by assumption. repeat split.
Qed.

Section Subscribers.
Context {RT : JS.Runtime}.
Variable config : LocationMonitorConfig.

(** X6. Every event that an operation of the service publishes is
    handed to exactly the handlers that were subscribed when the
    operation was called, in the order of their subscription. *)
Theorem X6_events_go_to_the_current_subscribers op now w :
  Forall (fun d =>
            receivers d =
            MemoryAdapter.eventHandlers (LocationMonitorService.storage w))
    (snd (perform config op now w)).
Proof. exact (perform_delivers config op now w). Qed.

(** X7. On a started service, [subscribeEvents] adds the handler after
    the ones already subscribed, so the events of the next call reach
    all of them; [unsubscribeEvents] removes every handler, so the
    events of the next call reach nobody. *)
Theorem X7_subscribe_appends_and_unsubscribe_removes_all w handler now now'
    op :
  LocationMonitorService.initialized w = true ->
  Forall (fun d =>
            receivers d =
            MemoryAdapter.eventHandlers (LocationMonitorService.storage w) ++
            [handler])
    (snd (perform config op now'
            (final (LocationMonitorService.subscribeEvents handler now w)))) /\
  Forall (fun d => receivers d = [])
    (snd (perform config op now'
            (final (LocationMonitorService.unsubscribeEvents now w)))).
Proof.
  intros Hi. split.
  - assert (E : MemoryAdapter.eventHandlers
                  (LocationMonitorService.storage
                     (final (LocationMonitorService.subscribeEvents handler
                               now w))) =
                MemoryAdapter.eventHandlers (LocationMonitorService.storage w)
                ++ [handler]).
    { unfold LocationMonitorService.subscribeEvents,
        LocationMonitorService.ensureInitialized,
        LocationMonitorService.onStorage, MemoryAdapter.subscribeEvents,
        zoom, bind, read, modify, throw, ret, final.
      rewrite Hi. reflexivity. }
    rewrite <- E. apply perform_delivers.
  - assert (E : MemoryAdapter.eventHandlers
                  (LocationMonitorService.storage
                     (final (LocationMonitorService.unsubscribeEvents now w)))
                = []).
    { unfold LocationMonitorService.unsubscribeEvents,
        LocationMonitorService.ensureInitialized,
        LocationMonitorService.onStorage, MemoryAdapter.unsubscribeEvents,
        zoom, bind, read, modify, throw, ret, final.
      rewrite Hi. reflexivity. }
    rewrite <- E. apply perform_delivers.
Qed.
End Subscribers.

(** ** Tracking *)

Lemma notLocation_detectStatus th a loc :
  emitsOnly notLocation (StatusEngine.detectStatus th a loc).
Proof.
  unfold StatusEngine.detectStatus, StatusEngine.updateStatus,
    StatusEngine.emitSpecificStatusEvents, MemoryAdapter.getStatus,
    MemoryAdapter.getLastLocation, MemoryAdapter.saveStatus,
    MemoryAdapter.getAgentState.
  repeat match goal with
  | |- emitsOnly _ (bind _ _) => apply emitsOnly_bind; [|intros]
  | |- emitsOnly _ (MemoryAdapter.publishEvent _) =>
      apply emitsOnly_publishEvent; intros; unfold notLocation; cbn;
      discriminate
  | |- emitsOnly _ (if ?b then _ else _) => destruct b
  | |- emitsOnly _ (match ?x with _ => _ end) => destruct x
  | |- emitsOnly _ (let _ := _ in _) => cbv zeta
  | |- emitsOnly _ _ => solve [auto with emits]
  end.
Qed.

Lemma notLocation_turnEvents (RT : JS.Runtime) a loc current now hs entries :
  Forall notLocation (flat_map (turnEvents a loc current now hs) entries).
Proof.
  induction entries as [|e rest IH]; simpl; [constructor|].
  apply Forall_app. split; auto. unfold turnEvents.
  destruct (contains loc (snd e)), (JSSet.has (fst e) current);
    repeat constructor; unfold notLocation; cbn; discriminate.
Qed.


Lemma plain_locationDelivery loc d now hs :
  plain (locationDelivery loc d now hs).
Proof. exact I. Qed.

Lemma membership_afterCheck (RT : JS.Runtime) a loc g :
  GeoEngine.membership a (afterCheck a loc g) =
  zonesAt loc (GeoEngine.geofences g) JSSet.empty.
Proof.
  unfold GeoEngine.membership, afterCheck. cbn [GeoEngine.agentGeofences].
  now rewrite get_set_same.
Qed.

(** A pass over the registry with the set that a pass for the same
    coordinates has built publishes nothing. *)
Lemma second_pass_is_silent (RT : JS.Runtime) a loc loc' now hs entries :
  NoDup (JSMap.keys entries) ->
  latitude loc' = latitude loc -> longitude loc' = longitude loc ->
  flat_map (turnEvents a loc' (zonesAt loc entries JSSet.empty) now hs)
    entries = [].
Proof.
  intros N Hlat Hlon.
  assert (G : forall l, incl l entries ->
            flat_map (turnEvents a loc' (zonesAt loc entries JSSet.empty)
                        now hs) l = []).
  { induction l as [|[k z] l IH]; intros Hl; [reflexivity|].
    simpl. rewrite IH by (intros x Hx; apply Hl; now right).
    rewrite app_nil_r. unfold turnEvents. cbn [fst snd].
    rewrite (@has_zonesAt_entry RT loc entries k z N)
      by (apply Hl; now left).
    unfold contains. rewrite Hlat, Hlon.
    now destruct (GeoUtils.isPointInGeofence (latitude loc) (longitude loc)
                   z). }
  apply G, incl_refl.
Qed.

Section Tracking.
Context {RT : JS.Runtime}.
Variable config : LocationMonitorConfig.

(** X8. A [track] with valid input on a started service stores a sample
    with the agent id, the coordinates and the metadata it was given; its
    timestamp is the one given when that is a valid timestamp (a number
    above 0 and at most one minute ahead of the clock), and the clock
    otherwise.  [getLocation] then returns this sample.  The call returns
    the sample; the one way it can fail is a subscriber whose promise
    rejects, and then the sample is stored all the same. *)
Theorem X8_accepted_track_reads_back a lat lon ts meta now now' w :
  LocationMonitorService.initialized w = true ->
  JS.truthyStr a = true ->
  DistanceCalculator.isValidCoordinate lat lon = true ->
  let o := LocationMonitorService.trackLocation config a lat lon ts meta
             now w in
  exists loc,
    (result o = Ok loc \/
     result o = Throw SubscriberRejected /\
     ~ calm (MemoryAdapter.eventHandlers (LocationMonitorService.storage w)))
    /\
    result (LocationMonitorService.getLocation a now' (final o)) =
      Ok (Some loc) /\
    loc_agentId loc = a /\ latitude loc = lat /\ longitude loc = lon /\
    metadata loc = meta /\
    timestamp loc =
      match ts with
      | Some t => if TimeUtils.isValidTimestamp now t then t else now
      | None => now
      end.
Proof.
  intros Hi Ha Hc o. subst o.
  destruct (trackLocation_stages config a lat lon ts meta now w Hi Ha Hc)
    as (loc & d & H & H1 & H2 & H3 & H4 & H5 & _).
  destruct (trackLocation_stores config a lat lon ts meta now w Hi Ha Hc)
    as (loc' & _ & Hinit & _ & _ & _ & _ & Hget).
  cbv zeta in H, Hinit, Hget. exists loc.
  assert (Eloc : loc' = loc).
  { assert (G : JSMap.get a
                  (MemoryAdapter.locations
                     (LocationMonitorService.storage
                        (final (LocationMonitorService.trackLocation config a
                                  lat lon ts meta now w)))) = Some loc')
      by (rewrite Hget; apply get_set_same).
    destruct H as [E | (_ & _ & _ & Hs & _)].
    - rewrite E in G. cbn [final fst snd] in G.
      cbn [LocationMonitorService.storage MemoryAdapter.with_states
           MemoryAdapter.locations] in G.
      rewrite (@keeps_locations_detectStatus (thresholds config) a loc now)
        in G.
      cbn in G. rewrite get_set_same in G. congruence.
    - destruct Hs as [Hs | Hs]; rewrite Hs in G;
        rewrite ?(@keeps_locations_detectStatus (thresholds config) a loc now)
          in G;
        cbn in G; rewrite get_set_same in G; congruence. }
  subst loc'. split.
  - destruct H as [E | (F & NC & _)]; [left; now rewrite E | right; auto].
  - split; [|repeat split; auto].
    unfold LocationMonitorService.getLocation,
      LocationMonitorService.ensureInitialized,
      LocationMonitorService.onStorage, LocationEngine.getCurrentLocation,
      MemoryAdapter.getLastLocation, zoom, bind, read, ret, result.
    rewrite Hinit. cbn [negb fst snd]. rewrite Hget.
    now rewrite get_set_same.
Qed.

(** X9. A [track] with valid input on a started service publishes
    exactly one [location.received] event, before any other event; it
    carries the sample and goes to the current subscribers.  For an agent
    without a stored location the sample has neither speed nor heading
    and the distance reported is 0.  This also holds when a subscriber
    makes the call fail. *)
Theorem X9_track_publishes_one_location_event a lat lon ts meta now w :
  LocationMonitorService.initialized w = true ->
  JS.truthyStr a = true ->
  DistanceCalculator.isValidCoordinate lat lon = true ->
  let o := LocationMonitorService.trackLocation config a lat lon ts meta
             now w in
  exists loc d rest,
    (result o = Ok loc \/
     result o = Throw SubscriberRejected /\
     ~ calm (MemoryAdapter.eventHandlers (LocationMonitorService.storage w)))
    /\
    snd o =
      {| event :=
           {| type := LOCATION_RECEIVED;
              payload := PLocationReceived
                           {| lr_agentId := a;
                              lr_location := loc;
                              distanceTraveled := d;
                              lr_speed := speed loc |};
              ev_timestamp := now |};
         receivers :=
           MemoryAdapter.eventHandlers (LocationMonitorService.storage w) |}
      :: rest /\
    Forall (fun e => type (event e) <> LOCATION_RECEIVED) rest /\
    (JSMap.get a (MemoryAdapter.locations (LocationMonitorService.storage w))
       = None ->
     speed loc = None /\ heading loc = None /\ d = 0).
Proof.
  intros Hi Ha Hc o. subst o.
  destruct (trackLocation_stages config a lat lon ts meta now w Hi Ha Hc)
    as (loc & d & H & H1 & _ & _ & _ & _ & H6).
  cbv zeta in H.
  assert (N : Forall notLocation
                (snd (StatusEngine.detectStatus (thresholds config) a loc now
                        (MemoryAdapter.with_stats
                           (JSMap.set a
                              (bumped a (timestamp loc)
                                 (MemoryAdapter.stats
                                    (LocationMonitorService.storage w))))
                           (MemoryAdapter.with_locations (JSMap.set a loc)
                              (LocationMonitorService.storage w)))) ++
                 (if gf_enabled (geofence config)
                  then flat_map
                         (turnEvents a loc
                            (GeoEngine.membership a
                               (LocationMonitorService.geoEngine w)) now
                            (MemoryAdapter.eventHandlers
                               (LocationMonitorService.storage w)))
                         (GeoEngine.geofences
                            (LocationMonitorService.geoEngine w))
                  else []))).
  { apply Forall_app. split.
    - apply (@notLocation_detectStatus (thresholds config) a loc).
    - destruct (gf_enabled (geofence config)); [|constructor].
      apply notLocation_turnEvents. }
  destruct H as [E | (F & NC & _ & _ & _ & out & more & Eo & Em)].
  - eexists loc, d, _. rewrite E. cbn [result fst snd].
    split; [now left|]. split.
    + unfold locationDelivery. rewrite H1. reflexivity.
    + split; [exact N | exact H6].
  - exists loc, d, out. split; [right; auto|]. split.
    + rewrite Eo. unfold locationDelivery. rewrite H1. reflexivity.
    + split; [|exact H6]. rewrite Em in N.
      apply Forall_app in N. apply N.
Qed.


(** X11. When an agent reports the same coordinates twice in a row and
    the first [track] completes, the second one publishes no geofence
    event. *)
Theorem X11_same_position_again_crosses_nothing calls a lat lon ts meta now
    ts' meta' now' loc :
  let w := runFrom config LocationMonitorService.new calls in
  let first :=
    LocationMonitorService.trackLocation config a lat lon ts meta now w in
  result first = Ok loc ->
  Forall plain
    (snd (LocationMonitorService.trackLocation config a lat lon ts' meta'
            now' (final first))).
Proof.
  intros w first Hok.
  pose proof (WellFormed_reachable config calls) as WF. fold w in WF.
  destruct WF as [_ (_ & N & _)].
  destruct (LocationMonitorService.initialized w) eqn:Hi;
    [destruct (JS.truthyStr a) eqn:Ha;
     [destruct (DistanceCalculator.isValidCoordinate lat lon) eqn:Hc|]|].
  2-4: destruct (@trackLocation_rejects RT config a lat lon ts meta now w)
         as (e & E & _); [tauto|];
       unfold first in Hok; rewrite E in Hok; discriminate.
  destruct (trackLocation_completes config a lat lon ts meta now w Hi Ha Hc
              (or_intror (ex_intro _ loc Hok)))
    as (loc1 & d & E & _ & Hlat & Hlon & _).
  cbv zeta in E. unfold first. rewrite E. cbn [final fst snd].
  match goal with
  | |- context [LocationMonitorService.trackLocation _ _ _ _ _ _ _ ?W] =>
      set (w1 := W)
  end.
  destruct (trackLocation_stages config a lat lon ts' meta' now' w1
              eq_refl Ha Hc)
    as (loc' & d' & H' & _ & Hlat' & Hlon' & _).
  cbv zeta in H'.
  assert (P : Forall plain
                (snd (StatusEngine.detectStatus (thresholds config) a loc'
                        now'
                        (MemoryAdapter.with_stats
                           (JSMap.set a
                              (bumped a (timestamp loc')
                                 (MemoryAdapter.stats
                                    (LocationMonitorService.storage w1))))
                           (MemoryAdapter.with_locations (JSMap.set a loc')
                              (LocationMonitorService.storage w1)))) ++
                 (if gf_enabled (geofence config)
                  then flat_map
                         (turnEvents a loc'
                            (GeoEngine.membership a
                               (LocationMonitorService.geoEngine w1)) now'
                            (MemoryAdapter.eventHandlers
                               (LocationMonitorService.storage w1)))
                         (GeoEngine.geofences
                            (LocationMonitorService.geoEngine w1))
                  else []))).
  { apply Forall_app. split.
    - apply (@plain_detectStatus (thresholds config) a loc').
    - unfold w1.
      cbn [LocationMonitorService.geoEngine LocationMonitorService.storage].
      destruct (gf_enabled (geofence config)); [|constructor].
      rewrite membership_afterCheck. cbn [afterCheck GeoEngine.geofences].
      rewrite second_pass_is_silent;
        [constructor|exact N|congruence|congruence]. }
  destruct H' as [E' | (_ & _ & _ & _ & _ & out & more & Eo & Em)].
  - rewrite E'. cbn [snd].
    constructor; [apply plain_locationDelivery | exact P].
  - rewrite Eo. constructor; [apply plain_locationDelivery|].
    rewrite Em in P. apply Forall_app in P. apply P.
Qed.

(** X12. After a [track] that completes, with geofencing enabled, the
    zones of the agent are the registered zones that contain the reported
    coordinates, in registration order.  A [track] with valid input on a
    started service completes when no subscriber's promise rejects. *)
Theorem X12_tracked_agent_is_in_the_containing_zones calls a lat lon ts meta
    now now' :
  let w := runFrom config LocationMonitorService.new calls in
  LocationMonitorService.initialized w = true ->
  gf_enabled (geofence config) = true ->
  JS.truthyStr a = true ->
  DistanceCalculator.isValidCoordinate lat lon = true ->
  calm (MemoryAdapter.eventHandlers (LocationMonitorService.storage w)) \/
  (exists x,
     result (LocationMonitorService.trackLocation config a lat lon ts meta
               now w) = Ok x) ->
  let w' := final (LocationMonitorService.trackLocation config a lat lon ts
                     meta now w) in
  exists zones,
    result (LocationMonitorService.getGeofences now' w') = Ok zones /\
    result (LocationMonitorService.getAgentGeofences a now' w') =
      Ok (GeoUtils.getContainingGeofences lat lon zones).
Proof.
  intros w Hi Hg Ha Hc Hok w'.
  pose proof (WellFormed_reachable config calls) as WF. fold w in WF.
  destruct WF as [_ (_ & N & _)].
  destruct (trackLocation_completes config a lat lon ts meta now w Hi Ha Hc
              Hok)
    as (loc & d & E & _ & Hlat & Hlon & _).
  cbv zeta in E. unfold w'. clear w'. rewrite E. cbn [final fst snd].
  rewrite Hg.
  unfold LocationMonitorService.getGeofences,
    LocationMonitorService.getAgentGeofences,
    LocationMonitorService.ensureInitialized,
    LocationMonitorService.onGeoEngine,
    GeoEngine.getGeofences, GeoEngine.getAgentGeofences,
    zoom, bind, read, ret, result.
  cbn [LocationMonitorService.geoEngine LocationMonitorService.initialized
       negb fst snd app].
  eexists. split; [reflexivity|].
  rewrite membership_afterCheck. cbn [afterCheck GeoEngine.geofences].
  rewrite registered_zones_of by exact N. now rewrite Hlat, Hlon.
Qed.

(** X13. With geofencing disabled in the configuration, [track] leaves
    the zones of every agent as they are and publishes no geofence
    event. *)
Theorem X13_disabled_geofencing_is_inert a lat lon ts meta :
  gf_enabled (geofence config) = false ->
  keeps LocationMonitorService.geoEngine
    (LocationMonitorService.trackLocation config a lat lon ts meta) /\
  emitsOnly plain
    (LocationMonitorService.trackLocation config a lat lon ts meta).
Proof.
  intros Hg. change (geoStable (LocationMonitorService.trackLocation config a
                                  lat lon ts meta)).
  unfold LocationMonitorService.trackLocation. rewrite Hg.
  stable_auto.
Qed.
End Tracking.

(** ** The status engine and the watchdog *)

(** X14. [updateStatus] publishes a [status.changed] event first and
    after it at most one of [agent.unreachable], [agent.back-online],
    [agent.idle] and [agent.active]; none of them when the old and the
    new status are the same. *)
Theorem X14_updateStatus_publishes_at_most_one_specific_event agentId
    oldStatus newStatus timestamp reason now s :
  exists first rest,
    snd (StatusEngine.updateStatus agentId oldStatus newStatus timestamp
           reason now s) = first :: rest /\
    type (event first) = STATUS_CHANGED /\
    (length rest <= 1)%nat /\
    Forall (fun d => In (type (event d))
                       [AGENT_UNREACHABLE; AGENT_BACK_ONLINE; AGENT_IDLE;
                        AGENT_ACTIVE]) rest /\
    (oldStatus = newStatus -> rest = []).
Proof.
  unfold StatusEngine.updateStatus, StatusEngine.emitSpecificStatusEvents,
    MemoryAdapter.saveStatus, MemoryAdapter.getAgentState.
  destruct oldStatus, newStatus; cbn [AgentStatus_eqb andb orb negb];
    settle; cbn [snd app];
    eexists _, _; (split; [reflexivity|]);
    (split; [reflexivity|]);
    (split; [cbn [length]; lia|]);
    (split; [repeat constructor; cbn; tauto|]);
    intros H; try discriminate H; reflexivity.
Qed.

(** X15. [checkStatusByTime] settles on the status of the snapshot or
    on one of UNREACHABLE, OFFLINE and IDLE: the watchdog never makes an
    agent ACTIVE, MOVING or STOPPED.  It returns this status, unless a
    subscriber's promise rejects; and it either writes nothing or
    persists this status. *)
Theorem X15_checkStatusByTime_only_degrades th agentId now s :
  let o := StatusEngine.checkStatusByTime th agentId now s in
  exists r,
    (result o = Ok r \/
     result o = Throw SubscriberRejected /\
     ~ calm (MemoryAdapter.eventHandlers s)) /\
    (r = UNREACHABLE \/ r = OFFLINE \/ r = IDLE \/
     option_map status (JSMap.get agentId (MemoryAdapter.states s)) = Some r)
    /\
    (final o = s \/
     option_map se_status
       (JSMap.get agentId (MemoryAdapter.statuses (final o))) = Some r).
Proof.
  cbv zeta. rewrite checkStatusByTime_exact.
  destruct (JSMap.get agentId (MemoryAdapter.states s)) as [st|];
    [|exists OFFLINE; cbn; auto].
  destruct (negb (JS.truthy (lastUpdate st)));
    [exists OFFLINE; cbn; auto|].
  cbv zeta. exists (StatusEngine.statusByTime th now st).
  assert (R : StatusEngine.statusByTime th now st = UNREACHABLE \/
              StatusEngine.statusByTime th now st = OFFLINE \/
              StatusEngine.statusByTime th now st = IDLE \/
              option_map status (Some st) =
                Some (StatusEngine.statusByTime th now st)).
  { unfold StatusEngine.statusByTime.
    repeat match goal with
           | |- context [if ?b then _ else _] => destruct b
           end; simpl; auto. }
  destruct (negb (AgentStatus_eqb (status st)
                    (StatusEngine.statusByTime th now st)));
    [|cbn; auto].
  destruct (updateStatus_run agentId (status st)
              (StatusEngine.statusByTime th now st) now None now s)
    as (r & out & E & C).
  rewrite E. cbn [result final fst snd].
  split; [destruct C as [-> | [-> NC]]; auto|]. split; [exact R|].
  right. cbn [MemoryAdapter.with_statuses MemoryAdapter.statuses].
  now rewrite get_set_same.
Qed.

Lemma set_set V k (v : V) m : JSMap.set k v (JSMap.set k v m) = JSMap.set k v m.
Proof.
  induction m as [|[k' v'] m IH]; simpl.
  - now rewrite String.eqb_refl.
  - destruct (String.eqb k k') eqn:E; simpl; rewrite E; [reflexivity|].
    now rewrite IH.
Qed.

(** What [updateStatus] publishes, and whether a subscriber makes it
    fail, depends on the state only through the snapshots and the
    subscribers. *)
Lemma updateStatus_events agentId old new ts reason now s s' :
  MemoryAdapter.states s' = MemoryAdapter.states s ->
  MemoryAdapter.eventHandlers s' = MemoryAdapter.eventHandlers s ->
  result (StatusEngine.updateStatus agentId old new ts reason now s') =
    result (StatusEngine.updateStatus agentId old new ts reason now s) /\
  snd (StatusEngine.updateStatus agentId old new ts reason now s') =
    snd (StatusEngine.updateStatus agentId old new ts reason now s).
Proof.
  intros Hs Hh.
  unfold StatusEngine.updateStatus, StatusEngine.emitSpecificStatusEvents,
    MemoryAdapter.saveStatus, MemoryAdapter.getAgentState, result.
  cbv beta iota zeta delta [bind ret read getNow modify].
  rewrite !publishEvent_run.
  cbn [MemoryAdapter.with_statuses MemoryAdapter.eventHandlers
       MemoryAdapter.states].
  rewrite Hs, Hh.
  destruct (settled (MemoryAdapter.eventHandlers s) _); [|now split].
  destruct old, new; cbn [AgentStatus_eqb andb orb negb];
    rewrite ?publishEvent_run;
    cbn [MemoryAdapter.with_statuses MemoryAdapter.eventHandlers
         MemoryAdapter.states];
    rewrite ?Hh;
    repeat match goal with
           | |- context [settled ?hs ?e] => destruct (settled hs e)
           end;
    split; reflexivity.
Qed.

(** X16. [checkStatusByTime] reads the status from the snapshot and
    does not update the snapshot: a second check at the same clock
    returns the same status, leaves the state of the first and publishes
    the same events once more. *)
Theorem X16_checkStatusByTime_repeats_itself th agentId now s :
  StatusEngine.checkStatusByTime th agentId now
    (final (StatusEngine.checkStatusByTime th agentId now s)) =
  StatusEngine.checkStatusByTime th agentId now s.
Proof.
  rewrite (checkStatusByTime_exact th agentId now s).
  destruct (JSMap.get agentId (MemoryAdapter.states s)) as [st|] eqn:G.
  2: { cbn [final fst snd]. rewrite checkStatusByTime_exact. now rewrite G. }
  destruct (negb (JS.truthy (lastUpdate st))) eqn:T.
  { cbn [final fst snd]. rewrite checkStatusByTime_exact. now rewrite G, T. }
  cbv zeta. set (new := StatusEngine.statusByTime th now st).
  destruct (negb (AgentStatus_eqb (status st) new)) eqn:D.
  - cbn [final fst snd]. rewrite checkStatusByTime_exact.
    cbn [MemoryAdapter.with_statuses MemoryAdapter.states].
    rewrite G, T. cbv zeta. fold new. rewrite D.
    destruct (@updateStatus_events agentId (status st) new now None now s
                (MemoryAdapter.with_statuses
                   (JSMap.set agentId
                      {| se_status := new; se_timestamp := now |}) s)
                eq_refl eq_refl) as [Er Eo].
    rewrite Er, Eo.
    unfold MemoryAdapter.with_statuses.
    cbn [MemoryAdapter.locations MemoryAdapter.statuses MemoryAdapter.states
         MemoryAdapter.stats MemoryAdapter.eventHandlers].
    now rewrite set_set.
  - cbn [final fst snd]. rewrite checkStatusByTime_exact.
    rewrite G, T. cbv zeta. fold new. now rewrite D.
Qed.

(** X17. An agent whose snapshot says OFFLINE is left alone by
    [checkStatusByTime], however old the snapshot is: the check returns
    OFFLINE, writes nothing and publishes nothing. *)
Theorem X17_offline_snapshot_is_left_alone th agentId now s st :
  JSMap.get agentId (MemoryAdapter.states s) = Some st ->
  status st = OFFLINE ->
  StatusEngine.checkStatusByTime th agentId now s = (Ok OFFLINE, s, []).
Proof.
  intros G O.
  unfold StatusEngine.checkStatusByTime, MemoryAdapter.getAgentState,
    bind, read, getNow, ret.
  rewrite G. destruct (negb (JS.truthy (lastUpdate st))); [reflexivity|].
  unfold StatusEngine.statusByTime. rewrite O.
  cbn [AgentStatus_eqb negb andb orb].
  rewrite !andb_false_r. reflexivity.
Qed.

(** X18. After [setStatus], [getStatus] returns the status that was
    set, and setting the same status again writes nothing and publishes
    nothing. *)
Theorem X18_setStatus_reads_back_and_repeats_silently agentId status reason
    reason' now now' s :
  let s1 := final (StatusEngine.setStatus agentId status reason now s) in
  result (StatusEngine.getStatus agentId now' s1) = Ok (Some status) /\
  StatusEngine.setStatus agentId status reason' now' s1 = (Ok tt, s1, []).
Proof.
  cbv zeta.
  assert (R : forall s1,
             option_map se_status
               (JSMap.get agentId (MemoryAdapter.statuses s1)) = Some status ->
             result (StatusEngine.getStatus agentId now' s1) =
               Ok (Some status) /\
             StatusEngine.setStatus agentId status reason' now' s1 =
               (Ok tt, s1, [])).
  { intros s1 H.
    unfold StatusEngine.getStatus, StatusEngine.setStatus,
      MemoryAdapter.getStatus, bind, read, getNow, ret, result.
    cbn [fst]. rewrite H. cbn [StatusEngine.differs].
    assert (E : AgentStatus_eqb status status = true)
      by now apply AgentStatus_eqb_eq.
    rewrite E. split; reflexivity. }
  apply R.
  unfold StatusEngine.setStatus at 1, MemoryAdapter.getStatus.
  unfold bind at 1. unfold read at 1. cbv beta iota.
  unfold bind at 1. unfold getNow at 1. cbv beta iota.
  destruct (StatusEngine.differs
              (option_map se_status
                 (JSMap.get agentId (MemoryAdapter.statuses s))) status)
    eqn:D.
  - destruct (updateStatus_run agentId
                (StatusEngine.orElse
                   (option_map se_status
                      (JSMap.get agentId (MemoryAdapter.statuses s)))
                   OFFLINE) status now reason now s) as (r & out & E & _).
    rewrite E. cbn [final fst snd].
    cbn [MemoryAdapter.with_statuses MemoryAdapter.statuses].
    now rewrite get_set_same.
  - cbn [final fst snd ret]. unfold StatusEngine.differs in D.
    destruct (option_map se_status
                (JSMap.get agentId (MemoryAdapter.statuses s))) as [c|];
      [|discriminate].
    apply negb_false_iff, AgentStatus_eqb_eq in D. now subst.
Qed.

Lemma keeps_except_statuses X (view : MemoryAdapter.t -> X) th :
  (forall f s, view (MemoryAdapter.with_statuses f s) = view s) ->
  keeps view (WatchdogEngine.performCheck th).
Proof.
  intros H.
  unfold WatchdogEngine.performCheck, WatchdogEngine.checkAgent,
    StatusEngine.checkStatusByTime, StatusEngine.updateStatus,
    StatusEngine.emitSpecificStatusEvents, MemoryAdapter.getAllAgents,
    MemoryAdapter.getAgentState, MemoryAdapter.saveStatus,
    MemoryAdapter.publishEvent.
  repeat match goal with
  | |- keeps _ (bind _ _) => apply keeps_bind; [|intros]
  | |- keeps _ (modify _) => apply keeps_modify; intros; apply H
  | |- keeps _ (tryCatch _) => apply keeps_tryCatch
  | |- keeps _ (forEach _ _) => apply keeps_forEach; intros
  | |- keeps _ (if ?b then _ else _) => destruct b
  | |- keeps _ (match ?x with _ => _ end) => destruct x
  | |- keeps _ (let _ := _ in _) => cbv zeta
  | |- keeps _ _ => solve [auto with keeps]
  end.
Qed.

(** X19. A sweep of the watchdog never fails and writes nothing but
    statuses: locations, snapshots, statistics and subscribers are as
    before. *)
Theorem X19_watchdog_sweep_writes_only_statuses th now s :
  let o := WatchdogEngine.performCheck th now s in
  result o = Ok tt /\
  MemoryAdapter.locations (final o) = MemoryAdapter.locations s /\
  MemoryAdapter.states (final o) = MemoryAdapter.states s /\
  MemoryAdapter.stats (final o) = MemoryAdapter.stats s /\
  MemoryAdapter.eventHandlers (final o) = MemoryAdapter.eventHandlers s.
Proof.
  cbv zeta. split.
  - unfold WatchdogEngine.performCheck, tryCatch, result.
    match goal with
    | |- fst (fst (match ?x with _ => _ end)) = _ =>
        destruct x as [[[?|?] ?] ?]
    end; reflexivity.
  - repeat split; apply keeps_except_statuses; reflexivity.
Qed.

(** ** The life cycle of the service *)

Section Lifecycle.
Context {RT : JS.Runtime}.
Variable config : LocationMonitorConfig.

(** X20. Before [initialize] (and after [shutdown]) every operation of
    the service other than [initialize] and [shutdown] fails with the
    not-initialized error, changes nothing and publishes nothing. *)
Theorem X20_calls_on_a_stopped_service_are_refused w now op a b :
  LocationMonitorService.initialized w = false ->
  (guarded op = true ->
   perform config op now w = (Throw NotInitialized, w, [])) /\
  LocationMonitorService.getLocation a now w =
    (Throw NotInitialized, w, []) /\
  LocationMonitorService.getStatus a now w =
    (Throw NotInitialized, w, []) /\
  LocationMonitorService.getAgentState a now w =
    (Throw NotInitialized, w, []) /\
  LocationMonitorService.getAgentStats a now w =
    (Throw NotInitialized, w, []) /\
  LocationMonitorService.getAllAgents now w =
    (Throw NotInitialized, w, []) /\
  LocationMonitorService.getGeofences now w =
    (Throw NotInitialized, w, []) /\
  LocationMonitorService.getAgentGeofences a now w =
    (Throw NotInitialized, w, []) /\
  LocationMonitorService.getDistanceBetweenAgents a b now w =
    (Throw NotInitialized, w, []).
Proof.
  intros Hi.
  assert (G : forall A (k : M LocationMonitorService.t A),
             (LocationMonitorService.ensureInitialized ;;; k) now w =
               (Throw NotInitialized, w, []) /\
             ((LocationMonitorService.ensureInitialized ;;; k) ;;; ret tt)
               now w = (Throw NotInitialized, w, [])).
  { intros. unfold LocationMonitorService.ensureInitialized, bind, read,
      throw. rewrite Hi. split; reflexivity. }
  repeat split; try apply G.
  destruct op; try discriminate; intros _; unfold perform; apply G.
Qed.

(** X21. [initialize] starts the service without touching what is
    stored or registered; it arms the watchdog exactly when the service
    was stopped and the watchdog is enabled; and a second [initialize]
    does nothing. *)
Theorem X21_initialize_starts_once now now' w :
  let w1 := final (LocationMonitorService.initialize config now w) in
  LocationMonitorService.initialized w1 = true /\
  LocationMonitorService.storage w1 = LocationMonitorService.storage w /\
  LocationMonitorService.geoEngine w1 = LocationMonitorService.geoEngine w /\
  WatchdogEngine.isRunning (LocationMonitorService.watchdogEngine w1) =
    WatchdogEngine.isRunning (LocationMonitorService.watchdogEngine w) ||
    negb (LocationMonitorService.initialized w) &&
    wd_enabled (watchdog config) /\
  LocationMonitorService.initialize config now' w1 = (Ok tt, w1, []).
Proof.
  destruct w as [s g [running] i].
  destruct config as [th [enabled interval] gf].
  destruct i, running, enabled; cbv; repeat split; reflexivity.
Qed.

(** X22. [shutdown] disarms the watchdog: afterwards it is inactive and a
    tick of its timer does nothing. *)
Theorem X22_shutdown_disarms_the_watchdog now now' w :
  let w1 := final (LocationMonitorService.shutdown now w) in
  result (LocationMonitorService.onWatchdogEngine WatchdogEngine.isActive
            now' w1) = Ok false /\
  LocationMonitorService.watchdogTick config now' w1 = (Ok tt, w1, []).
Proof.
  destruct w as [s g [running] i].
  destruct running; cbv; split; reflexivity.
Qed.
End Lifecycle.

(** ** The geofence registry *)

(** X23. [registerGeofence] stores a zone that [validateGeofence]
    accepts under its id, where [getGeofence] finds it, and leaves the
    zones with other ids alone; a zone that [validateGeofence] rejects
    makes it fail with the list of errors, which is not empty, and
    changes nothing. *)
Theorem X23_registerGeofence_stores_or_refuses geofence now now' s :
  let validation := GeoUtils.validateGeofence geofence in
  if GeoUtils.valid validation
  then
    let s1 := final (GeoEngine.registerGeofence geofence now s) in
    result (GeoEngine.registerGeofence geofence now s) = Ok tt /\
    result (GeoEngine.getGeofence (gf_id geofence) now' s1) =
      Ok (Some geofence) /\
    forall k, k <> gf_id geofence ->
      result (GeoEngine.getGeofence k now' s1) =
      result (GeoEngine.getGeofence k now' s)
  else
    GeoEngine.registerGeofence geofence now s =
      (Throw (InvalidGeofence (GeoUtils.errors validation)), s, []) /\
    GeoUtils.errors validation <> [].
Proof.
  cbv zeta. unfold GeoEngine.registerGeofence.
  destruct (GeoUtils.valid (GeoUtils.validateGeofence geofence)) eqn:V;
    cbn [negb].
  - unfold GeoEngine.getGeofence, modify, read, result, final.
    cbn [fst snd GeoEngine.geofences]. split; [reflexivity|]. split.
    + now rewrite get_set_same.
    + intros k Hk. apply String.eqb_neq in Hk.
      now rewrite get_set_other.
  - split; [reflexivity|]. intros E.
    unfold GeoUtils.validateGeofence in V, E.
    cbn [GeoUtils.valid GeoUtils.errors] in V, E. rewrite E in V.
    discriminate.
Qed.

Lemma filter_none A (f : A -> bool) l :
  (forall x, In x l -> f x = false) -> filter f l = [].
Proof.
  induction l as [|x l IH]; simpl; intros H; [reflexivity|].
  rewrite (H x) by now left. apply IH. intros y Hy. apply H. now right.
Qed.

Section Registry.
Context {RT : JS.Runtime}.
Variable config : LocationMonitorConfig.

(** X24. After [removeGeofence] the zone is neither registered nor
    occupied: [getGeofence] does not find it, no agent is in it, and
    [getAgentsInGeofence] is empty.  Zones with other ids keep their
    registration and their agents. *)
Theorem X24_removeGeofence_forgets_the_zone calls z now now' :
  let g := LocationMonitorService.geoEngine
             (runFrom config LocationMonitorService.new calls) in
  let g1 := final (GeoEngine.removeGeofence z now g) in
  result (GeoEngine.getGeofence z now' g1) = Ok None /\
  result (GeoEngine.getAgentsInGeofence z now' g1) = Ok [] /\
  (forall a, result (GeoEngine.isAgentInGeofence a z now' g1) = Ok false) /\
  forall k, k <> z ->
    result (GeoEngine.getGeofence k now' g1) =
      result (GeoEngine.getGeofence k now' g) /\
    forall a,
      result (GeoEngine.isAgentInGeofence a k now' g1) =
      result (GeoEngine.isAgentInGeofence a k now' g).
Proof.
  intros g g1.
  pose proof (WellFormed_reachable config calls) as WF.
  destruct WF as [_ (_ & N & _)]. fold g in N. clearbody g.
  unfold g1. clear g1.
  unfold GeoEngine.removeGeofence, GeoEngine.getGeofence,
    GeoEngine.getAgentsInGeofence, GeoEngine.isAgentInGeofence,
    modify, read, result, final.
  cbn [fst snd GeoEngine.geofences GeoEngine.agentGeofences].
  split; [now rewrite get_delete_same|]. split; [|split].
  - f_equal. rewrite filter_none; [reflexivity|].
    intros [a ids] H. apply in_map_iff in H.
    destruct H as ([a' ids'] & E & _). inversion E; subst.
    cbn [snd]. rewrite has_delete, String.eqb_refl. apply andb_false_r.
  - intros a. rewrite get_map_values.
    destruct (JSMap.get a (GeoEngine.agentGeofences g)); simpl;
      [|reflexivity].
    rewrite has_delete, String.eqb_refl. now rewrite andb_false_r.
  - intros k Hk. apply String.eqb_neq in Hk. split.
    + now rewrite get_delete_other.
    + intros a. rewrite get_map_values.
      destruct (JSMap.get a (GeoEngine.agentGeofences g)); simpl;
        [|reflexivity].
      rewrite has_delete. rewrite String.eqb_sym in Hk. rewrite Hk.
      now rewrite andb_true_r.
Qed.

(** X25. The two membership queries agree: [getAgentsInGeofence] lists,
    each once, exactly the agents for which [isAgentInGeofence] is
    true. *)
Theorem X25_membership_queries_agree calls z now :
  let g := LocationMonitorService.geoEngine
             (runFrom config LocationMonitorService.new calls) in
  exists agents,
    result (GeoEngine.getAgentsInGeofence z now g) = Ok agents /\
    NoDup agents /\
    forall a,
      In a agents <->
      result (GeoEngine.isAgentInGeofence a z now g) = Ok true.
Proof.
  intros g.
  pose proof (WellFormed_reachable config calls) as WF.
  destruct WF as [_ (_ & _ & N)]. fold g in N. clearbody g.
  eexists. split; [reflexivity|].
  unfold GeoEngine.isAgentInGeofence, read, result. cbn [fst].
  set (m := GeoEngine.agentGeofences g) in *. clearbody m.
  split.
  - induction m as [|[a ids] m IH]; simpl; [constructor|].
    inversion N as [|? ? Hn N']; subst.
    destruct (JSSet.has z ids); simpl; auto.
    constructor; auto. intros H. apply Hn.
    apply in_map_iff in H. destruct H as ([a' ids'] & E & H).
    simpl in E. subst a'. apply filter_In in H. destruct H as [H _].
    change (In (fst (a, ids')) (map fst m)). now apply in_map.
  - intros a. rewrite in_map_iff. split.
    + intros ([a' ids] & E & H). simpl in E. subst a'.
      apply filter_In in H. destruct H as [H Hz]. simpl in Hz.
      rewrite (@In_NoDup_get _ a ids m N H). now rewrite Hz.
    + intros H. destruct (JSMap.get a m) as [ids|] eqn:G;
        [|discriminate].
      exists (a, ids). split; [reflexivity|]. apply filter_In. split.
      * now apply get_Some_In.
      * simpl. congruence.
Qed.
End Registry.

(** ** Snapshots and statistics *)

Lemma Forall_set V (P : string * V -> Prop) k v m :
  Forall P m -> P (k, v) -> Forall P (JSMap.set k v m).
Proof.
  intros H Hv. induction m as [|[k' v'] m IH]; simpl.
  - repeat constructor. exact Hv.
  - inversion H; subst. destruct (String.eqb k k') eqn:E.
    + constructor; auto. apply String.eqb_eq in E. subst. exact Hv.
    + constructor; auto.
Qed.

Lemma Forall_delete V (P : string * V -> Prop) k m :
  Forall P m -> Forall P (JSMap.delete k m).
Proof.
  intros H. apply Forall_forall. intros x Hx. apply In_delete in Hx.
  rewrite Forall_forall in H. auto.
Qed.

Lemma keeps_snapshots_onStorage A (m : M MemoryAdapter.t A) :
  keeps MemoryAdapter.states m ->
  keeps snapshots (LocationMonitorService.onStorage m).
Proof.
  intros H. unfold LocationMonitorService.onStorage.
  apply keeps_zoom_in with (viewS := MemoryAdapter.states); auto.
Qed.

Lemma keeps_snapshots_onGeoEngine A (m : M GeoEngine.t A) :
  keeps snapshots (LocationMonitorService.onGeoEngine m).
Proof.
  unfold LocationMonitorService.onGeoEngine. now apply keeps_zoom_out.
Qed.

Ltac snapshots_auto :=
  repeat first
    [ apply keeps_snapshots_onStorage
    | apply keeps_snapshots_onGeoEngine
    | apply keeps_except_statuses; reflexivity
    | match goal with
      | |- keeps _ (let _ := _ in _) => cbv zeta
      end
    | keeps_step ].

Section Distance.
Context {RT : JS.Runtime}.
Variable config : LocationMonitorConfig.

Lemma NoDistance_perform op : preserves NoDistance (perform config op).
Proof.
  assert (K : forall m : M LocationMonitorService.t unit,
             keeps snapshots m -> preserves NoDistance m).
  { intros m H now w Hw. unfold NoDistance. rewrite H. exact Hw. }
  destruct op as [ | | agentId lat lon ts meta | agentId st reason | g0
                 | zoneId | agentId | agentId | | handler | | ];
    unfold perform.
  - apply K. unfold LocationMonitorService.initialize,
      MemoryAdapter.initialize. snapshots_auto.
  - intros now w _. destruct w as [s g [running] i].
    destruct running; constructor.
  - intros now w Hw.
    destruct (LocationMonitorService.initialized w) eqn:Hi;
      [destruct (JS.truthyStr agentId) eqn:Ha;
       [destruct (DistanceCalculator.isValidCoordinate lat lon) eqn:Hc|]|].
    2-4: destruct (@trackLocation_rejects RT config agentId lat lon ts meta
                     now w) as (e & E & _); [tauto|];
         unfold bind; rewrite E; exact Hw.
    destruct (trackLocation_stages config agentId lat lon ts meta now w
                Hi Ha Hc) as (loc & d & [E | (F & _ & _ & Hs & _)] & _).
    2: { cbv zeta in F, Hs.
         match type of Hs with
         | _ \/ _ = final (_ ?S1) =>
             pose proof (keeps_states_detectStatus (thresholds config)
                           agentId loc now S1) as Ks
         end.
         unfold bind, result, final in *.
         destruct (LocationMonitorService.trackLocation config agentId lat
                     lon ts meta now w) as [[r w1] out].
         cbn [fst snd] in *. subst r. cbn [fst snd].
         unfold NoDistance, snapshots in *.
         destruct Hs as [Hs | Hs]; rewrite Hs; [|rewrite Ks]; exact Hw. }
    cbv zeta in E. unfold bind. rewrite E. cbn [final fst snd ret].
    unfold NoDistance, snapshots in *.
    cbn [LocationMonitorService.storage MemoryAdapter.with_states
         MemoryAdapter.states].
    rewrite (@keeps_states_detectStatus (thresholds config) agentId loc now).
    cbn [MemoryAdapter.with_stats MemoryAdapter.with_locations
         MemoryAdapter.states].
    apply Forall_set; [exact Hw|].
    cbn [snd snapshotOf totalDistanceTraveled].
    destruct (JSMap.get agentId
                (MemoryAdapter.states (LocationMonitorService.storage w)))
      as [c|] eqn:G; [|reflexivity].
    apply get_Some_In in G.
    rewrite Forall_forall in Hw. specialize (Hw _ G). simpl in Hw.
    rewrite Hw. reflexivity.
  - apply K. unfold LocationMonitorService.setStatus,
      StatusEngine.setStatus, MemoryAdapter.getStatus. snapshots_auto.
  - apply K. unfold LocationMonitorService.registerGeofence. snapshots_auto.
  - apply K. unfold LocationMonitorService.removeGeofence. snapshots_auto.
  - intros now w Hw. unfold NoDistance, snapshots in *.
    unfold LocationMonitorService.clearAgentData,
      LocationMonitorService.ensureInitialized,
      LocationMonitorService.onStorage, LocationMonitorService.onGeoEngine,
      MemoryAdapter.clearAgentData, GeoEngine.clearAgentGeofences,
      zoom, bind, read, modify, throw, ret, final.
    destruct (LocationMonitorService.initialized w); cbn; [|exact Hw].
    now apply Forall_delete.
  - apply K. unfold LocationMonitorService.forceWatchdogCheck,
      WatchdogEngine.forceCheck, WatchdogEngine.checkAgent,
      StatusEngine.checkStatusByTime, MemoryAdapter.getAgentState.
    snapshots_auto.
  - apply K. unfold LocationMonitorService.forceWatchdogCheckAll,
      WatchdogEngine.forceCheckAll. snapshots_auto.
  - apply K. unfold LocationMonitorService.subscribeEvents,
      MemoryAdapter.subscribeEvents. snapshots_auto.
  - apply K. unfold LocationMonitorService.unsubscribeEvents,
      MemoryAdapter.unsubscribeEvents. snapshots_auto.
  - apply K. unfold LocationMonitorService.watchdogTick,
      WatchdogEngine.isActive. snapshots_auto.
Qed.

Lemma NoDistance_runFrom calls :
  forall w, NoDistance w -> NoDistance (runFrom config w calls).
Proof.
  induction calls as [|[now op] calls IH]; intros w H; simpl; auto.
  apply IH, NoDistance_perform, H.
Qed.

(** X26. Whatever the agents report, the snapshot that [getAgentState]
    returns has [totalDistanceTraveled] = 0: [updateAgentState] copies
    the field from the previous snapshot and starts it at 0, and nothing
    adds to it. *)
Theorem X26_snapshot_distance_stays_zero calls a now :
  match result (LocationMonitorService.getAgentState a now
                  (runFrom config LocationMonitorService.new calls)) with
  | Ok (Some snapshot) => totalDistanceTraveled snapshot = 0
  | _ => True
  end.
Proof.
  pose proof (@NoDistance_runFrom calls LocationMonitorService.new
                (Forall_nil _)) as H.
  set (w := runFrom config LocationMonitorService.new calls) in *.
  unfold LocationMonitorService.getAgentState,
    LocationMonitorService.ensureInitialized,
    LocationMonitorService.onStorage, MemoryAdapter.getAgentState,
    zoom, bind, read, throw, ret, result.
  destruct (LocationMonitorService.initialized w); cbn; [|exact I].
  destruct (JSMap.get a (MemoryAdapter.states
                           (LocationMonitorService.storage w)))
    as [c|] eqn:G; [|exact I].
  apply get_Some_In in G. unfold NoDistance, snapshots in H.
  rewrite Forall_forall in H. exact (H _ G).
Qed.
End Distance.

Lemma keeps_ledger_onStorage A (m : M MemoryAdapter.t A) :
  keeps storageLedger m -> keeps ledger (LocationMonitorService.onStorage m).
Proof.
  intros H. unfold LocationMonitorService.onStorage.
  apply keeps_zoom_in with (viewS := storageLedger); auto.
Qed.

Lemma keeps_ledger_onGeoEngine A (m : M GeoEngine.t A) :
  keeps ledger (LocationMonitorService.onGeoEngine m).
Proof.
  unfold LocationMonitorService.onGeoEngine. now apply keeps_zoom_out.
Qed.

Ltac ledger_auto :=
  repeat first
    [ apply keeps_ledger_onStorage
    | apply keeps_ledger_onGeoEngine
    | apply keeps_except_statuses; reflexivity
    | match goal with
      | |- keeps _ (let _ := _ in _) => cbv zeta
      end
    | keeps_step ].

Section Ledger.
Context {RT : JS.Runtime}.
Variable config : LocationMonitorConfig.

Lemma InStep_perform op now w :
  StoreInv (LocationMonitorService.storage w) -> InStep w ->
  InStep (final (perform config op now w)).
Proof.
  intros SI Hw.
  assert (K : forall m : M LocationMonitorService.t unit,
             keeps ledger m -> InStep (final (m now w))).
  { intros m H a. rewrite (H now w). apply Hw. }
  destruct op as [ | | agentId lat lon ts meta | agentId st reason | g0
                 | zoneId | agentId | agentId | | handler | | ];
    unfold perform.
  - apply K. unfold LocationMonitorService.initialize,
      MemoryAdapter.initialize. ledger_auto.
  - intros a. destruct w as [s g [running] i]. destruct running; reflexivity.
  - destruct (LocationMonitorService.initialized w) eqn:Hi;
      [destruct (JS.truthyStr agentId) eqn:Ha;
       [destruct (DistanceCalculator.isValidCoordinate lat lon) eqn:Hc|]|].
    2-4: destruct (@trackLocation_rejects RT config agentId lat lon ts meta
                     now w) as (e & E & _); [tauto|];
         unfold bind; rewrite E; exact Hw.
    destruct (trackLocation_stores config agentId lat lon ts meta now w
                Hi Ha Hc) as (loc & _ & _ & _ & _ & _ & Hs & Hl).
    cbv zeta in Hs, Hl. unfold statsOf in Hs.
    assert (F : final ((LocationMonitorService.trackLocation config agentId
                          lat lon ts meta ;;; ret tt) now w) =
                final (LocationMonitorService.trackLocation config agentId
                         lat lon ts meta now w)).
    { unfold bind, ret, final.
      now destruct (LocationMonitorService.trackLocation config agentId lat
                      lon ts meta now w) as [[[x|e] w1] out]. }
    rewrite F. intros a. unfold ledger, storageLedger. cbn [fst snd].
    rewrite Hs, Hl. unfold bumped.
    destruct (String.eqb a agentId) eqn:Ea.
    + apply String.eqb_eq in Ea. subst a. now rewrite !get_set_same.
    + rewrite !get_set_other by assumption. apply Hw.
  - apply K. unfold LocationMonitorService.setStatus,
      StatusEngine.setStatus, StatusEngine.updateStatus,
      StatusEngine.emitSpecificStatusEvents, MemoryAdapter.getStatus,
      MemoryAdapter.saveStatus, MemoryAdapter.getAgentState,
      MemoryAdapter.publishEvent.
    ledger_auto.
  - apply K. unfold LocationMonitorService.registerGeofence. ledger_auto.
  - apply K. unfold LocationMonitorService.removeGeofence. ledger_auto.
  - intros a. destruct SI as (N1 & _ & _ & N4).
    unfold ledger, storageLedger.
    unfold LocationMonitorService.clearAgentData,
      LocationMonitorService.ensureInitialized,
      LocationMonitorService.onStorage, LocationMonitorService.onGeoEngine,
      MemoryAdapter.clearAgentData, GeoEngine.clearAgentGeofences,
      zoom, bind, read, modify, throw, ret, final.
    destruct (LocationMonitorService.initialized w);
      cbn [negb fst snd LocationMonitorService.storage
           MemoryAdapter.with_locations MemoryAdapter.with_statuses
           MemoryAdapter.with_states MemoryAdapter.with_stats
           MemoryAdapter.locations MemoryAdapter.stats]; [|apply Hw].
    destruct (String.eqb a agentId) eqn:Ea.
    + apply String.eqb_eq in Ea. subst a.
      now rewrite !get_delete_same by assumption.
    + rewrite !get_delete_other by assumption. apply Hw.
  - apply K. unfold LocationMonitorService.forceWatchdogCheck,
      WatchdogEngine.forceCheck, WatchdogEngine.checkAgent,
      StatusEngine.checkStatusByTime, StatusEngine.updateStatus,
      StatusEngine.emitSpecificStatusEvents, MemoryAdapter.getAgentState,
      MemoryAdapter.saveStatus, MemoryAdapter.publishEvent.
    ledger_auto.
  - apply K. unfold LocationMonitorService.forceWatchdogCheckAll,
      WatchdogEngine.forceCheckAll. ledger_auto.
  - apply K. unfold LocationMonitorService.subscribeEvents,
      MemoryAdapter.subscribeEvents. ledger_auto.
  - apply K. unfold LocationMonitorService.unsubscribeEvents,
      MemoryAdapter.unsubscribeEvents. ledger_auto.
  - apply K. unfold LocationMonitorService.watchdogTick,
      WatchdogEngine.isActive. ledger_auto.
Qed.

Lemma InStep_runFrom calls :
  forall w, WellFormed w -> InStep w -> InStep (runFrom config w calls).
Proof.
  induction calls as [|[now op] calls IH]; intros w WF H; simpl; auto.
  apply IH.
  - now apply WellFormed_perform.
  - apply InStep_perform; auto. apply WF.
Qed.

(** X27. On a started service [getDistanceBetweenAgents] never fails
    and changes nothing; it returns no distance exactly when one of the
    two agents has no stored location, and the distance between the two
    stored samples otherwise. *)
Theorem X27_distance_needs_both_locations w a b now :
  LocationMonitorService.initialized w = true ->
  exists r,
    LocationMonitorService.getDistanceBetweenAgents a b now w =
      (Ok r, w, []) /\
    match result (LocationMonitorService.getLocation a now w),
          result (LocationMonitorService.getLocation b now w) with
    | Ok (Some la), Ok (Some lb) =>
        r = Some (DistanceCalculator.calculateDistance
                    (latitude la) (longitude la)
                    (latitude lb) (longitude lb))
    | _, _ => r = None
    end.
Proof.
  intros Hi. destruct w as [s g d i]. simpl in Hi. subst i.
  unfold LocationMonitorService.getDistanceBetweenAgents,
    LocationMonitorService.getLocation,
    LocationMonitorService.ensureInitialized,
    LocationMonitorService.onStorage, LocationEngine.getCurrentLocation,
    LocationEngine.getDistanceBetweenAgents, MemoryAdapter.getLastLocation,
    zoom, bind, read, throw, ret, result.
  cbn [LocationMonitorService.storage LocationMonitorService.initialized
       negb fst snd app].
  destruct (JSMap.get a (MemoryAdapter.locations s)),
    (JSMap.get b (MemoryAdapter.locations s));
    eexists; split; reflexivity.
Qed.
(** X28. The statistics of an agent follow its stored sample through
    every run: [getAgentStats] and [getLocation] are both absent or both
    present, and the statistics' [lastUpdate] is the timestamp of the
    sample that [getLocation] returns. *)
Theorem X28_statistics_follow_the_stored_sample calls a now :
  let w := runFrom config LocationMonitorService.new calls in
  match result (LocationMonitorService.getAgentStats a now w),
        result (LocationMonitorService.getLocation a now w) with
  | Ok (Some stats), Ok (Some location) =>
      stats_lastUpdate stats = timestamp location
  | Ok None, Ok None => True
  | Throw _, Throw _ => True
  | _, _ => False
  end.
Proof.
  intros w.
  assert (H : InStep w).
  { apply InStep_runFrom; [apply WellFormed_new|]. intros b. reflexivity. }
  specialize (H a). clearbody w. unfold ledger, storageLedger in H.
  cbn [fst snd] in H.
  unfold LocationMonitorService.getAgentStats,
    LocationMonitorService.getLocation,
    LocationMonitorService.ensureInitialized,
    LocationMonitorService.onStorage, LocationEngine.getCurrentLocation,
    MemoryAdapter.getAgentStats, MemoryAdapter.getLastLocation,
    zoom, bind, read, throw, ret, result.
  destruct (LocationMonitorService.initialized w); cbn; [|exact I].
  destruct (JSMap.get a (MemoryAdapter.stats
                           (LocationMonitorService.storage w)));
    destruct (JSMap.get a (MemoryAdapter.locations
                             (LocationMonitorService.storage w)));
    simpl in H; try discriminate; auto. now inversion H.
Qed.

End Ledger.

(** ** Mirroring the state from the events *)

Section MirrorFacts.
Variable V : Type.
Variable told : string -> MonitorEvent -> option V.

Lemma replay_app a out1 out2 held :
  replay told a (out1 ++ out2) held =
  replay told a out2 (replay told a out1 held).
Proof. unfold replay. apply fold_left_app. Qed.

Lemma replay_mute a out held :
  Forall (mute told) out -> replay told a out held = held.
Proof.
  intros H. revert held. induction H as [|d out Hd _ IH]; intros held;
    [reflexivity|].
  simpl. rewrite (Hd a). apply IH.
Qed.

Section On.
Context {S : Type}.
Variable stored : string -> S -> option V.

Lemma mirrors_ret A (x : A) : mirrors told stored (ret x).
Proof. intros now s a. reflexivity. Qed.

Lemma mirrors_throw A e : mirrors told stored (@throw S A e).
Proof. intros now s a. reflexivity. Qed.

Lemma mirrors_read A (f : S -> A) : mirrors told stored (read f).
Proof. intros now s a. reflexivity. Qed.

Lemma mirrors_getNow : mirrors told stored getNow.
Proof. intros now s a. reflexivity. Qed.

Lemma mirrors_bind A B (m : M S A) (f : A -> M S B) :
  mirrors told stored m -> (forall x, mirrors told stored (f x)) ->
  mirrors told stored (bind m f).
Proof.
  intros Hm Hf now s a. specialize (Hm now s a). unfold bind, final in *.
  destruct (m now s) as [[[x|e] s1] out1]; simpl in *; auto.
  specialize (Hf x now s1 a). unfold final in Hf.
  destruct (f x now s1) as [[r s2] out2]; simpl in *.
  now rewrite replay_app, <- Hm.
Qed.

Lemma mirrors_tryCatch (m : M S unit) :
  mirrors told stored m -> mirrors told stored (tryCatch m).
Proof.
  intros Hm now s a. specialize (Hm now s a). unfold tryCatch, final in *.
  destruct (m now s) as [[[x|e] s1] out1]; simpl in *; auto.
Qed.

Lemma mirrors_forEach Y (xs : list Y) (f : Y -> M S unit) :
  (forall x, mirrors told stored (f x)) ->
  mirrors told stored (forEach xs f).
Proof.
  intros Hf. induction xs as [|x xs IH]; simpl.
  - apply mirrors_ret.
  - apply mirrors_bind; auto.
Qed.

(** A program that leaves the stored values alone and announces
    nothing. *)
Lemma mirrors_quiet A (m : M S A) :
  (forall a, keeps (stored a) m) -> emitsOnly (mute told) m ->
  mirrors told stored m.
Proof.
  intros K E now s a. rewrite (K a now s).
  now rewrite replay_mute by apply E.
Qed.
End On.

Lemma mirrors_zoom W S A (storedW : string -> W -> option V)
    (storedS : string -> S -> option V) (proj : W -> S) inj (m : M S A) :
  (forall a w, storedW a w = storedS a (proj w)) ->
  (forall a s w, storedW a (inj s w) = storedS a s) ->
  mirrors told storedS m -> mirrors told storedW (zoom proj inj m).
Proof.
  intros Hp Hi Hm now w a. specialize (Hm now (proj w) a).
  unfold zoom, final in *.
  destruct (m now (proj w)) as [[r s1] out1]. simpl in *.
  now rewrite Hi, Hp.
Qed.
End MirrorFacts.

Ltac mute_step :=
  match goal with
  | |- emitsOnly _ (bind _ _) => apply emitsOnly_bind; [|intros]
  | |- emitsOnly _ (tryCatch _) => apply emitsOnly_tryCatch
  | |- emitsOnly _ (forEach _ _) => apply emitsOnly_forEach; intros
  | |- emitsOnly _ (MemoryAdapter.publishEvent _) =>
      apply emitsOnly_publishEvent; intros ? ?; reflexivity
  | |- emitsOnly _ (if ?b then _ else _) => destruct b
  | |- emitsOnly _ (match ?x with _ => _ end) => destruct x
  | |- emitsOnly _ (let _ := _ in _) => cbv zeta
  | |- emitsOnly _ _ => solve [auto with emits]
  end.

Ltac mute_auto := repeat mute_step.

Ltac keeps_more :=
  repeat first
    [ match goal with
      | |- keeps _ (let _ := _ in _) => cbv zeta
      | |- keeps _ (MemoryAdapter.publishEvent _) =>
          unfold MemoryAdapter.publishEvent
      end
    | keeps_step ].

Ltac quiet :=
  apply mirrors_quiet; [intros; keeps_more | mute_auto].

Ltac mirrors_step :=
  match goal with
  | |- mirrors _ _ (bind _ _) => apply mirrors_bind; [|intros]
  | |- mirrors _ _ (tryCatch _) => apply mirrors_tryCatch
  | |- mirrors _ _ (forEach _ _) => apply mirrors_forEach; intros
  | |- mirrors _ _ (ret _) => apply mirrors_ret
  | |- mirrors _ _ (throw _) => apply mirrors_throw
  | |- mirrors _ _ (read _) => apply mirrors_read
  | |- mirrors _ _ getNow => apply mirrors_getNow
  | |- mirrors _ _ (if ?b then _ else _) => destruct b
  | |- mirrors _ _ (match ?x with _ => _ end) => destruct x
  | |- mirrors _ _ (let _ := _ in _) => cbv zeta
  end.

Ltac mirrors_auto := repeat mirrors_step.

(** *** Statuses *)

(** [updateStatus] announces the new status of its agent, once, before
    anything else. *)
Lemma updateStatus_announces a0 old new ts reason now s :
  exists first rest,
    snd (StatusEngine.updateStatus a0 old new ts reason now s) =
      first :: rest /\
    (forall a,
       toldStatus a (event first) =
       if String.eqb a0 a then Some new else None) /\
    Forall (mute toldStatus) rest.
Proof.
  unfold StatusEngine.updateStatus, StatusEngine.emitSpecificStatusEvents,
    MemoryAdapter.saveStatus, MemoryAdapter.getAgentState.
  destruct old, new; cbn [AgentStatus_eqb andb orb negb];
    settle; cbn [snd app];
    eexists _, _; (split; [reflexivity|]);
    (split; [intros a; reflexivity|]);
    repeat constructor; intros a; reflexivity.
Qed.

Lemma mirrors_updateStatus a0 old new ts reason :
  mirrors toldStatus storedStatus
    (StatusEngine.updateStatus a0 old new ts reason).
Proof.
  intros now s a.
  destruct (updateStatus_announces a0 old new ts reason now s)
    as (first & rest & E & F & Mu).
  rewrite E. rewrite updateStatus_final.
  simpl. rewrite F. rewrite (replay_mute a _ Mu).
  unfold storedStatus.
  cbn [MemoryAdapter.with_statuses MemoryAdapter.statuses].
  destruct (String.eqb a0 a) eqn:Ea.
  - apply String.eqb_eq in Ea. subst. now rewrite get_set_same.
  - rewrite String.eqb_sym in Ea. now rewrite get_set_other.
Qed.

Lemma mirrors_status_detectStatus th a0 loc :
  mirrors toldStatus storedStatus (StatusEngine.detectStatus th a0 loc).
Proof.
  unfold StatusEngine.detectStatus, MemoryAdapter.getStatus,
    MemoryAdapter.getLastLocation.
  mirrors_auto; apply mirrors_updateStatus.
Qed.

Lemma mirrors_status_checkStatusByTime th a0 :
  mirrors toldStatus storedStatus (StatusEngine.checkStatusByTime th a0).
Proof.
  unfold StatusEngine.checkStatusByTime, MemoryAdapter.getAgentState.
  mirrors_auto; apply mirrors_updateStatus.
Qed.

Lemma mirrors_status_setStatus a0 st reason :
  mirrors toldStatus storedStatus (StatusEngine.setStatus a0 st reason).
Proof.
  unfold StatusEngine.setStatus, MemoryAdapter.getStatus.
  mirrors_auto; apply mirrors_updateStatus.
Qed.

Lemma mirrors_status_performCheck th :
  mirrors toldStatus storedStatus (WatchdogEngine.performCheck th).
Proof.
  unfold WatchdogEngine.performCheck, WatchdogEngine.checkAgent,
    MemoryAdapter.getAllAgents.
  mirrors_auto; apply mirrors_status_checkStatusByTime.
Qed.

Lemma mirrors_status_trackLocation (RT : JS.Runtime) a0 lat lon ts meta :
  mirrors toldStatus storedStatus
    (LocationEngine.trackLocation a0 lat lon ts meta).
Proof.
  unfold LocationEngine.trackLocation, LocationEngine.validateInput,
    MemoryAdapter.getLastLocation, MemoryAdapter.saveLocation.
  quiet.
Qed.

(** *** Locations *)

Lemma mirrors_location_trackLocation (RT : JS.Runtime) a0 lat lon ts meta :
  mirrors toldLocation storedLocation
    (LocationEngine.trackLocation a0 lat lon ts meta).
Proof.
  intros now s a.
  destruct (JS.truthyStr a0) eqn:Ha;
    [destruct (DistanceCalculator.isValidCoordinate lat lon) eqn:Hc|].
  - destruct (LocationEngine_trackLocation_exact a0 lat lon ts meta now s
                Ha Hc) as (loc & d & r & E & _ & Hid & _).
    rewrite E. cbn [final fst snd]. unfold storedLocation.
    cbn [MemoryAdapter.with_stats MemoryAdapter.with_locations
         MemoryAdapter.locations].
    simpl. unfold toldLocation. cbn [locationDelivery event type payload
                                     lr_agentId lr_location].
    rewrite Hid. destruct (String.eqb a0 a) eqn:Ea.
    + apply String.eqb_eq in Ea. subst. now rewrite get_set_same.
    + rewrite String.eqb_sym in Ea. now rewrite get_set_other.
  - unfold LocationEngine.trackLocation, LocationEngine.validateInput,
      bind, throw. rewrite Ha, Hc. reflexivity.
  - unfold LocationEngine.trackLocation, LocationEngine.validateInput,
      bind, throw. rewrite Ha. reflexivity.
Qed.

Lemma mirrors_location_updateStatus a0 old new ts reason :
  mirrors toldLocation storedLocation
    (StatusEngine.updateStatus a0 old new ts reason).
Proof.
  unfold StatusEngine.updateStatus, StatusEngine.emitSpecificStatusEvents,
    MemoryAdapter.saveStatus, MemoryAdapter.getAgentState.
  quiet.
Qed.

Lemma mirrors_location_detectStatus th a0 loc :
  mirrors toldLocation storedLocation (StatusEngine.detectStatus th a0 loc).
Proof.
  unfold StatusEngine.detectStatus, MemoryAdapter.getStatus,
    MemoryAdapter.getLastLocation.
  mirrors_auto; apply mirrors_location_updateStatus.
Qed.

Lemma mirrors_location_checkStatusByTime th a0 :
  mirrors toldLocation storedLocation (StatusEngine.checkStatusByTime th a0).
Proof.
  unfold StatusEngine.checkStatusByTime, MemoryAdapter.getAgentState.
  mirrors_auto; apply mirrors_location_updateStatus.
Qed.

Lemma mirrors_location_setStatus a0 st reason :
  mirrors toldLocation storedLocation (StatusEngine.setStatus a0 st reason).
Proof.
  unfold StatusEngine.setStatus, MemoryAdapter.getStatus.
  mirrors_auto; apply mirrors_location_updateStatus.
Qed.

Lemma mirrors_location_performCheck th :
  mirrors toldLocation storedLocation (WatchdogEngine.performCheck th).
Proof.
  unfold WatchdogEngine.performCheck, WatchdogEngine.checkAgent,
    MemoryAdapter.getAllAgents.
  mirrors_auto; apply mirrors_location_checkStatusByTime.
Qed.

(** *** Listening to a run *)

Section Listening.
Context {RT : JS.Runtime}.
Variable config : LocationMonitorConfig.
Variable V : Type.
Variable told : string -> MonitorEvent -> option V.
Variable stored : string -> MemoryAdapter.t -> option V.

(** What the argument needs to know about the stored value and its
    announcements. *)
Hypothesis stored_states :
  forall a f s, stored a (MemoryAdapter.with_states f s) = stored a s.
Hypothesis stored_handlers :
  forall a f s, stored a (MemoryAdapter.with_eventHandlers f s) = stored a s.
Hypothesis stored_disconnect :
  forall a now s, stored a (final (MemoryAdapter.disconnect now s)) = None.
Hypothesis stored_clear :
  forall a a0 now s,
    StoreInv s ->
    stored a (final (MemoryAdapter.clearAgentData a0 now s)) =
    if String.eqb a0 a then None else stored a s.
Hypothesis mute_geofence :
  forall ty dir a g loc now hs,
    mute told (geofenceDelivery ty dir a g loc now hs).
Hypothesis on_trackLocation :
  forall a lat lon ts meta,
    mirrors told stored (LocationEngine.trackLocation a lat lon ts meta).
Hypothesis on_detectStatus :
  forall th a loc, mirrors told stored (StatusEngine.detectStatus th a loc).
Hypothesis on_setStatus :
  forall a st reason, mirrors told stored (StatusEngine.setStatus a st reason).
Hypothesis on_checkStatusByTime :
  forall th a, mirrors told stored (StatusEngine.checkStatusByTime th a).
Hypothesis on_performCheck :
  forall th, mirrors told stored (WatchdogEngine.performCheck th).

Let storedW (a : string) (w : LocationMonitorService.t) : option V :=
  stored a (LocationMonitorService.storage w).

Lemma mirrors_onStorage A (m : M MemoryAdapter.t A) :
  mirrors told stored m ->
  mirrors told storedW (LocationMonitorService.onStorage m).
Proof.
  intros H. unfold LocationMonitorService.onStorage.
  apply mirrors_zoom with (storedS := stored); auto.
Qed.

(** A program that runs beside the driver and publishes nothing. *)
Lemma mirrors_beside A (m : M LocationMonitorService.t A) :
  keeps LocationMonitorService.storage m -> silent m ->
  mirrors told storedW m.
Proof.
  intros K Si now w a. unfold storedW. rewrite (K now w), (Si now w).
  reflexivity.
Qed.

Lemma keeps_storage_onGeoEngine A (m : M GeoEngine.t A) :
  keeps LocationMonitorService.storage (LocationMonitorService.onGeoEngine m).
Proof.
  unfold LocationMonitorService.onGeoEngine. now apply keeps_zoom_out.
Qed.

Lemma keeps_storage_onWatchdogEngine A (m : M WatchdogEngine.t A) :
  keeps LocationMonitorService.storage
    (LocationMonitorService.onWatchdogEngine m).
Proof.
  unfold LocationMonitorService.onWatchdogEngine. now apply keeps_zoom_out.
Qed.

Lemma mirrors_onGeoEngine A (m : M GeoEngine.t A) :
  silent m -> mirrors told storedW (LocationMonitorService.onGeoEngine m).
Proof.
  intros H. apply mirrors_beside.
  - apply keeps_storage_onGeoEngine.
  - unfold LocationMonitorService.onGeoEngine. now apply silent_zoom.
Qed.

Lemma mirrors_onWatchdogEngine A (m : M WatchdogEngine.t A) :
  silent m ->
  mirrors told storedW (LocationMonitorService.onWatchdogEngine m).
Proof.
  intros H. apply mirrors_beside.
  - apply keeps_storage_onWatchdogEngine.
  - unfold LocationMonitorService.onWatchdogEngine. now apply silent_zoom.
Qed.

Lemma mirrors_setInitialized b :
  mirrors told storedW (LocationMonitorService.setInitialized b).
Proof. intros now w a. reflexivity. Qed.

Lemma mirrors_ensureInitialized :
  mirrors told storedW LocationMonitorService.ensureInitialized.
Proof.
  unfold LocationMonitorService.ensureInitialized. mirrors_auto.
Qed.

Lemma mute_turnEvents a loc current now hs entries :
  Forall (mute told) (flat_map (turnEvents a loc current now hs) entries).
Proof.
  induction entries as [|e rest IH]; simpl; [constructor|].
  apply Forall_app. split; auto. unfold turnEvents.
  destruct (contains loc (snd e)), (JSSet.has (fst e) current);
    repeat constructor; apply mute_geofence.
Qed.

Lemma mirrors_checkGeofences a loc :
  mirrors told storedW
    (LocationMonitorService.onGeoEngineAndStorage
       (GeoEngine.checkGeofences a loc)).
Proof.
  intros now w b. unfold LocationMonitorService.onGeoEngineAndStorage, zoom.
  pose proof (mute_turnEvents a loc
                (GeoEngine.membership a (LocationMonitorService.geoEngine w))
                now
                (MemoryAdapter.eventHandlers
                   (LocationMonitorService.storage w))
                (GeoEngine.geofences (LocationMonitorService.geoEngine w)))
    as Mu.
  destruct (checkGeofences_cases a loc now
              (LocationMonitorService.geoEngine w)
              (LocationMonitorService.storage w))
    as [E | (out & more & E & F & _)]; rewrite E; cbn [final fst snd];
    unfold storedW; cbn [LocationMonitorService.storage].
  - now rewrite replay_mute by exact Mu.
  - rewrite F in Mu. apply Forall_app in Mu.
    now rewrite replay_mute by apply Mu.
Qed.

Lemma mirrors_updateAgentState a loc st :
  mirrors told storedW (LocationMonitorService.updateAgentState a loc st).
Proof.
  unfold LocationMonitorService.updateAgentState.
  mirrors_auto.
  - apply mirrors_onStorage. apply mirrors_read.
  - apply mirrors_onGeoEngine. apply silent_read.
  - apply mirrors_onStorage. intros now s b.
    unfold MemoryAdapter.saveAgentState, modify, final. cbn [fst snd].
    now rewrite stored_states.
Qed.

Ltac service_mirrors :=
  repeat first
    [ apply mirrors_ensureInitialized
    | apply mirrors_setInitialized
    | apply mirrors_onStorage
    | apply mirrors_onGeoEngine; solve [silent_auto]
    | apply mirrors_onWatchdogEngine; solve [silent_auto]
    | mirrors_step ].

Lemma mirrors_trackLocation a lat lon ts meta :
  mirrors told storedW
    (LocationMonitorService.trackLocation config a lat lon ts meta).
Proof.
  unfold LocationMonitorService.trackLocation.
  service_mirrors; auto.
  - apply mirrors_checkGeofences.
  - apply mirrors_updateAgentState.
Qed.

Lemma listen_perform op now w a :
  StoreInv (LocationMonitorService.storage w) ->
  storedW a (final (perform config op now w)) =
  listenStep told a (storedW a w) op (perform config op now w).
Proof.
  intros SI.
  assert (Mi : forall m : M LocationMonitorService.t unit,
             mirrors told storedW m ->
             storedW a (final (m now w)) =
             replay told a (snd (m now w)) (storedW a w)).
  { intros m H. apply H. }
  destruct op as [ | | agentId lat lon ts meta | agentId st reason | g0
                 | zoneId | agentId | agentId | | handler | | ];
    unfold perform; cbn [listenStep].
  - apply Mi. unfold LocationMonitorService.initialize,
      MemoryAdapter.initialize. service_mirrors.
  - destruct w as [s g [running] i].
    pose proof (stored_disconnect a now s) as D.
    destruct running; exact D.
  - apply Mi. mirrors_auto. apply mirrors_trackLocation.
  - apply Mi;
      unfold LocationMonitorService.setStatus; service_mirrors; auto.
  - apply Mi;
      unfold LocationMonitorService.registerGeofence; service_mirrors.
  - apply Mi;
      unfold LocationMonitorService.removeGeofence, GeoEngine.removeGeofence;
      service_mirrors.
  - destruct w as [s g d i]. cbn [LocationMonitorService.storage] in SI.
    pose proof (stored_clear a agentId now SI) as C.
    unfold storedW.
    unfold LocationMonitorService.clearAgentData,
      LocationMonitorService.ensureInitialized,
      LocationMonitorService.onStorage, LocationMonitorService.onGeoEngine,
      GeoEngine.clearAgentGeofences, MemoryAdapter.clearAgentData,
      zoom, bind, read, modify, throw, ret, result, final in *.
    destruct i;
      cbn [negb fst snd app LocationMonitorService.storage
           LocationMonitorService.initialized replay fold_left] in *;
      [exact C | reflexivity].
  - apply Mi;
      unfold LocationMonitorService.forceWatchdogCheck,
        WatchdogEngine.forceCheck, WatchdogEngine.checkAgent;
      service_mirrors; auto.
  - apply Mi;
      unfold LocationMonitorService.forceWatchdogCheckAll,
        WatchdogEngine.forceCheckAll;
      service_mirrors; auto.
  - apply Mi;
      unfold LocationMonitorService.subscribeEvents; service_mirrors;
      intros ? s b; unfold MemoryAdapter.subscribeEvents, modify, final;
      cbn [fst snd]; now rewrite stored_handlers.
  - apply Mi;
      unfold LocationMonitorService.unsubscribeEvents; service_mirrors;
      intros ? s b; unfold MemoryAdapter.unsubscribeEvents, modify, final;
      cbn [fst snd]; now rewrite stored_handlers.
  - apply Mi. unfold LocationMonitorService.watchdogTick,
      WatchdogEngine.isActive. service_mirrors; auto.
Qed.

Lemma listen_runFrom calls a :
  forall w,
    WellFormed w ->
    storedW a (runFrom config w calls) =
    listen told config a w calls (storedW a w).
Proof.
  induction calls as [|[now op] calls IH]; intros w WF; [reflexivity|].
  cbn [runFrom listen]. cbv zeta.
  rewrite IH by now apply WellFormed_perform.
  now rewrite listen_perform by apply WF.
Qed.
End Listening.

Lemma storedStatus_clear a a0 now s :
  StoreInv s ->
  storedStatus a (final (MemoryAdapter.clearAgentData a0 now s)) =
  if String.eqb a0 a then None else storedStatus a s.
Proof.
  intros (_ & N & _). unfold storedStatus. cbn.
  destruct (String.eqb a0 a) eqn:E.
  - apply String.eqb_eq in E. subst. now rewrite get_delete_same.
  - rewrite String.eqb_sym in E. now rewrite get_delete_other.
Qed.

Lemma storedLocation_clear a a0 now s :
  StoreInv s ->
  storedLocation a (final (MemoryAdapter.clearAgentData a0 now s)) =
  if String.eqb a0 a then None else storedLocation a s.
Proof.
  intros (N & _). unfold storedLocation. cbn.
  destruct (String.eqb a0 a) eqn:E.
  - apply String.eqb_eq in E. subst. now rewrite get_delete_same.
  - rewrite String.eqb_sym in E. now rewrite get_delete_other.
Qed.

Lemma mute_status_geofence (RT : JS.Runtime) ty dir a g loc now hs :
  mute toldStatus (geofenceDelivery ty dir a g loc now hs).
Proof. intros agent. destruct ty; reflexivity. Qed.

Lemma mute_location_geofence (RT : JS.Runtime) ty dir a g loc now hs :
  mute toldLocation (geofenceDelivery ty dir a g loc now hs).
Proof. intros agent. destruct ty; reflexivity. Qed.

Section Mirrored.
Context {RT : JS.Runtime}.
Variable config : LocationMonitorConfig.

(** X29. A subscriber can mirror the statuses from the events alone:
    after any run, [getStatus] returns for an agent the [newStatus] of
    the last [status.changed] event published for it since its data was
    last erased ([clearAgentData], [shutdown]), and nothing when there was
    none. *)
Theorem X29_status_events_mirror_the_statuses calls agent now :
  match result (LocationMonitorService.getStatus agent now
                  (runFrom config LocationMonitorService.new calls)) with
  | Ok status =>
      status =
      listen toldStatus config agent LocationMonitorService.new calls None
  | Throw _ => True
  end.
Proof.
  pose proof (@listen_runFrom RT config AgentStatus toldStatus storedStatus)
    as H.
  specialize (H (fun a f s => eq_refl) (fun a f s => eq_refl)
                (fun a now s => eq_refl) storedStatus_clear
                (@mute_status_geofence RT)
                (@mirrors_status_trackLocation RT) mirrors_status_detectStatus
                mirrors_status_setStatus mirrors_status_checkStatusByTime
                mirrors_status_performCheck calls agent
                LocationMonitorService.new WellFormed_new).
  cbv zeta in H.
  set (w := runFrom config LocationMonitorService.new calls) in *.
  unfold LocationMonitorService.getStatus,
    LocationMonitorService.ensureInitialized,
    LocationMonitorService.onStorage, StatusEngine.getStatus,
    MemoryAdapter.getStatus, zoom, bind, read, throw, ret, result.
  destruct (LocationMonitorService.initialized w); cbn; [|exact I].
  exact H.
Qed.

(** X30. The same for locations: after any run, [getLocation] returns
    for an agent the sample of the last [location.received] event
    published for it since its data was last erased, and nothing when
    there was none. *)
Theorem X30_location_events_mirror_the_locations calls agent now :
  match result (LocationMonitorService.getLocation agent now
                  (runFrom config LocationMonitorService.new calls)) with
  | Ok location =>
      location =
      listen toldLocation config agent LocationMonitorService.new calls None
  | Throw _ => True
  end.
Proof.
  pose proof (@listen_runFrom RT config LocationData toldLocation
                storedLocation) as H.
  specialize (H (fun a f s => eq_refl) (fun a f s => eq_refl)
                (fun a now s => eq_refl) storedLocation_clear
                (@mute_location_geofence RT)
                (@mirrors_location_trackLocation RT)
                mirrors_location_detectStatus
                mirrors_location_setStatus mirrors_location_checkStatusByTime
                mirrors_location_performCheck calls agent
                LocationMonitorService.new WellFormed_new).
  cbv zeta in H.
  set (w := runFrom config LocationMonitorService.new calls) in *.
  unfold LocationMonitorService.getLocation,
    LocationMonitorService.ensureInitialized,
    LocationMonitorService.onStorage, LocationEngine.getCurrentLocation,
    MemoryAdapter.getLastLocation, zoom, bind, read, throw, ret, result.
  destruct (LocationMonitorService.initialized w); cbn; [|exact I].
  exact H.
Qed.
End Mirrored.

(** ** Examples *)

(** X3 at the point (0, 2), south of [Inputs.triangle]. *)
Lemma X3_witness :
  forallb (fun v => c_latitude v >? 0) (coordinates Inputs.triangle) = true /\
  GeoUtils.isPointInPolygon 0 2 Inputs.triangle = false.
Proof.
  split; [reflexivity|].
  apply X3_no_vertex_across_means_outside. left. reflexivity.
Defined.

(** X5 for agent ["a"] after its first sample. *)
Lemma X5_witness :
  LocationMonitorService.initialized
    (runFrom DEFAULT_CONFIG LocationMonitorService.new Inputs.oneSample) =
    true /\
  result (LocationMonitorService.getLocation "a" Scenario.t0
            (final (LocationMonitorService.clearAgentData "a" Scenario.t0
                      (runFrom DEFAULT_CONFIG LocationMonitorService.new
                         Inputs.oneSample)))) = Ok None.
Proof.
  split; [reflexivity|].
  exact (proj1 (@X5_clearAgentData_forgets_the_agent seriesRuntime
                  DEFAULT_CONFIG Inputs.oneSample "a" Scenario.t0
                  Scenario.t0 eq_refl)).
Defined.

(** X7 on the started service, with the subscriber [Inputs.listener]
    and a first [track]. *)
Lemma X7_witness :
  LocationMonitorService.initialized Scenario.started = true /\
  Forall (fun d => receivers d = [Inputs.listener])
    (snd (perform DEFAULT_CONFIG (Track "a" 40.7128 (-74.0060) None None)
            Scenario.t0
            (final (LocationMonitorService.subscribeEvents Inputs.listener
                      Scenario.t0 Scenario.started)))).
Proof.
  split; [reflexivity|].
  exact (proj1 (@X7_subscribe_appends_and_unsubscribe_removes_all
                  seriesRuntime DEFAULT_CONFIG Scenario.started
                  Inputs.listener Scenario.t0 Scenario.t0
                  (Track "a" 40.7128 (-74.0060) None None) eq_refl)).
Defined.

(** X8 for the first sample of agent ["a"], sent with a timestamp ten
    seconds behind the clock to a service that [Inputs.listener] listens
    to. *)
Lemma X8_witness :
  exists loc,
    result (LocationMonitorService.trackLocation DEFAULT_CONFIG "a" 40.7128
              (-74.0060) (Some (Scenario.t0 - 10000)) None Scenario.t0
              Inputs.listened) = Ok loc /\
    result (LocationMonitorService.getLocation "a" Scenario.t0
              (final (LocationMonitorService.trackLocation DEFAULT_CONFIG "a"
                        40.7128 (-74.0060) (Some (Scenario.t0 - 10000)) None
                        Scenario.t0 Inputs.listened))) = Ok (Some loc) /\
    timestamp loc = Scenario.t0 - 10000.
Proof.
  destruct (@X8_accepted_track_reads_back seriesRuntime DEFAULT_CONFIG "a"
              40.7128 (-74.0060) (Some (Scenario.t0 - 10000)) None
              Scenario.t0 Scenario.t0 Inputs.listened eq_refl eq_refl eq_refl)
    as (loc & Hr & Hget & _ & _ & _ & _ & H7).
  exists loc. split; [|split; [exact Hget | exact H7]].
  destruct Hr as [Hr | [_ NC]]; [exact Hr|].
  exfalso. apply NC. intros e. reflexivity.
Defined.

(** X9 for the first sample of agent ["a"]. *)
Lemma X9_witness :
  exists loc d rest,
    result Scenario.firstTrack = Ok loc /\
    snd Scenario.firstTrack =
      {| event :=
           {| type := LOCATION_RECEIVED;
              payload := PLocationReceived
                           {| lr_agentId := "a";
                              lr_location := loc;
                              distanceTraveled := d;
                              lr_speed := speed loc |};
              ev_timestamp := Scenario.t0 |};
         receivers := [] |} :: rest /\
    d = 0.
Proof.
  destruct (@X9_track_publishes_one_location_event seriesRuntime
              DEFAULT_CONFIG "a" 40.7128 (-74.0060) None None Scenario.t0
              Scenario.started eq_refl eq_refl eq_refl)
    as (loc & d & rest & Hr & H2 & _ & H4).
  exists loc, d, rest. destruct (H4 eq_refl) as (_ & _ & Hd).
  split; [|split; [exact H2 | exact Hd]].
  destruct Hr as [Hr | [_ NC]]; [exact Hr|].
  exfalso. apply NC. intros e. reflexivity.
Defined.


(** X11 for agent ["a"] reporting twice from the center of [hq]. *)
Lemma X11_witness :
  exists loc,
    result (LocationMonitorService.trackLocation DEFAULT_CONFIG "a" 40.7128
              (-74.0060) None None Scenario.t0
              (runFrom DEFAULT_CONFIG LocationMonitorService.new
                 Inputs.withHq)) = Ok loc /\
    Forall plain
      (snd (LocationMonitorService.trackLocation DEFAULT_CONFIG "a" 40.7128
              (-74.0060) None None (Scenario.t0 + 1000)
              (final (LocationMonitorService.trackLocation DEFAULT_CONFIG "a"
                        40.7128 (-74.0060) None None Scenario.t0
                        (runFrom DEFAULT_CONFIG LocationMonitorService.new
                           Inputs.withHq))))).
Proof.
  eexists. split; [vm_compute; reflexivity|].
  eapply (@X11_same_position_again_crosses_nothing seriesRuntime
            DEFAULT_CONFIG Inputs.withHq "a" 40.7128 (-74.0060) None None
            Scenario.t0 None None (Scenario.t0 + 1000)).
  vm_compute. reflexivity.
Defined.

(** X12 for agent ["a"] reporting from the center of [hq]. *)
Lemma X12_witness :
  exists zones,
    result (LocationMonitorService.getGeofences Scenario.t0
              (final (LocationMonitorService.trackLocation DEFAULT_CONFIG
                        "a" 40.7128 (-74.0060) None None Scenario.t0
                        (runFrom DEFAULT_CONFIG LocationMonitorService.new
                           Inputs.withHq)))) = Ok zones /\
    result (LocationMonitorService.getAgentGeofences "a" Scenario.t0
              (final (LocationMonitorService.trackLocation DEFAULT_CONFIG
                        "a" 40.7128 (-74.0060) None None Scenario.t0
                        (runFrom DEFAULT_CONFIG LocationMonitorService.new
                           Inputs.withHq)))) =
      Ok (GeoUtils.getContainingGeofences 40.7128 (-74.0060) zones).
Proof.
  exact (@X12_tracked_agent_is_in_the_containing_zones seriesRuntime
           DEFAULT_CONFIG Inputs.withHq "a" 40.7128 (-74.0060) None None
           Scenario.t0 Scenario.t0 eq_refl eq_refl eq_refl eq_refl
           (or_introl (fun e => eq_refl))).
Defined.

(** X13 with [Inputs.noGeofencing]. *)
Lemma X13_witness :
  gf_enabled (geofence Inputs.noGeofencing) = false /\
  keeps LocationMonitorService.geoEngine
    (LocationMonitorService.trackLocation Inputs.noGeofencing "a" 40.7128
       (-74.0060) None None).
Proof.
  split; [reflexivity|].
  exact (proj1 (@X13_disabled_geofencing_is_inert seriesRuntime
                  Inputs.noGeofencing "a" 40.7128 (-74.0060) None None
                  eq_refl)).
Defined.

(** X17 on [Inputs.offlineStorage], looked at 1000 s after the agent
    went OFFLINE. *)
Lemma X17_witness :
  JSMap.get "a" (MemoryAdapter.states Inputs.offlineStorage) =
    Some Inputs.offlineSnapshot /\
  status Inputs.offlineSnapshot = OFFLINE /\
  StatusEngine.checkStatusByTime (thresholds DEFAULT_CONFIG) "a" 1001000
    Inputs.offlineStorage = (Ok OFFLINE, Inputs.offlineStorage, []).
Proof.
  split; [reflexivity|]. split; [reflexivity|].
  apply (@X17_offline_snapshot_is_left_alone (thresholds DEFAULT_CONFIG) "a"
           1001000 Inputs.offlineStorage Inputs.offlineSnapshot);
    reflexivity.
Defined.

(** X20 on a service that was never started: a [track] and a
    [getLocation] are both refused. *)
Lemma X20_witness :
  LocationMonitorService.initialized LocationMonitorService.new = false /\
  guarded (Track "a" 40.7128 (-74.0060) None None) = true /\
  perform DEFAULT_CONFIG (Track "a" 40.7128 (-74.0060) None None)
    Scenario.t0 LocationMonitorService.new =
    (Throw NotInitialized, LocationMonitorService.new, []) /\
  LocationMonitorService.getLocation "a" Scenario.t0
    LocationMonitorService.new =
    (Throw NotInitialized, LocationMonitorService.new, []).
Proof.
  split; [reflexivity|]. split; [reflexivity|].
  destruct (@X20_calls_on_a_stopped_service_are_refused seriesRuntime
              DEFAULT_CONFIG LocationMonitorService.new Scenario.t0
              (Track "a" 40.7128 (-74.0060) None None) "a" "b" eq_refl)
    as (Hop & Hloc & _).
  split; [exact (Hop eq_refl) | exact Hloc].
Defined.

(** X27 on the started service, where no agent has reported. *)
Lemma X27_witness :
  LocationMonitorService.initialized Scenario.started = true /\
  exists r,
    LocationMonitorService.getDistanceBetweenAgents "a" "b" Scenario.t0
      Scenario.started = (Ok r, Scenario.started, []) /\
    r = None.
Proof.
  split; [reflexivity|].
  destruct (@X27_distance_needs_both_locations seriesRuntime
              Scenario.started "a" "b" Scenario.t0 eq_refl) as (r & E & H).
  exists r. split; [exact E | exact H].
Defined.

